(** * StackCompass: the repository analysis pipeline

    A shallow embedding of [supabase/functions/analyze-repository/index.ts]
    and the properties of its file classifier, reviewer retry loop,
    response cleaning and validation, score extraction, batching, score
    aggregation and record lifecycle.

    Conventions of the embedding.
    - A JavaScript string is the list of its UTF-16 code units ([jsstring]);
      string literals of the source are written [str "..."].
    - JavaScript numbers that hold integers (sizes, counts, per-file scores)
      are [Z] or [nat]; the fractional arithmetic of the score aggregation
      is carried out in [Q] with each result rounded to a binary64 float by
      a function [double] of the environment.
    - Regular expressions of the source are values of the type [regex],
      run by a backtracking matcher that follows the ECMAScript semantics
      (greedy and lazy quantifiers, multi-line anchors, ignore-case,
      look-ahead, one capture group).
    - The outside world (request, authentication service, record store,
      repository host, reviewer) is an explicit environment [Env] of
      answers; the handler is a function of that environment which returns
      the HTTP response, the final record store and the trace of external
      calls it made. *)

From Stdlib Require Import Ascii String DecimalString.
From Stdlib Require Import ZArith NArith QArith Qround Qminmax List Bool Lia Lqa.
From Equations Require Import Equations.
Import ListNotations.

Close Scope Q_scope.
Open Scope nat_scope.

Set Implicit Arguments.
Unset Strict Implicit.

(** ** JavaScript strings *)

Module JS.

Definition jschar := N.
Definition jsstring := list jschar.

(** A source literal, all of whose characters are below U+0100. *)
Definition str (s : string) : jsstring :=
  List.map N_of_ascii (list_ascii_of_string s).

Fixpoint jsstring_eqb (a b : jsstring) : bool :=
  match a, b with
  | [], [] => true
  | x :: a', y :: b' => N.eqb x y && jsstring_eqb a' b'
  | _, _ => false
  end.

(** [s.startsWith(p)] *)
Fixpoint startsWith (s p : jsstring) : bool :=
  match p, s with
  | [], _ => true
  | x :: p', y :: s' => N.eqb x y && startsWith s' p'
  | _ :: _, [] => false
  end.

(** [s.includes(p)] *)
Fixpoint includes (s p : jsstring) : bool :=
  startsWith s p ||
  match s with
  | [] => false
  | _ :: s' => includes s' p
  end.

(** [s.endsWith(p)] *)
Definition endsWith (s p : jsstring) : bool :=
  startsWith (rev s) (rev p).

(** [names.some(name => s.endsWith(name))] *)
Definition someEndsWith (names : list jsstring) (s : jsstring) : bool :=
  existsb (fun name => endsWith s name) names.

(** [s.split(sep)] for a one-character separator: the list of the pieces
    between separators, never empty. *)
Fixpoint split1 (sep : jschar) (s : jsstring) : list jsstring :=
  match s with
  | [] => [[]]
  | c :: s' =>
      if N.eqb c sep then [] :: split1 sep s'
      else match split1 sep s' with
           | [] => [[c]]
           | piece :: pieces => (c :: piece) :: pieces
           end
  end.

(** [array.pop()] on a fresh array: its last element. *)
Definition pop (pieces : list jsstring) : jsstring := last pieces [].

(** [array.slice(from, to)] for in-range non-negative bounds. *)
Definition slice {A} (l : list A) (from to : nat) : list A :=
  firstn (to - from) (skipn from l).

(** [array.join(sep)] *)
Fixpoint join (sep : jsstring) (l : list jsstring) : jsstring :=
  match l with
  | [] => []
  | [x] => x
  | x :: l' => x ++ sep ++ join sep l'
  end.

(** A [Set<string>] keeps its members in insertion order; [add] of a
    member already present changes nothing. *)
Definition set_add (x : jsstring) (s : list jsstring) : list jsstring :=
  if existsb (jsstring_eqb x) s then s else s ++ [x].

(** Character classes of the regular expressions.  [\s] is the ECMAScript
    LineTerminator and WhiteSpace set: LF, CR, LS, PS; TAB, VT, FF, SP,
    NBSP, the other space separators and the byte order mark. *)
Definition isLineTerminator (c : jschar) : bool :=
  (N.eqb c 10 || N.eqb c 13 || N.eqb c 8232 || N.eqb c 8233)%N.

Definition isWhiteSpace (c : jschar) : bool :=
  (isLineTerminator c
   || N.eqb c 9 || N.eqb c 11 || N.eqb c 12 || N.eqb c 32 || N.eqb c 160
   || N.eqb c 5760 || ((8192 <=? c) && (c <=? 8202)) || N.eqb c 8239
   || N.eqb c 8287 || N.eqb c 12288 || N.eqb c 65279)%N.

Definition isDigit (c : jschar) : bool := ((48 <=? c) && (c <=? 57))%N.

(** [s.trim()] *)
Fixpoint trimStart (s : jsstring) : jsstring :=
  match s with
  | c :: s' => if isWhiteSpace c then trimStart s' else s
  | [] => []
  end.

Definition trim (s : jsstring) : jsstring :=
  rev (trimStart (rev (trimStart s))).

(** [parseInt(digits)] on a string of decimal digits. *)
Definition parseInt (digits : jsstring) : Z :=
  fold_left (fun acc c => 10 * acc + (Z.of_N c - 48))%Z digits 0%Z.

(** [Math.round] on a rational: the nearest integer, halves rounded up. *)
Definition Math_round (x : Q) : Z := Qfloor (x + (1 # 2))%Q.

(** ** Regular expressions

    The fragment of ECMAScript regular expressions the source uses.  A
    character class is a predicate on code units; none of the classes of
    the source contains a letter, so the ignore-case flag bears on literal
    characters only. *)

Inductive regex : Type :=
| Eps                                (* the empty pattern *)
| Chr (c : jschar)                   (* a literal character *)
| Cls (p : jschar -> bool)           (* a class: \s, \d, [-*], [^] *)
| Seq (r1 r2 : regex)                (* r1 r2 *)
| Alt (r1 r2 : regex)                (* r1 | r2 *)
| Star (r : regex)                   (* r* , greedy *)
| LazyStar (r : regex)               (* r*? *)
| Bol                                (* ^ *)
| Eol                                (* $ *)
| Group (r : regex)                  (* ( r ), the first capture group *)
| Ahead (r : regex).                 (* (?= r ) *)

(** [r+] *)
Definition Plus (r : regex) : regex := Seq r (Star r).

(** A literal run of characters. *)
Definition lit (s : jsstring) : regex :=
  fold_right (fun c r => Seq (Chr c) r) Eps s.

Record flags := { ignoreCase : bool; multiline : bool }.

(** The position of a match in progress: the text before it (nearest
    character first), the text after it, and the first capture. *)
Record mstate := MState {
  before : jsstring;
  after : jsstring;
  cap : option jsstring
}.

(** Canonicalize of the ignore-case flag, on the characters the source
    patterns contain: a to z are folded to A to Z.  (A non-ASCII character
    whose upper case is ASCII is left alone by ECMAScript outside unicode
    mode, so no character above U+007F matches an ASCII literal.) *)
Definition canonicalize (fl : flags) (c : jschar) : jschar :=
  if ignoreCase fl && (97 <=? c)%N && (c <=? 122)%N then (c - 32)%N else c.

Definition atBol (fl : flags) (st : mstate) : bool :=
  match before st with
  | [] => true
  | c :: _ => multiline fl && isLineTerminator c
  end.

Definition atEol (fl : flags) (st : mstate) : bool :=
  match after st with
  | [] => true
  | c :: _ => multiline fl && isLineTerminator c
  end.

(** The characters consumed between two positions of one text. *)
Definition consumed (st st' : mstate) : jsstring :=
  firstn (length (after st) - length (after st')) (after st).

(** The loop of a starred pattern [m]: at most [n] further iterations,
    each of which has to consume at least one character (RepeatMatcher
    rejects an empty iteration); [n] is the number of characters left, so
    the bound is never reached.  The greedy loop tries one more iteration
    before the continuation, the lazy one the continuation first. *)
Fixpoint repeatMatcher (lazy : bool)
    (m : mstate -> (mstate -> option mstate) -> option mstate)
    (k : mstate -> option mstate) (n : nat) (st : mstate) {struct n}
  : option mstate :=
  match n with
  | O => k st
  | S n' =>
      let again (_ : unit) :=
        m st (fun st' =>
                if length (after st') <? length (after st)
                then repeatMatcher lazy m k n' st' else None) in
      if lazy then
        match k st with
        | Some x => Some x
        | None => again tt
        end
      else
        match again tt with
        | Some x => Some x
        | None => k st
        end
  end.

(** The backtracking matcher, in continuation-passing style: [matcher fl r
    st k] tries the ways [r] can match at [st] in priority order and
    returns the first one the continuation [k] accepts. *)
Fixpoint matcher (fl : flags) (r : regex) (st : mstate)
    (k : mstate -> option mstate) {struct r} : option mstate :=
  match r with
  | Eps => k st
  | Chr c =>
      match after st with
      | ch :: rest =>
          if N.eqb (canonicalize fl ch) (canonicalize fl c)
          then k (MState (ch :: before st) rest (cap st))
          else None
      | [] => None
      end
  | Cls p =>
      match after st with
      | ch :: rest =>
          if p ch then k (MState (ch :: before st) rest (cap st)) else None
      | [] => None
      end
  | Seq r1 r2 => matcher fl r1 st (fun st' => matcher fl r2 st' k)
  | Alt r1 r2 =>
      match matcher fl r1 st k with
      | Some x => Some x
      | None => matcher fl r2 st k
      end
  | Star r' => repeatMatcher false (matcher fl r') k (length (after st)) st
  | LazyStar r' => repeatMatcher true (matcher fl r') k (length (after st)) st
  | Bol => if atBol fl st then k st else None
  | Eol => if atEol fl st then k st else None
  | Group r' =>
      matcher fl r' st
        (fun st' => k (MState (before st') (after st') (Some (consumed st st'))))
  | Ahead r' =>
      match matcher fl r' st Some with
      | Some st' => k (MState (before st) (after st) (cap st'))
      | None => None
      end
  end.

(** One attempt at one position, with no capture yet. *)
Definition matchAt (fl : flags) (r : regex) (b a : jsstring) : option mstate :=
  matcher fl r (MState b a None) Some.

(** [regex.exec] from a position: the leftmost match. *)
Fixpoint search (fl : flags) (r : regex) (b a : jsstring) : option mstate :=
  match matchAt fl r b a with
  | Some st' => Some st'
  | None =>
      match a with
      | [] => None
      | c :: rest => search fl r (c :: b) rest
      end
  end.

(** [regex.test(s)] *)
Definition test (fl : flags) (r : regex) (s : jsstring) : bool :=
  match search fl r [] s with Some _ => true | None => false end.

(** [s.match(regex)] for a pattern without the global flag: [None] is
    JavaScript's null; otherwise the first capture is returned, an absent
    capture being the empty string. *)
Definition match1 (fl : flags) (r : regex) (s : jsstring) : option jsstring :=
  match search fl r [] s with
  | Some st' => Some (match cap st' with Some g => g | None => [] end)
  | None => None
  end.

(** A replacement template: text and references to the first capture. *)
Inductive rpiece := RText (s : jsstring) | RGroup1.

Definition expand (repl : list rpiece) (c : option jsstring) : jsstring :=
  flat_map (fun p => match p with
                     | RText s => s
                     | RGroup1 => match c with Some g => g | None => [] end
                     end) repl.

(** [s.replace(regex, repl)] with the global flag.  [skip] counts the
    characters of the current match that are still to be dropped.  After
    an empty match the search resumes one character further on, that
    character being copied to the output. *)
Fixpoint replaceFrom (fl : flags) (r : regex) (repl : list rpiece)
    (skip : nat) (b a : jsstring) {struct a} : jsstring :=
  match skip with
  | S k =>
      match a with
      | [] => []
      | c :: rest => replaceFrom fl r repl k (c :: b) rest
      end
  | O =>
      match matchAt fl r b a with
      | Some st' =>
          expand repl (cap st') ++
          match a with
          | [] => []
          | c :: rest =>
              match length a - length (after st') with
              | O => c :: replaceFrom fl r repl 0 (c :: b) rest
              | S k => replaceFrom fl r repl k (c :: b) rest
              end
          end
      | None =>
          match a with
          | [] => []
          | c :: rest => c :: replaceFrom fl r repl 0 (c :: b) rest
          end
      end
  end.

Definition replace (fl : flags) (r : regex) (repl : list rpiece)
    (s : jsstring) : jsstring :=
  replaceFrom fl r repl 0 [] s.

End JS.
Import JS.

(** ** Helper functions of the source *)

Definition ch (a : ascii) : jschar := N_of_ascii a.

Definition flags_g : flags := {| ignoreCase := false; multiline := false |}.
Definition flags_gm : flags := {| ignoreCase := false; multiline := true |}.
Definition flags_i : flags := {| ignoreCase := true; multiline := false |}.

Definition ws : regex := Cls isWhiteSpace.
Definition digit : regex := Cls isDigit.
Definition isDashOrStar (c : jschar) : bool :=
  N.eqb c (ch "-") || N.eqb c (ch "*").
Definition isForbidden (c : jschar) : bool :=
  N.eqb c (ch "*") || N.eqb c (ch "#") || N.eqb c (ch "_") || N.eqb c (ch "-").

(** [/\*/g] *)
Definition re_asterisk : regex := Chr (ch "*").
(** [/#+\s*/g] *)
Definition re_header : regex := Seq (Plus (Chr (ch "#"))) (Star ws).
(** [/^\s*[-*]\s+/gm] *)
Definition re_bullet : regex :=
  Seq Bol (Seq (Star ws) (Seq (Cls isDashOrStar) (Plus ws))).
(** [/^\s*|\s*$/gm] *)
Definition re_margin : regex :=
  Alt (Seq Bol (Star ws)) (Seq (Star ws) Eol).
(** [/^\s*(\d+)\.\s+/gm] *)
Definition re_numbered : regex :=
  Seq Bol (Seq (Star ws) (Seq (Group (Plus digit)) (Seq (Chr (ch ".")) (Plus ws)))).
(** [/[*#_\-]/] *)
Definition re_forbidden : regex := Cls isForbidden.

(** [cleanAiResponse], lines 83-95. *)
Definition cleanAiResponse (text : jsstring) : jsstring :=
  (* Remove all asterisks *)
  let cleaned := replace flags_g re_asterisk [] text in
  (* Remove markdown headers *)
  let cleaned := replace flags_g re_header [] cleaned in
  (* Remove markdown list items *)
  let cleaned := replace flags_gm re_bullet [] cleaned in
  (* Remove extra whitespace *)
  let cleaned := replace flags_gm re_margin [] cleaned in
  (* Ensure numbered lists use plain numbers *)
  let cleaned := replace flags_gm re_numbered [RGroup1; RText (str ". ")] cleaned in
  cleaned.

(** [validateResponseFormat], lines 98-104. *)
Definition validateResponseFormat (text : jsstring) : bool :=
  if test flags_g re_forbidden text then false
  else if negb (includes text (str "SCORE:"))
          || negb (includes text (str "TOP 5 ACTIONABLE RECOMMENDATIONS:"))
       then false
  else true.

(** ** Data of the source (lines 7-61) *)

Module FileInsight.
Record t := Make {
  file : jsstring;
  analysis : jsstring;
  score : Z;
  size : Z;
  extension : jsstring
}.
End FileInsight.

Module GitHubFile.
Record t := Make {
  path : jsstring;
  type : jsstring;
  size : Z;
  url : jsstring
}.
End GitHubFile.

Record GitHubRepoResponse := {
  name : jsstring;
  default_branch : jsstring
}.

(** ** FileClassifier (lines 172-185 and 226-230) *)

Definition codeExtensions : list jsstring :=
  List.map str
    [".js"; ".jsx"; ".ts"; ".tsx"; ".py"; ".java"; ".cpp"; ".c"; ".cs";
     ".php"; ".rb"; ".go"; ".rs"; ".kt"; ".swift"; ".vue"; ".svelte";
     ".dart"; ".scala"; ".clj"; ".hs"; ".ml"; ".r"; ".sql"]%string.

Definition configExtensions : list jsstring :=
  List.map str
    [".json"; ".yml"; ".yaml"; ".toml"; ".xml"; ".ini"; ".env"; ".config"]%string.

Definition docExtensions : list jsstring :=
  List.map str [".md"; ".txt"; ".rst"]%string.

(** The names of line 182. *)
Definition relevantNames : list jsstring :=
  List.map str
    ["package.json"; "composer.json"; "Dockerfile"; "requirements.txt";
     "pom.xml"; "build.gradle"; "Cargo.toml"; "go.mod"]%string.

(** The names of line 229. *)
Definition manifestNames : list jsstring :=
  List.map str
    ["package.json"; "composer.json"; "requirements.txt"; "pom.xml";
     "build.gradle"; "Cargo.toml"; "go.mod"]%string.

Definition sizeCeiling : Z := 100000.

(** The callback of [treeData.tree.filter], lines 176-185. *)
Definition isRelevant (file : GitHubFile.t) : bool :=
  if negb (jsstring_eqb (GitHubFile.type file) (str "blob")) then false
  else if includes (GitHubFile.path file) (str "node_modules")
          || includes (GitHubFile.path file) (str ".git")
          || includes (GitHubFile.path file) (str "dist/")
          || includes (GitHubFile.path file) (str "build/") then false
  else if (GitHubFile.size file >? sizeCeiling)%Z then false
  else
    let hasRelevantExtension :=
      someEndsWith (codeExtensions ++ configExtensions ++ docExtensions)
                   (GitHubFile.path file) in
    let isConfigFile := someEndsWith relevantNames (GitHubFile.path file) in
    hasRelevantExtension || isConfigFile.

Definition allFiles (tree : list GitHubFile.t) : list GitHubFile.t :=
  filter isRelevant tree.

Definition isCode (f : GitHubFile.t) : bool :=
  someEndsWith codeExtensions (GitHubFile.path f).

Definition isConfig (f : GitHubFile.t) : bool :=
  someEndsWith configExtensions (GitHubFile.path f)
  || someEndsWith manifestNames (GitHubFile.path f).

Definition codeFiles (allFiles : list GitHubFile.t) : list GitHubFile.t :=
  filter isCode allFiles.

Definition configFiles (allFiles : list GitHubFile.t) : list GitHubFile.t :=
  filter isConfig allFiles.

(** ** Batching (lines 307-309)

    The list of the batches the loop
    [for (let i = 0; i < codeFiles.length; i += batchSize)] slices off. *)

Definition batchSize : nat := 10.

Equations batchesFrom (codeFiles : list GitHubFile.t) (i : nat)
  : list (list GitHubFile.t) by wf (length codeFiles - i) lt :=
  batchesFrom codeFiles i with lt_dec i (length codeFiles) => {
    | left _ =>
        slice codeFiles i (i + batchSize)
        :: batchesFrom codeFiles (i + batchSize);
    | right _ => [] }.
Next Obligation. unfold batchSize. lia. Qed.

Definition batches (codeFiles : list GitHubFile.t) : list (list GitHubFile.t) :=
  batchesFrom codeFiles 0.

(** ** ResponseParser (lines 436-442) *)

Definition anyChar : regex := Cls (fun _ => true).

(** [/SCORE:\s*(\d+)/i] *)
Definition re_score : regex :=
  Seq (lit (str "SCORE:")) (Seq (Star ws) (Group (Plus digit))).

(** Lines 436-437. *)
Definition fileScore (analysis : jsstring) : Z :=
  let scoreMatch := match1 flags_i re_score analysis in
  match scoreMatch with
  | Some g1 => Z.min 10 (Z.max 1 (parseInt g1))
  | None => 7%Z
  end.

(** [/HEADER:\s*([^]*?)(?=OTHER1:|OTHER2:|OTHER3:|OTHER4:|$)/i] *)
Definition re_section (header : string) (others : list string) : regex :=
  Seq (lit (str header))
    (Seq (Star ws)
       (Seq (Group (LazyStar anyChar))
          (Ahead (fold_right (fun h r => Alt (lit (str h)) r) Eol others)))).

Definition re_quality : regex :=
  re_section "CODE QUALITY REVIEW:"
    ["ARCHITECTURE ANALYSIS:"; "SECURITY REVIEW:"; "TECHNICAL DEBT ASSESSMENT:";
     "TOP 5 ACTIONABLE RECOMMENDATIONS:"]%string.

Definition re_security : regex :=
  re_section "SECURITY REVIEW:"
    ["CODE QUALITY REVIEW:"; "ARCHITECTURE ANALYSIS:"; "TECHNICAL DEBT ASSESSMENT:";
     "TOP 5 ACTIONABLE RECOMMENDATIONS:"]%string.

Definition re_recommendations : regex :=
  re_section "TOP 5 ACTIONABLE RECOMMENDATIONS:"
    ["CODE QUALITY REVIEW:"; "ARCHITECTURE ANALYSIS:"; "SECURITY REVIEW:";
     "TECHNICAL DEBT ASSESSMENT:"]%string.

(** [m && m[1].trim()] as the trimmed capture when it is not empty. *)
Definition sectionText (r : regex) (analysis : jsstring) : option jsstring :=
  match match1 flags_i r analysis with
  | Some g1 => match trim g1 with [] => None | t => Some t end
  | None => None
  end.

(** ** ScoreAggregator (lines 474-485)

    A JavaScript number is a binary64 float.  The aggregation is written
    over the rationals with every arithmetic operation followed by the
    rounding [double] of its exact result to a float, and every decimal
    constant that is no float rounded likewise; [Math.min], [Math.max] and
    [Math.round] are exact on floats.  What is known of [double] is stated
    where it is needed (see [Rounding]).  Per-file scores are integers
    ([Z]): [parseInt] is taken on digit strings whose value a float holds
    exactly; longer ones are outside the embedding. *)

(** The unit roundoff of binary64 and the magnitudes of its normal range. *)
Definition epsilon : Q := (1 # 9007199254740992)%Q.

Definition normal (x : Q) : Prop :=
  (Qpower 2 (-1022) <= x)%Q /\ (x <= Qpower 2 1023)%Q.

(** What the properties use of the rounding to binary64: it is a function
    of the value, zero is a float, and the relative error on the normal
    range is at most [epsilon]. *)
Record Rounding (double : Q -> Q) : Prop := {
  double_proper : forall x y, (x == y)%Q -> (double x == double y)%Q;
  double_zero : (double 0 == 0)%Q;
  double_error : forall x, normal x ->
    (x * (1 - epsilon) <= double x)%Q /\ (double x <= x * (1 + epsilon))%Q
}.

Definition lengthQ {A} (l : list A) : Q := inject_Z (Z.of_nat (length l)).

(** [fileInsights.reduce((sum, file) => sum + file.score, 0) / fileInsights.length] *)
Definition avgCodeQuality (double : Q -> Q) (fileInsights : list FileInsight.t) : Q :=
  double
    (fold_left (fun sum file => double (sum + inject_Z (FileInsight.score file)))
               fileInsights 0
     / lengthQ fileInsights)%Q.

Definition computeFinalScore (double : Q -> Q) (fileInsights : list FileInsight.t)
    (architecturePatterns frameworks securityIssues : list jsstring) : Z :=
  if 0 <? length fileInsights then
    let avgCodeQuality := avgCodeQuality double fileInsights in
    let architectureBonus :=
      if 0 <? length architecturePatterns
      then Qmin 2 (double (lengthQ architecturePatterns * (5 # 10)))%Q else 0%Q in
    let frameworkBonus :=
      if 0 <? length frameworks
      then Qmin 1 (double (lengthQ frameworks * double (2 # 10)))%Q else 0%Q in
    let securityPenalty :=
      if 0 <? length securityIssues
      then Qmin 2 (double (lengthQ securityIssues * double (3 # 10)))%Q else 0%Q in
    Z.max 1 (Z.min 10 (Math_round
      (double (double (double (avgCodeQuality + architectureBonus)
                       + frameworkBonus) - securityPenalty))%Q))
  else 1%Z.

(** ** The outside world *)

Inductive Exn := Error (message : jsstring) | NonError.

(** The result of awaiting a call: a value, or a thrown exception. *)
Inductive Outcome (A : Type) := Returned (a : A) | Thrown (e : Exn).
Arguments Returned {A} a.
Arguments Thrown {A} e.

(** An HTTP response whose body has been read: [response.ok] with the
    parsed body, or a status outside 200-299. *)
Inductive HttpResponse (A : Type) := Ok (body : A) | NotOk (status : nat).
Arguments Ok {A} body.
Arguments NotOk {A} status.

Record Env := {
  (** the number type of the runtime: the rounding of a real to binary64 *)
  double : Q -> Q;
  (** the request *)
  repoUrl : jsstring;
  authorization : option jsstring;
  (** [supabaseClient.auth.getUser()]: the id of the user, if any *)
  getUser : Outcome (option jsstring);
  (** the insert into [analyses]: the id of the new row, or
      [insertError.message] *)
  insertAnalysis : Outcome (jsstring + jsstring);
  (** the update of [analyses]: [updateError.message], if any *)
  updateAnalysis : Outcome (option jsstring);
  (** the repository host: repository, tree, and the [content] field of
      the contents of a path *)
  fetchRepo : Outcome (HttpResponse GitHubRepoResponse);
  fetchTree : Outcome (HttpResponse (list GitHubFile.t));
  fetchContent : jsstring -> Outcome (HttpResponse (option jsstring));
  (** [Buffer.from(content, 'base64').toString('utf-8')] *)
  decodeBase64 : jsstring -> jsstring;
  (** [Object.keys] of the merged dependencies of a [package.json];
      [None] when [JSON.parse] or the property access throws *)
  packageJsonDeps : jsstring -> option (list jsstring);
  (** [process.env.GROQ_API_KEY] *)
  GROQ_API_KEY : option jsstring;
  (** the reviewer: the text of the first choice of the answer to the
      n-th call for a path *)
  groq : jsstring -> nat -> Outcome (HttpResponse jsstring)
}.

(** ** The record store and the run state *)

Inductive Status := pending | completed | failed.

Module TechStack.
Record t := Make {
  languages : list (jsstring * nat);
  frameworks : list jsstring;
  tools : list jsstring;
  architecture_patterns : option (list jsstring);
  security_issues_count : option nat;
  quality_issues_count : option nat
}.
End TechStack.

(** A row of the table [analyses]; a column that was never written is
    [None]. *)
Module Analysis.
Record t := Make {
  id : jsstring;
  user_id : jsstring;
  repo_url : jsstring;
  status : Status;
  stack_score : option Z;
  summary : option jsstring;
  suggestions : option (list jsstring);
  tech_stack : option TechStack.t;
  file_insights : option (list FileInsight.t)
}.
End Analysis.

Inductive Event :=
| AuthGetUser
| InsertAnalysis (status : Status)
| FetchRepo
| FetchTree
| FetchContent (path : jsstring)
| ReviewCall (path : jsstring) (attempt : nat)
| UpdateAnalysis (id : jsstring) (status : Status).

(** The mutable state of one run: the table, the external calls made so
    far (oldest first) and the accumulators of lines 216-223. *)
Record State := MkState {
  store : list Analysis.t;
  trace : list Event;
  fileInsights : list FileInsight.t;
  suggestions : list jsstring;
  languageStats : list (jsstring * nat);
  frameworks : list jsstring;
  tools : list jsstring;
  architecturePatterns : list jsstring;
  codeQualityIssues : list jsstring;
  securityIssues : list jsstring
}.

Definition initialState (store0 : list Analysis.t) : State :=
  MkState store0 [] [] [] [] [] [] [] [] [].

Definition set_store f (s : State) : State :=
  MkState (f (store s)) (trace s) (fileInsights s) (suggestions s) (languageStats s)
    (frameworks s) (tools s) (architecturePatterns s) (codeQualityIssues s)
    (securityIssues s).
Definition set_trace f (s : State) : State :=
  MkState (store s) (f (trace s)) (fileInsights s) (suggestions s) (languageStats s)
    (frameworks s) (tools s) (architecturePatterns s) (codeQualityIssues s)
    (securityIssues s).
Definition set_fileInsights f (s : State) : State :=
  MkState (store s) (trace s) (f (fileInsights s)) (suggestions s) (languageStats s)
    (frameworks s) (tools s) (architecturePatterns s) (codeQualityIssues s)
    (securityIssues s).
Definition set_suggestions f (s : State) : State :=
  MkState (store s) (trace s) (fileInsights s) (f (suggestions s)) (languageStats s)
    (frameworks s) (tools s) (architecturePatterns s) (codeQualityIssues s)
    (securityIssues s).
Definition set_languageStats f (s : State) : State :=
  MkState (store s) (trace s) (fileInsights s) (suggestions s) (f (languageStats s))
    (frameworks s) (tools s) (architecturePatterns s) (codeQualityIssues s)
    (securityIssues s).
Definition set_frameworks f (s : State) : State :=
  MkState (store s) (trace s) (fileInsights s) (suggestions s) (languageStats s)
    (f (frameworks s)) (tools s) (architecturePatterns s) (codeQualityIssues s)
    (securityIssues s).
Definition set_tools f (s : State) : State :=
  MkState (store s) (trace s) (fileInsights s) (suggestions s) (languageStats s)
    (frameworks s) (f (tools s)) (architecturePatterns s) (codeQualityIssues s)
    (securityIssues s).
Definition set_architecturePatterns f (s : State) : State :=
  MkState (store s) (trace s) (fileInsights s) (suggestions s) (languageStats s)
    (frameworks s) (tools s) (f (architecturePatterns s)) (codeQualityIssues s)
    (securityIssues s).
Definition set_codeQualityIssues f (s : State) : State :=
  MkState (store s) (trace s) (fileInsights s) (suggestions s) (languageStats s)
    (frameworks s) (tools s) (architecturePatterns s) (f (codeQualityIssues s))
    (securityIssues s).
Definition set_securityIssues f (s : State) : State :=
  MkState (store s) (trace s) (fileInsights s) (suggestions s) (languageStats s)
    (frameworks s) (tools s) (architecturePatterns s) (codeQualityIssues s)
    (f (securityIssues s)).

(** ** The monad of the handler: state and exceptions *)

Definition M (A : Type) : Type := State -> Outcome A * State.

Definition ret {A} (a : A) : M A := fun s => (Returned a, s).
Definition throw {A} (e : Exn) : M A := fun s => (Thrown e, s).
Definition bind {A B} (m : M A) (k : A -> M B) : M B :=
  fun s => match m s with
           | (Returned a, s') => k a s'
           | (Thrown e, s') => (Thrown e, s')
           end.
(** [try { m } catch (e) { h e }] *)
Definition tryCatch {A} (m : M A) (h : Exn -> M A) : M A :=
  fun s => match m s with
           | (Returned a, s') => (Returned a, s')
           | (Thrown e, s') => h e s'
           end.
Definition modify (f : State -> State) : M unit := fun s => (Returned tt, f s).
Definition gets {A} (f : State -> A) : M A := fun s => (Returned (f s), s).
(** [await call], the call being recorded in the trace *)
Definition await {A} (ev : Event) (answer : Outcome A) : M A :=
  fun s => (answer, set_trace (fun t => t ++ [ev]) s).
Definition when (b : bool) (m : M unit) : M unit := if b then m else ret tt.

Declare Scope monad_scope.
Delimit Scope monad_scope with monad.
Notation "x <- m ;; k" := (bind m (fun x => k))
  (at level 61, m at next level, right associativity) : monad_scope.
Notation "m ;; k" := (bind m (fun _ => k))
  (at level 61, right associativity) : monad_scope.
Open Scope monad_scope.

Fixpoint forEach {A} (l : list A) (body : A -> M unit) : M unit :=
  match l with
  | [] => ret tt
  | x :: l' => body x ;; forEach l' body
  end.

Fixpoint mapM {A B} (f : A -> M B) (l : list A) : M (list B) :=
  match l with
  | [] => ret []
  | x :: l' => y <- f x ;; ys <- mapM f l' ;; ret (y :: ys)
  end.

(** ** The pipeline (lines 106-546) *)

(** [String(n)] for a count. *)
Definition showNat (n : nat) : jsstring :=
  str (DecimalString.NilEmpty.string_of_uint (Nat.to_uint n)).

Definition newline : jsstring := [10%N].

(** [languageStats[ext] = (languageStats[ext] || 0) + 1] *)
Fixpoint bump (ext : jsstring) (stats : list (jsstring * nat)) : list (jsstring * nat) :=
  match stats with
  | [] => [(ext, 1)]
  | (k, n) :: stats' =>
      if jsstring_eqb k ext then (k, n + 1) :: stats'
      else (k, n) :: bump ext stats'
  end.

(** The result of the retry loop: [None] when the task returned null from
    inside it, otherwise the values of its three variables at its exit. *)
Definition LoopExit : Type := option (nat * jsstring * bool).

(** A JSON value of a response body. *)
Inductive Json := JTrue | JNumber (n : Z) | JString (s : jsstring).

Record Response := {
  statusCode : nat;
  body : list (string * Json)
}.

Section Pipeline.

Variable env : Env.

Definition addFramework (x : string) : M unit :=
  modify (set_frameworks (set_add (str x))).
Definition addTool (x : string) : M unit :=
  modify (set_tools (set_add (str x))).
Definition addPattern (x : string) : M unit :=
  modify (set_architecturePatterns (set_add (str x))).

(** Lines 252-299: the signature rules of the manifest pass. *)
Definition detectFromConfig (file : GitHubFile.t) (content : jsstring) : M unit :=
  let path := GitHubFile.path file in
  when (endsWith path (str "package.json"))
    (match packageJsonDeps env content with
     | Some deps =>
         forEach deps (fun dep =>
           when (includes dep (str "react")) (addFramework "React") ;;
           when (includes dep (str "vue")) (addFramework "Vue.js") ;;
           when (includes dep (str "angular")) (addFramework "Angular") ;;
           when (includes dep (str "express")) (addFramework "Express.js") ;;
           when (includes dep (str "next")) (addFramework "Next.js") ;;
           when (includes dep (str "svelte")) (addFramework "Svelte") ;;
           when (includes dep (str "webpack")) (addTool "Webpack") ;;
           when (includes dep (str "vite")) (addTool "Vite") ;;
           when (includes dep (str "typescript")) (addTool "TypeScript") ;;
           when (includes dep (str "eslint")) (addTool "ESLint") ;;
           when (includes dep (str "prettier")) (addTool "Prettier") ;;
           when (includes dep (str "jest")) (addTool "Jest") ;;
           when (includes dep (str "cypress")) (addTool "Cypress"))
     | None => ret tt
     end) ;;
  when (endsWith path (str "requirements.txt"))
    (forEach (split1 10%N content) (fun line =>
       when (includes line (str "django")) (addFramework "Django") ;;
       when (includes line (str "flask")) (addFramework "Flask") ;;
       when (includes line (str "fastapi")) (addFramework "FastAPI") ;;
       when (includes line (str "pandas")) (addTool "Pandas") ;;
       when (includes line (str "numpy")) (addTool "NumPy") ;;
       when (includes line (str "tensorflow")) (addFramework "TensorFlow") ;;
       when (includes line (str "pytorch")) (addFramework "PyTorch"))) ;;
  when (endsWith path (str "Cargo.toml"))
    (addFramework "Rust" ;;
     when (includes content (str "tokio")) (addFramework "Tokio") ;;
     when (includes content (str "actix")) (addFramework "Actix Web")) ;;
  when (endsWith path (str "go.mod"))
    (addFramework "Go Modules" ;;
     when (includes content (str "gin-gonic")) (addFramework "Gin") ;;
     when (includes content (str "gorilla")) (addFramework "Gorilla")).

(** Lines 240-304: one iteration of the loop over the config files. *)
Definition analyzeConfig (file : GitHubFile.t) : M unit :=
  tryCatch
    (fileResponse <- await (FetchContent (GitHubFile.path file))
                       (fetchContent env (GitHubFile.path file)) ;;
     match fileResponse with
     | NotOk _ => ret tt
     | Ok None | Ok (Some []) => ret tt
     | Ok (Some fileData_content) =>
         detectFromConfig file (decodeBase64 env fileData_content)
     end)
    (fun error => ret tt).

(** Lines 393-428: [while (attempts < 3 && !validResponse)]. *)
Equations reviewLoop (file : GitHubFile.t) (attempts : nat) (analysis : jsstring)
    (validResponse : bool) (s : State) : Outcome LoopExit * State
    by wf (3 - attempts) lt :=
  reviewLoop file attempts analysis validResponse s
    with lt_dec attempts 3, validResponse => {
    | left _, false =>
        let s' := set_trace (fun t => t ++ [ReviewCall (GitHubFile.path file) attempts]) s in
        match groq env (GitHubFile.path file) attempts with
        | Returned (Ok content) =>
            let analysis := cleanAiResponse content in
            let validResponse := validateResponseFormat analysis in
            reviewLoop file (attempts + 1) analysis validResponse s'
        | Returned (NotOk _) => (Returned None, s')
        | Thrown e => (Thrown e, s')
        end;
    | _, _ => (Returned (Some (attempts, analysis, validResponse)), s) }.
Next Obligation.
  do 3 (destruct attempts as [|attempts]; [simpl; lia|]). lia.
Qed.

(** Lines 328-334: the code-content pass of the detector. *)
Definition detectFromCode (content : jsstring) : M unit :=
  when (includes content (str "class ") && includes content (str "extends"))
    (addPattern "Object-Oriented") ;;
  when (includes content (str "function") && includes content (str "=>"))
    (addPattern "Functional Programming") ;;
  when (includes content (str "import") && includes content (str "from"))
    (addPattern "Modular Architecture") ;;
  when (includes content (str "async") && includes content (str "await"))
    (addPattern "Asynchronous Programming") ;;
  when (includes content (str "useState") || includes content (str "useEffect"))
    (addFramework "React Hooks") ;;
  when (includes content (str "@Component") || includes content (str "@Injectable"))
    (addFramework "Angular") ;;
  when (includes content (str "@RestController") || includes content (str "@Service"))
    (addFramework "Spring Boot").

(** Lines 436-462: what a validated review contributes. *)
Definition recordReview (file : GitHubFile.t) (fileExtension analysis : jsstring)
  : M (option FileInsight.t) :=
  let path := GitHubFile.path file in
  let fileScore := fileScore analysis in
  match sectionText re_quality analysis with
  | Some t => modify (set_codeQualityIssues (fun l => l ++ [path ++ str ": " ++ t]))
  | None => ret tt
  end ;;
  match sectionText re_security analysis with
  | Some t => modify (set_securityIssues (fun l => l ++ [path ++ str ": " ++ t]))
  | None => ret tt
  end ;;
  match sectionText re_recommendations analysis with
  | Some t => modify (set_suggestions (fun l => l ++ [path ++ str ": " ++ t]))
  | None => ret tt
  end ;;
  ret (Some (FileInsight.Make path analysis fileScore (GitHubFile.size file) fileExtension)).

(** Lines 312-467: the task of one code file. *)
Definition analyzeFile (file : GitHubFile.t) : M (option FileInsight.t) :=
  tryCatch
    (fileResponse <- await (FetchContent (GitHubFile.path file))
                       (fetchContent env (GitHubFile.path file)) ;;
     match fileResponse with
     | NotOk _ => ret None
     | Ok None | Ok (Some []) => ret None
     | Ok (Some fileData_content) =>
         let content := decodeBase64 env fileData_content in
         let fileExtension :=
           match pop (split1 (ch ".") (GitHubFile.path file)) with
           | [] => str "unknown"
           | e => e
           end in
         modify (set_languageStats (bump fileExtension)) ;;
         detectFromCode content ;;
         match GROQ_API_KEY env with
         | None | Some [] => ret None
         | Some _groqApiKey =>
             exit <- reviewLoop file 0 [] false ;;
             match exit with
             | None => ret None
             | Some (_, analysis, validResponse) =>
                 if negb validResponse then ret None
                 else recordReview file fileExtension analysis
             end
         end
     end)
    (fun fileError => ret None).

Fixpoint validResults (batchResults : list (option FileInsight.t)) : list FileInsight.t :=
  match batchResults with
  | [] => []
  | Some r :: l => r :: validResults l
  | None :: l => validResults l
  end.

(** Lines 309-471: one batch.  The tasks of a batch are run one after the
    other in the order of the batch. *)
Definition processBatch (batch : list GitHubFile.t) : M unit :=
  batchResults <- mapM analyzeFile batch ;;
  modify (set_fileInsights (fun l => l ++ validResults batchResults)).

(** Lines 488-497. *)
Definition showAvgQuality (fileInsights : list FileInsight.t) : jsstring :=
  if 0 <? length fileInsights then
    let tenths :=
      Z.to_nat (Math_round (double env (avgCodeQuality (double env) fileInsights * 10))%Q) in
    if tenths mod 10 =? 0 then showNat (tenths / 10)
    else showNat (tenths / 10) ++ str "." ++ showNat (tenths mod 10)
  else str "0".

Definition orElse (s : jsstring) (default : string) : jsstring :=
  match s with [] => str default | _ => s end.

Definition makeSummary (repoData : GitHubRepoResponse) (s : State) : jsstring :=
  str "Comprehensive analysis of " ++ name repoData ++ str ": Analyzed "
  ++ showNat (length (fileInsights s)) ++ str " files across "
  ++ showNat (length (languageStats s)) ++ str " languages. " ++ newline
  ++ str "    " ++ newline
  ++ str "Architecture: "
  ++ orElse (join (str ", ") (architecturePatterns s)) "Basic structure detected"
  ++ newline
  ++ str "Frameworks: "
  ++ orElse (join (str ", ") (frameworks s)) "No major frameworks detected"
  ++ newline
  ++ str "Code Quality: Average score " ++ showAvgQuality (fileInsights s)
  ++ str "/10" ++ newline
  ++ str "Security: " ++ showNat (length (securityIssues s))
  ++ str " potential security concerns identified" ++ newline
  ++ str "Technical Debt: " ++ showNat (length (codeQualityIssues s))
  ++ str " code quality issues found".

(** [.update(fields).eq('id', id)] *)
Definition updateRow (id : jsstring) (f : Analysis.t -> Analysis.t)
    (rows : list Analysis.t) : list Analysis.t :=
  List.map (fun row => if jsstring_eqb (Analysis.id row) id then f row else row) rows.

Definition completeRow (score : Z) (summary : jsstring) (suggestions : list jsstring)
    (tech : TechStack.t) (insights : list FileInsight.t) (row : Analysis.t) : Analysis.t :=
  Analysis.Make (Analysis.id row) (Analysis.user_id row) (Analysis.repo_url row)
    completed (Some score) (Some summary) (Some suggestions) (Some tech) (Some insights).

(** The update of lines 191-205 and 511-526. *)
Definition writeCompleted (id : jsstring) (score : Z) (summary : jsstring)
    (suggestions : list jsstring) (tech : TechStack.t) (insights : list FileInsight.t)
  : M unit :=
  updateError <- await (UpdateAnalysis id completed) (updateAnalysis env) ;;
  match updateError with
  | Some message => throw (Error (str "Failed to update analysis: " ++ message))
  | None =>
      modify (set_store (updateRow id (completeRow score summary suggestions tech insights)))
  end.

Definition json (statusCode : nat) (body : list (string * Json)) : M Response :=
  ret {| statusCode := statusCode; body := body |}.

(** Lines 171-538: the run once the tree is there. *)
Definition analyzeTree (analysisId : jsstring) (repoData : GitHubRepoResponse)
    (tree : list GitHubFile.t) : M Response :=
  let allFiles := allFiles tree in
  if length allFiles =? 0 then
    writeCompleted analysisId 1
      (str "Repository analyzed but no supported files found.")
      [str "Add supported file types and frameworks to improve analysis"]
      (TechStack.Make [] [] [] None None None) [] ;;
    json 200 [("success", JTrue); ("analysisId", JString analysisId);
              ("score", JNumber 1); ("filesAnalyzed", JNumber 0)]%string
  else
    let codeFiles := codeFiles allFiles in
    let configFiles := configFiles allFiles in
    forEach configFiles analyzeConfig ;;
    forEach (batches codeFiles) processBatch ;;
    s <- gets (fun s => s) ;;
    let finalScore :=
      computeFinalScore (double env) (fileInsights s) (architecturePatterns s)
        (frameworks s) (securityIssues s) in
    let summary := makeSummary repoData s in
    let techStack :=
      TechStack.Make (languageStats s) (frameworks s) (tools s)
        (Some (architecturePatterns s)) (Some (length (securityIssues s)))
        (Some (length (codeQualityIssues s))) in
    writeCompleted analysisId finalScore summary
      (slice (suggestions s) 0 10 ++ slice (codeQualityIssues s) 0 5
       ++ slice (securityIssues s) 0 5)
      techStack (fileInsights s) ;;
    json 200 [("success", JTrue); ("analysisId", JString analysisId);
              ("score", JNumber finalScore);
              ("filesAnalyzed", JNumber (Z.of_nat (length (fileInsights s))));
              ("languages", JNumber (Z.of_nat (length (languageStats s))));
              ("frameworks", JNumber (Z.of_nat (length (frameworks s))));
              ("securityIssues", JNumber (Z.of_nat (length (securityIssues s))))]%string.

(** The row the insert of lines 130-138 creates. *)
Definition pendingRow (id user_id repo_url : jsstring) : Analysis.t :=
  Analysis.Make id user_id repo_url pending None None None None None.

(** The body of the [try] of the handler, lines 108-170. *)
Definition analyzeRepository : M Response :=
  match authorization env with
  | None | Some [] => throw (Error (str "Authorization header missing"))
  | Some _authHeader =>
  user <- await AuthGetUser (getUser env) ;;
  match user with
  | None => throw (Error (str "User not authenticated"))
  | Some user_id =>
  inserted <- await (InsertAnalysis pending) (insertAnalysis env) ;;
  match inserted with
  | inr message => throw (Error (str "Failed to create analysis record: " ++ message))
  | inl analysisId =>
  modify (set_store (fun rows => rows ++ [pendingRow analysisId user_id (repoUrl env)])) ;;
  repoResponse <- await FetchRepo (fetchRepo env) ;;
  match repoResponse with
  | NotOk status =>
      throw (Error (str "Repository not found or not accessible: " ++ showNat status))
  | Ok repoData =>
  treeResponse <- await FetchTree (fetchTree env) ;;
  match treeResponse with
  | NotOk status => throw (Error (str "Failed to fetch file tree: " ++ showNat status))
  | Ok tree => analyzeTree analysisId repoData tree
  end end end end end.

(** The [catch] of the handler, lines 540-545. *)
Definition failure (error : Exn) : M Response :=
  json 500 [("error"%string,
             JString match error with
                     | Error message => message
                     | NonError => str "Unknown error"
                     end)].

(** [app.post('/analyze-repository', ...)], lines 106-546. *)
Definition handler : M Response := tryCatch analyzeRepository failure.

(** One request against a table [store0]. *)
Definition run (store0 : list Analysis.t) : Outcome Response * State :=
  handler (initialState store0).

End Pipeline.

(** ** The addresses asked of the repository host (lines 149-152, 164,
    243 and 314) *)

(** [s.replace(pattern, replacement)] for a string pattern and a
    replacement without [$]: the first occurrence is replaced. *)
Fixpoint replaceString (s pattern replacement : jsstring) : jsstring :=
  if startsWith s pattern then replacement ++ skipn (length pattern) s
  else match s with
       | [] => []
       | c :: s' => c :: replaceString s' pattern replacement
       end.

(** An array element in a template literal: a missing one prints as
    [undefined]. *)
Definition template (x : option jsstring) : jsstring :=
  match x with
  | Some s => s
  | None => str "undefined"
  end.

Definition repoPath (repoUrl : jsstring) : jsstring :=
  replaceString repoUrl (str "https://github.com/") [].

(** [const [owner, repo] = repoPath.split('/')] *)
Definition owner (repoUrl : jsstring) : option jsstring :=
  nth_error (split1 (ch "/") (repoPath repoUrl)) 0.

Definition repo (repoUrl : jsstring) : option jsstring :=
  nth_error (split1 (ch "/") (repoPath repoUrl)) 1.

Definition repoApiUrl (repoUrl : jsstring) : jsstring :=
  str "https://api.github.com/repos/" ++ template (owner repoUrl) ++ str "/"
  ++ template (repo repoUrl).

Definition treeUrl (repoUrl default_branch : jsstring) : jsstring :=
  str "https://api.github.com/repos/" ++ template (owner repoUrl) ++ str "/"
  ++ template (repo repoUrl) ++ str "/git/trees/" ++ default_branch
  ++ str "?recursive=1".

Definition fileUrl (repoUrl path : jsstring) : jsstring :=
  str "https://api.github.com/repos/" ++ template (owner repoUrl) ++ str "/"
  ++ template (repo repoUrl) ++ str "/contents/" ++ path.

(** ** The aggregate score as the specification words it *)

Definition clamp (lo hi x : Z) : Z := Z.max lo (Z.min hi x).

(** The average of the scores, as a float. *)
Definition mean (double : Q -> Q) (scores : list Z) : Q :=
  double (fold_left (fun sum score => double (sum + inject_Z score)) scores 0
          / inject_Z (Z.of_nat (length scores)))%Q.

Definition spec_aggregateScore (double : Q -> Q) (scores : list Z)
    (patterns frameworks issues : nat) : Z :=
  match scores with
  | [] => 1%Z
  | _ =>
      let architectureBonus :=
        Qmin 2 (double (inject_Z (Z.of_nat patterns) * (5 # 10)))%Q in
      let frameworkBonus :=
        Qmin 1 (double (inject_Z (Z.of_nat frameworks) * double (2 # 10)))%Q in
      let securityPenalty :=
        Qmin 2 (double (inject_Z (Z.of_nat issues) * double (3 # 10)))%Q in
      clamp 1 10
        (Math_round (double (double (double (mean double scores + architectureBonus)
                                     + frameworkBonus) - securityPenalty))%Q)
  end.

(** ** Paths as the specification words them *)

(** The components of a path, separated by slashes. *)
Definition components (path : jsstring) : list jsstring := split1 (ch "/") path.

(** The directory segments: every component but the last. *)
Definition directories (path : jsstring) : list jsstring := removelast (components path).

Definition basename (path : jsstring) : jsstring := last (components path) [].

(** The extension of a path: the last dot of its basename and what follows
    it, or nothing when the basename has no dot. *)
Definition extname (path : jsstring) : jsstring :=
  match split1 (ch ".") (basename path) with
  | [] | [_] => []
  | pieces => ch "." :: last pieces []
  end.

Definition memberb (x : jsstring) (l : list jsstring) : bool :=
  existsb (jsstring_eqb x) l.

(** A manifest in the words of the specification: the extension is a
    config extension, or the basename is one of the known names. *)
Definition spec_isManifest (names : list jsstring) (f : GitHubFile.t) : bool :=
  memberb (extname (GitHubFile.path f)) configExtensions
  || memberb (basename (GitHubFile.path f)) names.

(** The exclusion rules of the classifier. *)
Definition excluded (f : GitHubFile.t) : Prop :=
  GitHubFile.type f <> str "blob"
  \/ In (str "node_modules") (components (GitHubFile.path f))
  \/ In (str ".git") (components (GitHubFile.path f))
  \/ In (str "dist") (directories (GitHubFile.path f))
  \/ In (str "build") (directories (GitHubFile.path f))
  \/ (GitHubFile.size f > sizeCeiling)%Z.

(** ** Definitions that state the properties *)

(** Arithmetic without rounding error meets the contract of [Rounding]. *)
Definition unrounded (x : Q) : Q := x.

Definition vendored : GitHubFile.t :=
  GitHubFile.Make (str "web/node_modules/left-pad/index.js") (str "blob") 512
    (str "https://api.github.com/repos/o/r/git/blobs/1").

Definition appSource : GitHubFile.t :=
  GitHubFile.Make (str "src/app.ts") (str "blob") 2048
    (str "https://api.github.com/repos/o/r/git/blobs/2").

Definition strayModule : GitHubFile.t :=
  GitHubFile.Make (str "src/mygo.mod") (str "blob") 64
    (str "https://api.github.com/repos/o/r/git/blobs/3").

Definition twelveFiles : list GitHubFile.t :=
  List.map (fun n => GitHubFile.Make (str "src/m" ++ showNat n ++ str ".ts")
                       (str "blob") 100 [])
           (seq 0 12).

Definition reviewed (file : GitHubFile.t) (attempts : nat) (s : State) : State :=
  set_trace (fun t => t ++ [ReviewCall (GitHubFile.path file) attempts]) s.

Definition calls (file : GitHubFile.t) (from n : nat) : list Event :=
  List.map (ReviewCall (GitHubFile.path file)) (seq from n).

(** Computations that return normally and touch neither the table, nor
    the trace, nor the list of file insights, nor the language counts. *)
Definition keeps {A} (m : M A) : Prop :=
  forall s, exists a s',
    m s = (Returned a, s')
    /\ store s' = store s /\ trace s' = trace s
    /\ fileInsights s' = fileInsights s /\ languageStats s' = languageStats s.

Definition allInvalid (env : Env) (file : GitHubFile.t) : Prop :=
  forall k text, k < 3 ->
    groq env (GitHubFile.path file) k = Returned (Ok text) ->
    validateResponseFormat (cleanAiResponse text) = false.

Definition threeInvalid (env : Env) (file : GitHubFile.t) : Prop :=
  forall k, k < 3 -> exists text,
    groq env (GitHubFile.path file) k = Returned (Ok text)
    /\ validateResponseFormat (cleanAiResponse text) = false.

(** A computation preserves a property of the state, however it ends. *)
Definition preserves {A} (I : State -> Prop) (m : M A) : Prop :=
  forall s, I s -> I (snd (m s)).

Definition distinct (s : State) : Prop :=
  NoDup (architecturePatterns s) /\ NoDup (frameworks s).

(** The review of the file has text in its section SECURITY REVIEW. *)
Definition hasSecurityReview (insight : FileInsight.t) : bool :=
  match sectionText re_security (FileInsight.analysis insight) with
  | Some _ => true
  | None => false
  end.

Definition securityCount (fileInsights : list FileInsight.t) : nat :=
  length (filter hasSecurityReview fileInsights).

Definition tallied (s : State) : Prop :=
  length (securityIssues s) = securityCount (fileInsights s).

(** Computations that leave both lists as they are. *)
Definition quiet {A} (m : M A) : Prop :=
  forall sec ins, preserves (fun s => securityIssues s = sec /\ fileInsights s = ins) m.

(** Tasks that add an entry exactly when they return an insight with a
    security review. *)
Definition tallies (m : M (option FileInsight.t)) : Prop :=
  forall s,
    fileInsights (snd (m s)) = fileInsights s
    /\ length (securityIssues (snd (m s)))
       = length (securityIssues s)
         + match fst (m s) with
           | Returned (Some r) => securityCount [r]
           | _ => 0
           end.

Fixpoint alphabet (fl : flags) (r : regex) (c : jschar) : bool :=
  match r with
  | Eps | Bol | Eol => false
  | Chr x => N.eqb (canonicalize fl c) (canonicalize fl x)
  | Cls p => p c
  | Seq r1 r2 | Alt r1 r2 => alphabet fl r1 c || alphabet fl r2 c
  | Star r' | LazyStar r' | Group r' | Ahead r' => alphabet fl r' c
  end.

Fixpoint minLen (r : regex) : nat :=
  match r with
  | Chr _ | Cls _ => 1
  | Seq r1 r2 => minLen r1 + minLen r2
  | Alt r1 r2 => Nat.min (minLen r1) (minLen r2)
  | Group r' => minLen r'
  | _ => 0
  end.

Fixpoint noAhead (r : regex) : bool :=
  match r with
  | Seq r1 r2 | Alt r1 r2 => noAhead r1 && noAhead r2
  | Star r' | LazyStar r' | Group r' => noAhead r'
  | Ahead _ => false
  | _ => true
  end.

(** [st'] is [st] moved forward over a segment of at least [n] characters
    of the class [P]; the capture is unchanged or a part of the segment. *)
Definition advances (P : jschar -> bool) (n : nat) (st st' : mstate) : Prop :=
  exists seg,
    after st = seg ++ after st'
    /\ before st' = rev seg ++ before st
    /\ Forall (fun c => P c = true) seg
    /\ n <= length seg
    /\ (cap st' = cap st
        \/ exists s1 g s2, seg = s1 ++ g ++ s2 /\ cap st' = Some g).

(** The run of a global replacement, segment by segment: a character that
    starts no match is copied; an empty match inserts its replacement and
    copies the next character; a match is replaced as a whole. *)
Inductive rewrites (fl : flags) (r : regex) (repl : list rpiece)
  : jsstring -> jsstring -> jsstring -> Prop :=
| rw_end_none b :
    matchAt fl r b [] = None -> rewrites fl r repl b [] []
| rw_end_some b st' :
    matchAt fl r b [] = Some st' -> rewrites fl r repl b [] (expand repl (cap st'))
| rw_copy b c a out :
    matchAt fl r b (c :: a) = None ->
    rewrites fl r repl (c :: b) a out ->
    rewrites fl r repl b (c :: a) (c :: out)
| rw_empty b c a st' out :
    matchAt fl r b (c :: a) = Some st' -> after st' = c :: a ->
    rewrites fl r repl (c :: b) a out ->
    rewrites fl r repl b (c :: a) (expand repl (cap st') ++ c :: out)
| rw_match b seg a st' out :
    matchAt fl r b (seg ++ a) = Some st' -> after st' = a -> seg <> [] ->
    rewrites fl r repl (rev seg ++ b) a out ->
    rewrites fl r repl b (seg ++ a) (expand repl (cap st') ++ out).

Definition textOf (repl : list rpiece) : jsstring :=
  flat_map (fun p => match p with RText s => s | RGroup1 => [] end) repl.

(** A character that no cleaning pattern can consume: not whitespace, not
    a digit, and none of [* # - .]. *)
Definition solid (c : jschar) : bool :=
  negb (isWhiteSpace c || isDigit c || N.eqb c (ch "*") || N.eqb c (ch "#")
        || N.eqb c (ch "-") || N.eqb c (ch ".")).

Definition hyphen : jschar := ch "-".

(** The text has a hyphen right after a solid character. *)
Definition inlineHyphen (s : jsstring) : Prop :=
  exists a1 c a2, s = a1 ++ c :: hyphen :: a2 /\ solid c = true.

Definition isNot (x : jschar) (c : jschar) : Prop := c <> x.

Fixpoint takeWhile (p : jschar -> bool) (s : jsstring) : jsstring :=
  match s with
  | c :: s' => if p c then c :: takeWhile p s' else []
  | [] => []
  end.

Fixpoint dropWhile (p : jschar -> bool) (s : jsstring) : jsstring :=
  match s with
  | c :: s' => if p c then dropWhile p s' else s
  | [] => []
  end.

(** [s] starts with [p], letter case put aside when the flag says so. *)
Fixpoint prefixOf (fl : flags) (s p : jsstring) : bool :=
  match p, s with
  | [], _ => true
  | x :: p', y :: s' =>
      N.eqb (canonicalize fl y) (canonicalize fl x) && prefixOf fl s' p'
  | _ :: _, [] => false
  end.

(** The greedy star of a class, written out: the longest run first, then
    the shorter ones. *)
Fixpoint greedy (p : jschar -> bool) (k : mstate -> option mstate)
    (b a : jsstring) (c : option jsstring) : option mstate :=
  match a with
  | x :: rest =>
      if p x then
        match greedy p k (x :: b) rest c with
        | Some r => Some r
        | None => k (MState b a c)
        end
      else k (MState b a c)
  | [] => k (MState b [] c)
  end.

(** The digits that follow a marker standing at the head of [a]: the
    marker [SCORE:] in any letter case, optional whitespace, and the
    longest run of digits, which must not be empty. *)
Definition scoreHere (a : jsstring) : option jsstring :=
  if prefixOf flags_i a (str "SCORE:") then
    match takeWhile isDigit (dropWhile isWhiteSpace (skipn 6 a)) with
    | [] => None
    | digits => Some digits
    end
  else None.

(** The digits at the first place of the text where [scoreHere] finds some. *)
Fixpoint firstScore (s : jsstring) : option jsstring :=
  match scoreHere s with
  | Some digits => Some digits
  | None =>
      match s with
      | [] => None
      | _ :: rest => firstScore rest
      end
  end.

Definition captured (r : option mstate) : option jsstring :=
  match r with
  | Some st' => Some (match cap st' with Some g => g | None => [] end)
  | None => None
  end.

(** [s] contains [p], letter case put aside. *)
Fixpoint includesCI (s p : jsstring) : bool :=
  prefixOf flags_i s p ||
  match s with
  | [] => false
  | _ :: s' => includesCI s' p
  end.

(** The text behind the first occurrence of a marker, letter case
    respected. *)
Fixpoint afterMarker (marker s : jsstring) : option jsstring :=
  if startsWith s marker then Some (skipn (length marker) s)
  else match s with
       | [] => None
       | _ :: rest => afterMarker marker rest
       end.

(** The score in the words of the specification: the integer that
    follows the marker [SCORE:], clamped; 7 when the marker is absent or
    no integer follows it. *)
Definition spec_fileScore (text : jsstring) : Z :=
  match afterMarker (str "SCORE:") text with
  | Some rest =>
      match takeWhile isDigit (dropWhile isWhiteSpace rest) with
      | [] => 7%Z
      | digits => clamp 1 10 (parseInt digits)
      end
  | None => 7%Z
  end.

Definition lineFeed : string := String (ascii_of_nat 10) EmptyString.

(** A review that passes validation, whose [SCORE:] marker is followed by
    a word, and which gives a number behind [Maintainability Score:]. *)
Definition wordyReview : jsstring :=
  str ("SCORE: high" ++ lineFeed ++
       "SECURITY REVIEW:" ++ lineFeed ++
       "Maintainability Score: 3" ++ lineFeed ++
       "TOP 5 ACTIONABLE RECOMMENDATIONS:" ++ lineFeed ++
       "1. Add tests")%string.

Definition lineStart (b : jsstring) : Prop :=
  match b with
  | [] => True
  | c :: _ => isLineTerminator c = true
  end.

Definition noLeadingSpace (s : jsstring) : Prop :=
  match s with
  | [] => True
  | c :: _ => isWhiteSpace c = false
  end.

Definition isFileEvent (e : Event) : Prop :=
  match e with
  | FetchContent _ | ReviewCall _ _ => True
  | _ => False
  end.

Definition logged (ev : Event) (s : State) : State :=
  set_trace (fun t => t ++ [ev]) s.

Definition zeroFilesBody (id : jsstring) : list (string * Json) :=
  [("success", JTrue); ("analysisId", JString id);
   ("score", JNumber 1); ("filesAnalyzed", JNumber 0)]%string.

Definition fullBody (id : jsstring) (score : Z) (files languages frameworks issues : nat)
  : list (string * Json) :=
  [("success", JTrue); ("analysisId", JString id); ("score", JNumber score);
   ("filesAnalyzed", JNumber (Z.of_nat files));
   ("languages", JNumber (Z.of_nat languages));
   ("frameworks", JNumber (Z.of_nat frameworks));
   ("securityIssues", JNumber (Z.of_nat issues))]%string.

Definition noFilesSummary : jsstring :=
  str "Repository analyzed but no supported files found.".

Definition afterInsert (e : Event) : Prop :=
  match e with
  | AuthGetUser | InsertAnalysis _ => False
  | _ => True
  end.

Definition errorBody (resp : Response) : Prop :=
  statusCode resp = 500 /\ exists message, body resp = [("error"%string, JString message)].

(** The three ways a request ends. *)
Inductive Ended (env : Env) (store0 : list Analysis.t) (resp : Response) (s : State)
  : Prop :=
| ended_without_record :
    errorBody resp ->
    store s = store0 ->
    trace s = [] \/ trace s = [AuthGetUser]
    \/ trace s = [AuthGetUser; InsertAnalysis pending] ->
    Ended env store0 resp s
| ended_failed user_id id evs :
    getUser env = Returned (Some user_id) ->
    insertAnalysis env = Returned (inl id) ->
    errorBody resp ->
    store s = store0 ++ [pendingRow id user_id (repoUrl env)] ->
    trace s = AuthGetUser :: InsertAnalysis pending :: evs ->
    Forall afterInsert evs ->
    Ended env store0 resp s
| ended_completed user_id id evs score summary sugg tech ins tree :
    getUser env = Returned (Some user_id) ->
    insertAnalysis env = Returned (inl id) ->
    fetchTree env = Returned (Ok tree) ->
    statusCode resp = 200 ->
    store s = updateRow id (completeRow score summary sugg tech ins)
                (store0 ++ [pendingRow id user_id (repoUrl env)]) ->
    (1 <= score <= 10)%Z ->
    trace s = AuthGetUser :: InsertAnalysis pending :: evs ->
    Forall afterInsert evs ->
    (allFiles tree = [] /\ score = 1%Z /\ body resp = zeroFilesBody id)
    \/ (allFiles tree <> []
        /\ exists files languages frameworks issues,
             body resp = fullBody id score files languages frameworks issues) ->
    Ended env store0 resp s.

Definition isFetch (e : Event) : Prop :=
  match e with
  | FetchRepo | FetchTree | FetchContent _ | ReviewCall _ _ => True
  | _ => False
  end.

(** A row carries a score exactly when it is completed, and then one
    between 1 and 10. *)
Definition rowScored (row : Analysis.t) : Prop :=
  match Analysis.status row with
  | completed => exists z, Analysis.stack_score row = Some z /\ (1 <= z <= 10)%Z
  | pending | failed => Analysis.stack_score row = None
  end.

Definition stateAtTree (env : Env) (store0 : list Analysis.t) (id user_id : jsstring)
  : State :=
  logged FetchTree
    (logged FetchRepo
       (set_store (fun rows => rows ++ [pendingRow id user_id (repoUrl env)])
          (logged (InsertAnalysis pending)
             (logged AuthGetUser (initialState store0))))).

Definition zeroFilesPrefix (repoData : GitHubRepoResponse) : jsstring :=
  str "Comprehensive analysis of " ++ name repoData
  ++ str ": Analyzed 0 files across 0 languages. ".

Definition blob (path : string) (size : Z) : GitHubFile.t :=
  GitHubFile.Make (str path) (str "blob") size
    (str "https://api.github.com/repos/acme/widgets/git/blobs/0").

(** A reviewer answer in the required format whose text has a
    hyphenated word. *)
Definition hyphenatedReview : jsstring :=
  str ("SCORE: 8" ++ lineFeed ++
       "FILE PURPOSE: A well-known helper" ++ lineFeed ++
       "TOP 5 ACTIONABLE RECOMMENDATIONS:" ++ lineFeed ++
       "1. Add tests")%string.

Definition sampleEnv (repo : Outcome (HttpResponse GitHubRepoResponse))
    (tree : list GitHubFile.t) : Env := {|
  double := unrounded;
  repoUrl := str "https://github.com/acme/widgets";
  authorization := Some (str "Bearer token");
  getUser := Returned (Some (str "user-1"));
  insertAnalysis := Returned (inl (str "analysis-1"));
  updateAnalysis := Returned None;
  fetchRepo := repo;
  fetchTree := Returned (Ok tree);
  fetchContent := fun _ => Returned (Ok (Some (str "aW1wb3J0IHggZnJvbSAneSc=")));
  decodeBase64 := fun _ => str "import x from 'y'";
  packageJsonDeps := fun _ => None;
  GROQ_API_KEY := Some (str "gsk");
  groq := fun _ _ => Returned (Ok hyphenatedReview)
|}.

Definition widgets : Outcome (HttpResponse GitHubRepoResponse) :=
  Returned (Ok {| name := str "widgets"; default_branch := str "main" |}).

(** A repository with one code file. *)
Definition codeEnv : Env := sampleEnv widgets [blob "src/app.ts" 2048].
(** A repository with documentation only. *)
Definition docsEnv : Env := sampleEnv widgets [blob "README.md" 900].
(** A repository with no supported file. *)
Definition bareEnv : Env :=
  sampleEnv widgets [blob "LICENSE" 1071; blob "assets/logo.png" 5120].
(** A repository that the host does not find. *)
Definition missingEnv : Env := sampleEnv (Returned (NotOk 404)) [].

Definition keys (resp : Response) : list string := List.map fst (body resp).

Definition insight (name : string) (score : Z) : FileInsight.t :=
  FileInsight.Make (str name) (str "SCORE") score 100 (str "ts").

Definition twoReviews : list FileInsight.t :=
  [insight "src/a.ts" 7; insight "src/b.ts" 9].

(** A reviewer answer in the required format, with a security review. *)
Definition plainReview : jsstring :=
  str ("SCORE: 8" ++ lineFeed ++
       "SECURITY REVIEW: The input is not checked" ++ lineFeed ++
       "TOP 5 ACTIONABLE RECOMMENDATIONS:" ++ lineFeed ++
       "1. Add tests")%string.

(** The repository of [codeEnv] with a reviewer that answers in the
    required format. *)
Definition reviewedEnv : Env := {|
  double := unrounded;
  repoUrl := repoUrl codeEnv;
  authorization := authorization codeEnv;
  getUser := getUser codeEnv;
  insertAnalysis := insertAnalysis codeEnv;
  updateAnalysis := updateAnalysis codeEnv;
  fetchRepo := fetchRepo codeEnv;
  fetchTree := fetchTree codeEnv;
  fetchContent := fetchContent codeEnv;
  decodeBase64 := decodeBase64 codeEnv;
  packageJsonDeps := packageJsonDeps codeEnv;
  GROQ_API_KEY := GROQ_API_KEY codeEnv;
  groq := fun _ _ => Returned (Ok plainReview)
|}.

Definition github (path : jsstring) : jsstring := str "https://github.com/" ++ path.

Definition apiRepos (owner repo : jsstring) : jsstring :=
  str "https://api.github.com/repos/" ++ owner ++ str "/" ++ repo.

(** [file.path.split('.').pop() || 'unknown'], line 322. *)
Definition fileExtension (path : jsstring) : jsstring :=
  match pop (split1 (ch ".") path) with
  | [] => str "unknown"
  | e => e
  end.

(** The code extensions without their dot. *)
Definition languageNames : list jsstring := List.map (@tl jschar) codeExtensions.

Definition dotted (x : jsstring) : bool :=
  match x with
  | c :: e => N.eqb c (ch ".") && negb (existsb (N.eqb (ch ".")) e)
              && negb (Nat.eqb (length e) 0)
  | [] => false
  end.

Definition appModule : GitHubFile.t :=
  GitHubFile.Make (str "src/app.module.ts") (str "blob") 2048 (str "u").

Definition apart (xs ys : list jsstring) : bool :=
  forallb (fun x => forallb (fun y => negb (endsWith x y) && negb (endsWith y x)) ys) xs.

(** The relevant names that neither group takes. *)
Definition unreadNames : list jsstring :=
  List.map str [".md"; ".rst"; "Dockerfile"]%string.

Definition readme : GitHubFile.t :=
  GitHubFile.Make (str "docs/README.md") (str "blob") 900 (str "u").

(** The exit of the retry loop and the number of reviewer calls it makes,
    read off the answers of the reviewer. *)
Fixpoint loopRun (env : Env) (path : jsstring) (fuel attempts : nat)
    (analysis : jsstring) (validResponse : bool) : Outcome LoopExit * nat :=
  match fuel with
  | 0 => (Returned (Some (attempts, analysis, validResponse)), 0)
  | S fuel' =>
      if (attempts <? 3) && negb validResponse then
        match groq env path attempts with
        | Returned (Ok content) =>
            let (exit, n) :=
              loopRun env path fuel' (attempts + 1) (cleanAiResponse content)
                (validateResponseFormat (cleanAiResponse content)) in
            (exit, S n)
        | Returned (NotOk _) => (Returned None, 1)
        | Thrown e => (Thrown e, 1)
        end
      else (Returned (Some (attempts, analysis, validResponse)), 0)
  end.

(** The content of a code file was received and is not empty. *)
Definition received (env : Env) (file : GitHubFile.t) : option jsstring :=
  match fetchContent env (GitHubFile.path file) with
  | Returned (Ok (Some (c :: content))) => Some (decodeBase64 env (c :: content))
  | _ => None
  end.

Definition hasKey (env : Env) : bool :=
  match GROQ_API_KEY env with
  | Some (_ :: _) => true
  | _ => false
  end.

(** The validated review of a file, if the task gets one. *)
Definition reviewOf (env : Env) (file : GitHubFile.t) : option jsstring :=
  match received env file with
  | Some _ =>
      if hasKey env then
        match fst (loopRun env (GitHubFile.path file) 3 0 [] false) with
        | Returned (Some (_, analysis, true)) => Some analysis
        | _ => None
        end
      else None
  | None => None
  end.

(** The number of reviewer calls of the task of a file. *)
Definition reviewCalls (env : Env) (file : GitHubFile.t) : nat :=
  match received env file with
  | Some _ =>
      if hasKey env then snd (loopRun env (GitHubFile.path file) 3 0 [] false) else 0
  | None => 0
  end.

Definition insightOf (env : Env) (file : GitHubFile.t) : option FileInsight.t :=
  match reviewOf env file with
  | Some analysis =>
      Some (FileInsight.Make (GitHubFile.path file) analysis (fileScore analysis)
              (GitHubFile.size file) (fileExtension (GitHubFile.path file)))
  | None => None
  end.

(** The external calls of the task of a code file. *)
Definition fileEvents (env : Env) (file : GitHubFile.t) : list Event :=
  FetchContent (GitHubFile.path file) :: calls file 0 (reviewCalls env file).

(** The language counts after the tasks of a list of code files. *)
Definition countLanguages (env : Env) (files : list GitHubFile.t)
    (stats : list (jsstring * nat)) : list (jsstring * nat) :=
  fold_left
    (fun stats file =>
       match received env file with
       | Some _ => bump (fileExtension (GitHubFile.path file)) stats
       | None => stats
       end) files stats.

(** The state of a run after the loop over the config files and the loop
    over the batches. *)
Definition stateAtScore (env : Env) (store0 : list Analysis.t) (id user_id : jsstring)
    (tree : list GitHubFile.t) : State :=
  snd (forEach (batches (codeFiles (allFiles tree))) (processBatch env)
         (snd (forEach (configFiles (allFiles tree)) (analyzeConfig env)
                 (stateAtTree env store0 id user_id)))).

(** The row that a run which reaches the scoring writes. *)
Definition scoredRow (env : Env) (repoData : GitHubRepoResponse) (sm : State)
  : Analysis.t -> Analysis.t :=
  completeRow
    (computeFinalScore (double env) (fileInsights sm) (architecturePatterns sm)
       (frameworks sm) (securityIssues sm))
    (makeSummary env repoData sm)
    (slice (suggestions sm) 0 10 ++ slice (codeQualityIssues sm) 0 5
     ++ slice (securityIssues sm) 0 5)
    (TechStack.Make (languageStats sm) (frameworks sm) (tools sm)
       (Some (architecturePatterns sm)) (Some (length (securityIssues sm)))
       (Some (length (codeQualityIssues sm))))
    (fileInsights sm).

(** The answer of the [catch] of the handler to an exception. *)
Definition failureResponse (e : Exn) : Response :=
  {| statusCode := 500;
     body := [("error"%string,
               JString match e with
                       | Error message => message
                       | NonError => str "Unknown error"
                       end)] |}.

Definition hasHeader (env : Env) : Prop :=
  exists c h, authorization env = Some (c :: h).

(** The mandatory stage at which a run fails: the exception that reaches
    the [catch], the external calls made until then, and whether the row
    of the run exists. *)
Inductive StageFails (env : Env) : Exn -> list Event -> bool -> Prop :=
| fails_no_header :
    authorization env = None \/ authorization env = Some [] ->
    StageFails env (Error (str "Authorization header missing")) [] false
| fails_getUser_throws e :
    hasHeader env -> getUser env = Thrown e ->
    StageFails env e [AuthGetUser] false
| fails_no_user :
    hasHeader env -> getUser env = Returned None ->
    StageFails env (Error (str "User not authenticated")) [AuthGetUser] false
| fails_insert_throws user_id e :
    hasHeader env -> getUser env = Returned (Some user_id) ->
    insertAnalysis env = Thrown e ->
    StageFails env e [AuthGetUser; InsertAnalysis pending] false
| fails_insert_error user_id message :
    hasHeader env -> getUser env = Returned (Some user_id) ->
    insertAnalysis env = Returned (inr message) ->
    StageFails env (Error (str "Failed to create analysis record: " ++ message))
      [AuthGetUser; InsertAnalysis pending] false
| fails_repo_throws user_id id e :
    hasHeader env -> getUser env = Returned (Some user_id) ->
    insertAnalysis env = Returned (inl id) ->
    fetchRepo env = Thrown e ->
    StageFails env e [AuthGetUser; InsertAnalysis pending; FetchRepo] true
| fails_repo_status user_id id status :
    hasHeader env -> getUser env = Returned (Some user_id) ->
    insertAnalysis env = Returned (inl id) ->
    fetchRepo env = Returned (NotOk status) ->
    StageFails env
      (Error (str "Repository not found or not accessible: " ++ showNat status))
      [AuthGetUser; InsertAnalysis pending; FetchRepo] true
| fails_tree_throws user_id id repoData e :
    hasHeader env -> getUser env = Returned (Some user_id) ->
    insertAnalysis env = Returned (inl id) ->
    fetchRepo env = Returned (Ok repoData) ->
    fetchTree env = Thrown e ->
    StageFails env e [AuthGetUser; InsertAnalysis pending; FetchRepo; FetchTree] true
| fails_tree_status user_id id repoData status :
    hasHeader env -> getUser env = Returned (Some user_id) ->
    insertAnalysis env = Returned (inl id) ->
    fetchRepo env = Returned (Ok repoData) ->
    fetchTree env = Returned (NotOk status) ->
    StageFails env (Error (str "Failed to fetch file tree: " ++ showNat status))
      [AuthGetUser; InsertAnalysis pending; FetchRepo; FetchTree] true.

(** The rows of the table after a failure: the row of the run, if it was
    created, is the last one and is pending. *)
Definition rowsAfterFailure (env : Env) (store0 : list Analysis.t) (created : bool)
    (rows : list Analysis.t) : Prop :=
  if created then
    exists user_id id,
      getUser env = Returned (Some user_id)
      /\ insertAnalysis env = Returned (inl id)
      /\ rows = store0 ++ [pendingRow id user_id (repoUrl env)]
  else rows = store0.

(** The mandatory stages succeed, the tree has a relevant file and the
    final update is accepted. *)
Definition Scored (env : Env) (user_id id : jsstring) (repoData : GitHubRepoResponse)
    (tree : list GitHubFile.t) : Prop :=
  hasHeader env
  /\ getUser env = Returned (Some user_id)
  /\ insertAnalysis env = Returned (inl id)
  /\ fetchRepo env = Returned (Ok repoData)
  /\ fetchTree env = Returned (Ok tree)
  /\ updateAnalysis env = Returned None
  /\ allFiles tree <> [].

(** The task of the file gets a validated review. *)
Definition isReviewed (env : Env) (file : GitHubFile.t) : bool :=
  match reviewOf env file with
  | Some _ => true
  | None => false
  end.

(** The mandatory stages up to the tree succeed. *)
Definition ReachesTree (env : Env) (user_id id : jsstring)
    (repoData : GitHubRepoResponse) (tree : list GitHubFile.t) : Prop :=
  hasHeader env
  /\ getUser env = Returned (Some user_id)
  /\ insertAnalysis env = Returned (inl id)
  /\ fetchRepo env = Returned (Ok repoData)
  /\ fetchTree env = Returned (Ok tree).

(** The exception that the final update raises, if any. *)
Definition updateFailure (env : Env) : option Exn :=
  match updateAnalysis env with
  | Returned None => None
  | Returned (Some message) =>
      Some (Error (str "Failed to update analysis: " ++ message))
  | Thrown e => Some e
  end.

Definition isContentFetch (e : Event) : bool :=
  match e with FetchContent _ => true | _ => false end.

Definition isReviewCall (e : Event) : bool :=
  match e with ReviewCall _ _ => true | _ => false end.

Definition count (p : Event -> bool) (events : list Event) : nat :=
  length (filter p events).

(** The answers of attempts 0 to [k - 1] are texts that fail the
    validation. *)
Definition invalidUntil (env : Env) (file : GitHubFile.t) (k : nat) : Prop :=
  forall j, j < k -> exists text,
    groq env (GitHubFile.path file) j = Returned (Ok text)
    /\ validateResponseFormat (cleanAiResponse text) = false.

(** A reviewer whose first answer has a hyphen and whose second is in the
    required format. *)
Definition secondTryEnv : Env := {|
  double := unrounded;
  repoUrl := repoUrl codeEnv;
  authorization := authorization codeEnv;
  getUser := getUser codeEnv;
  insertAnalysis := insertAnalysis codeEnv;
  updateAnalysis := updateAnalysis codeEnv;
  fetchRepo := fetchRepo codeEnv;
  fetchTree := fetchTree codeEnv;
  fetchContent := fetchContent codeEnv;
  decodeBase64 := decodeBase64 codeEnv;
  packageJsonDeps := packageJsonDeps codeEnv;
  GROQ_API_KEY := GROQ_API_KEY codeEnv;
  groq := fun _ attempt =>
            match attempt with
            | 0 => Returned (Ok hyphenatedReview)
            | _ => Returned (Ok plainReview)
            end
|}.

(** The final update is refused. *)
Definition refusedEnv : Env := {|
  double := unrounded;
  repoUrl := repoUrl codeEnv;
  authorization := authorization codeEnv;
  getUser := getUser codeEnv;
  insertAnalysis := insertAnalysis codeEnv;
  updateAnalysis := Returned (Some (str "row level security"));
  fetchRepo := fetchRepo codeEnv;
  fetchTree := fetchTree codeEnv;
  fetchContent := fetchContent codeEnv;
  decodeBase64 := decodeBase64 codeEnv;
  packageJsonDeps := packageJsonDeps codeEnv;
  GROQ_API_KEY := GROQ_API_KEY codeEnv;
  groq := fun _ _ => Returned (Ok plainReview)
|}.

(** The environment of [reviewedEnv] without the key of the reviewer. *)
Definition keylessEnv : Env := {|
  double := unrounded;
  repoUrl := repoUrl codeEnv;
  authorization := authorization codeEnv;
  getUser := getUser codeEnv;
  insertAnalysis := insertAnalysis codeEnv;
  updateAnalysis := updateAnalysis codeEnv;
  fetchRepo := fetchRepo codeEnv;
  fetchTree := fetchTree codeEnv;
  fetchContent := fetchContent codeEnv;
  decodeBase64 := decodeBase64 codeEnv;
  packageJsonDeps := packageJsonDeps codeEnv;
  GROQ_API_KEY := None;
  groq := fun _ _ => Returned (Ok plainReview)
|}.

Definition keysOf (stats : list (jsstring * nat)) : list jsstring := List.map fst stats.

(** [stats[k] || 0] *)
Definition lookup (k : jsstring) (stats : list (jsstring * nat)) : nat :=
  match find (fun kv => jsstring_eqb (fst kv) k) stats with
  | Some (_, n) => n
  | None => 0
  end.

(** The code files with extension [k] whose content was received. *)
Definition receivedWith (env : Env) (k : jsstring) (files : list GitHubFile.t)
  : list GitHubFile.t :=
  filter (fun f => match received env f with
                   | Some _ => jsstring_eqb (fileExtension (GitHubFile.path f)) k
                   | None => false
                   end) files.

(** The computation adds to a list of the state the members of [D], and
    nothing else, however it ends. *)
Definition contributes {A} (proj : State -> list jsstring) (m : M A)
    (D : list jsstring) : Prop :=
  forall s x, In x (proj (snd (m s))) <-> In x (proj s) \/ In x D.

(** A detector pass: it returns, and what it adds does not depend on the
    state it starts from. *)
Definition detector (proj : State -> list jsstring) (m : M unit) : Prop :=
  (forall s, fst (m s) = Returned tt)
  /\ contributes proj m (proj (snd (m (initialState [])))).

(** What the pass over the content of a config file, and over the
    content of a code file, finds for a list of the state. *)
Definition configFinds (proj : State -> list jsstring) (env : Env) (file : GitHubFile.t)
  : list jsstring :=
  match received env file with
  | Some content => proj (snd (detectFromConfig env file content (initialState [])))
  | None => []
  end.

Definition codeFinds (proj : State -> list jsstring) (env : Env) (file : GitHubFile.t)
  : list jsstring :=
  match received env file with
  | Some content => proj (snd (detectFromCode content (initialState [])))
  | None => []
  end.

(** The names whose files the config pass reads. *)
Definition detectorNames : list jsstring :=
  List.map str ["package.json"; "requirements.txt"; "Cargo.toml"; "go.mod"]%string.

Definition composeFile : GitHubFile.t :=
  GitHubFile.Make (str "docker-compose.yml") (str "blob") 300 (str "u").

(** At the head of [a] stands one of the other headers, in any letter
    case, or the text ends there. *)
Definition headerAhead (others : list jsstring) (a : jsstring) : bool :=
  existsb (prefixOf flags_i a) others
  || match a with [] => true | _ :: _ => false end.

(** The text up to the next of the other headers, or to the end. *)
Fixpoint untilHeader (others : list jsstring) (a : jsstring) : jsstring :=
  if headerAhead others a then []
  else match a with
       | [] => []
       | c :: rest => c :: untilHeader others rest
       end.

(** The section whose header stands at the head of [a]. *)
Definition sectionHere (header : jsstring) (others : list jsstring) (a : jsstring)
  : option jsstring :=
  if prefixOf flags_i a header
  then Some (untilHeader others (dropWhile isWhiteSpace (skipn (length header) a)))
  else None.

(** The section at the first place of the text where its header stands. *)
Fixpoint firstSection (header : jsstring) (others : list jsstring) (s : jsstring)
  : option jsstring :=
  match sectionHere header others s with
  | Some g => Some g
  | None =>
      match s with
      | [] => None
      | _ :: rest => firstSection header others rest
      end
  end.

(** The look-ahead of a section pattern. *)
Definition aheadOf (others : list string) : regex :=
  fold_right (fun h r => Alt (lit (str h)) r) Eol others.

(** The lazy star of [[^]], written out: the continuation is tried at
    each place in turn, the nearest first. *)
Fixpoint lazyScan (k : mstate -> option mstate) (b a : jsstring) (c : option jsstring)
  : option mstate :=
  match k (MState b a c) with
  | Some r => Some r
  | None =>
      match a with
      | [] => None
      | x :: rest => lazyScan k (x :: b) rest c
      end
  end.

(** The continuation of the group of a section pattern. *)
Definition atHeader (others : list string) (st0 : mstate) (st' : mstate)
  : option mstate :=
  matcher flags_i (Ahead (aheadOf others))
    (MState (before st') (after st') (Some (consumed st0 st'))) Some.

(** The entry that a review adds to a list of findings for a section. *)
Definition finding (section : regex) (insight : FileInsight.t) : list jsstring :=
  match sectionText section (FileInsight.analysis insight) with
  | Some t => [FileInsight.file insight ++ str ": " ++ t]
  | None => []
  end.

Definition findings (section : regex) (result : option FileInsight.t) : list jsstring :=
  match result with
  | Some insight => finding section insight
  | None => []
  end.

(** * Properties *)

(** ** Score aggregation *)

Lemma Math_round_comp (x y : Q) : (x == y)%Q -> Math_round x = Math_round y.
Proof.
  intros E. unfold Math_round. apply Qfloor_comp. rewrite E. reflexivity.
Qed.

(** [Math.round] returns an integer at distance at most one half. *)
Lemma Math_round_nearest (x : Q) :
  (inject_Z (Math_round x) - (1 # 2) <= x)%Q /\ (x < inject_Z (Math_round x) + (1 # 2))%Q.
Proof.
  unfold Math_round.
  pose proof (Qfloor_le (x + (1 # 2))) as Hl.
  pose proof (Qlt_floor (x + (1 # 2))) as Hu.
  rewrite inject_Z_plus in Hu. change (inject_Z 1) with 1%Q in Hu.
  split; lra.
Qed.

Lemma Math_round_between (x : Q) (n : Z) :
  (inject_Z n - (1 # 2) <= x)%Q -> (x < inject_Z n + (1 # 2))%Q -> Math_round x = n.
Proof.
  intros Hl Hu. unfold Math_round.
  pose proof (Qfloor_le (x + (1 # 2))) as Fl.
  pose proof (Qlt_floor (x + (1 # 2))) as Fu.
  rewrite inject_Z_plus in Fu. change (inject_Z 1) with 1%Q in Fu.
  assert (H1 : (inject_Z (Qfloor (x + (1 # 2))) < inject_Z (n + 1))%Q).
  { rewrite inject_Z_plus. change (inject_Z 1) with 1%Q. lra. }
  assert (H2 : (inject_Z n < inject_Z (Qfloor (x + (1 # 2)) + 1))%Q).
  { rewrite inject_Z_plus. change (inject_Z 1) with 1%Q. lra. }
  rewrite <- Zlt_Qlt in H1, H2. lia.
Qed.

Lemma computeFinalScore_range (double : Q -> Q) fileInsights patterns frameworks issues :
  (1 <= computeFinalScore double fileInsights patterns frameworks issues <= 10)%Z.
Proof. unfold computeFinalScore. destruct (0 <? length fileInsights); lia. Qed.

Lemma fold_scores (double : Q -> Q) (l : list FileInsight.t) (a : Q) :
  fold_left (fun sum file => double (sum + inject_Z (FileInsight.score file))%Q) l a
  = fold_left (fun sum score => double (sum + inject_Z score)%Q)
      (List.map FileInsight.score l) a.
Proof.
  revert a. induction l as [|f l IH]; intros a; cbn [fold_left List.map];
    [reflexivity|apply IH].
Qed.

Lemma avgCodeQuality_mean (double : Q -> Q) (l : list FileInsight.t) :
  avgCodeQuality double l = mean double (List.map FileInsight.score l).
Proof.
  unfold avgCodeQuality, mean, lengthQ. now rewrite fold_scores, length_map.
Qed.

Lemma normal_between (x : Q) : ((1 # 8) <= x)%Q -> (x <= 16)%Q -> normal x.
Proof.
  intros Hl Hu. split.
  - apply Qle_trans with (1 # 8)%Q; [|exact Hl].
    apply Qle_bool_imp_le. vm_compute. reflexivity.
  - apply Qle_trans with 16%Q; [exact Hu|].
    apply Qle_bool_imp_le. vm_compute. reflexivity.
Qed.

Lemma normal_pos (x : Q) : normal x -> (0 < x)%Q.
Proof.
  intros [Hl _]. apply Qlt_le_trans with (Qpower 2 (-1022)); [|exact Hl].
  reflexivity.
Qed.

Section Binary64.

Variable double : Q -> Q.
Hypothesis rounding : Rounding double.

Lemma double_of_zero (x : Q) : (x == 0)%Q -> (double x == 0)%Q.
Proof.
  intros E. rewrite (double_proper rounding E). apply (double_zero rounding).
Qed.

Lemma double_near (x : Q) :
  ((1 # 8) <= x)%Q -> (x <= 16)%Q ->
  (x * (1 - epsilon) <= double x)%Q /\ (double x <= x * (1 + epsilon))%Q.
Proof.
  intros Hl Hu. apply (double_error rounding). now apply normal_between.
Qed.

(** The guard [size > 0 ? Math.min(cap, size * rate) : 0] is the plain
    minimum. *)
Lemma bonus_guard (cap rate : Q) (l : list jsstring) :
  (0 <= cap)%Q ->
  ((if 0 <? length l then Qmin cap (double (lengthQ l * rate)) else 0)
   == Qmin cap (double (inject_Z (Z.of_nat (length l)) * rate)))%Q.
Proof.
  intros Hcap. unfold lengthQ. destruct l as [|x l]; cbn [length Nat.ltb Nat.leb].
  - assert (E : (double (inject_Z (Z.of_nat 0) * rate) == 0)%Q).
    { apply double_of_zero. cbn. ring. }
    destruct (Q.min_spec cap (double (inject_Z (Z.of_nat 0) * rate))) as [[H ->]|[H ->]];
      lra.
  - reflexivity.
Qed.

Lemma formula_refines (fileInsights : list FileInsight.t)
    (architecturePatterns frameworks securityIssues : list jsstring) :
  computeFinalScore double fileInsights architecturePatterns frameworks securityIssues
  = spec_aggregateScore double (List.map FileInsight.score fileInsights)
      (length architecturePatterns) (length frameworks) (length securityIssues).
Proof.
  unfold computeFinalScore, spec_aggregateScore, clamp.
  destruct fileInsights as [|f fileInsights]; [reflexivity|].
  change (0 <? length (f :: fileInsights)) with true. cbv iota zeta.
  cbn [List.map]. f_equal. f_equal. apply Math_round_comp.
  rewrite avgCodeQuality_mean. cbn [List.map].
  apply (double_proper rounding). unfold Qminus. apply Qplus_comp.
  - apply (double_proper rounding). apply Qplus_comp.
    + apply (double_proper rounding). apply Qplus_comp; [reflexivity|].
      apply bonus_guard. lra.
    + apply bonus_guard. lra.
  - apply Qopp_comp. apply bonus_guard. lra.
Qed.

Lemma scenario_nine (fileInsights : list FileInsight.t)
    (architecturePatterns frameworks securityIssues : list jsstring) :
  fileInsights <> [] ->
  (avgCodeQuality double fileInsights == 8)%Q ->
  length architecturePatterns = 2 -> length frameworks = 1 ->
  length securityIssues = 0 ->
  computeFinalScore double fileInsights architecturePatterns frameworks securityIssues
  = 9%Z.
Proof.
  intros Hne Havg Ha Hf Hs. unfold computeFinalScore.
  destruct fileInsights as [|f fileInsights]; [congruence|].
  change (0 <? length (f :: fileInsights)) with true. cbv iota zeta.
  unfold lengthQ. rewrite Ha, Hf, Hs. cbn [Nat.ltb Nat.leb].
  change (inject_Z (Z.of_nat 2)) with 2%Q. change (inject_Z (Z.of_nat 1)) with 1%Q.
  set (avg := avgCodeQuality double (f :: fileInsights)) in *.
  set (a0 := double (2 * (5 # 10))).
  set (c2 := double (2 # 10)).
  set (f0 := double (1 * c2)).
  set (ab := Qmin 2 a0). set (fb := Qmin 1 f0).
  set (s1 := double (avg + ab)). set (s2 := double (s1 + fb)).
  set (x := double (s2 - 0)).
  assert (Heps : (epsilon == 1 # 9007199254740992)%Q) by reflexivity.
  assert (Ha0 : (1 - epsilon <= a0 <= 1 + epsilon)%Q).
  { destruct (@double_near (2 * (5 # 10))) as [L U]; [lra|lra|].
    fold a0 in L, U. lra. }
  assert (Hc2 : ((2 # 10) * (1 - epsilon) <= c2 <= (2 # 10) * (1 + epsilon))%Q).
  { destruct (@double_near (2 # 10)) as [L U]; [lra|lra|]. fold c2 in L, U. lra. }
  assert (Hf0 : (c2 * (1 - epsilon) <= f0 <= c2 * (1 + epsilon))%Q).
  { destruct (@double_near (1 * c2)) as [L U]; [lra|lra|].
    fold f0 in L, U. lra. }
  assert (Hab : (ab == a0)%Q).
  { subst ab. destruct (Q.min_spec 2 a0) as [[H ->]|[_ ->]]; lra. }
  assert (Hfb : (fb == f0)%Q).
  { subst fb. destruct (Q.min_spec 1 f0) as [[H ->]|[_ ->]]; [|reflexivity].
    exfalso. nra. }
  assert (Hf0' : ((19 # 100) <= f0 <= (21 # 100))%Q) by nra.
  assert (Hs1 : ((avg + ab) * (1 - epsilon) <= s1 <= (avg + ab) * (1 + epsilon))%Q).
  { destruct (@double_near (avg + ab)) as [L U]; [lra|lra|]. fold s1 in L, U. lra. }
  assert (Hs1' : ((899 # 100) <= s1 <= (901 # 100))%Q) by nra.
  assert (Hs2 : ((s1 + fb) * (1 - epsilon) <= s2 <= (s1 + fb) * (1 + epsilon))%Q).
  { destruct (@double_near (s1 + fb)) as [L U]; [lra|lra|]. fold s2 in L, U. lra. }
  assert (Hs2' : ((917 # 100) <= s2 <= (923 # 100))%Q) by nra.
  assert (Hx : ((s2 - 0) * (1 - epsilon) <= x <= (s2 - 0) * (1 + epsilon))%Q).
  { destruct (@double_near (s2 - 0)) as [L U]; [lra|lra|]. fold x in L, U. lra. }
  assert (Hx' : ((91 # 10) <= x <= (93 # 10))%Q) by nra.
  rewrite (@Math_round_between x 9); [reflexivity| |];
    change (inject_Z 9) with 9%Q; lra.
Qed.

End Binary64.

Lemma unrounded_rounding : Rounding unrounded.
Proof.
  assert (Heps : (epsilon == 1 # 9007199254740992)%Q) by reflexivity.
  split; unfold unrounded.
  - intros x y E. exact E.
  - reflexivity.
  - intros x Hx. apply normal_pos in Hx. split; nra.
Qed.

(** ** Strings *)

Lemma jsstring_eqb_eq (a b : jsstring) : jsstring_eqb a b = true <-> a = b.
Proof.
  revert b. induction a as [|x a IH]; intros [|y b]; simpl; split;
    try congruence; try reflexivity.
  - intros H. apply andb_true_iff in H. destruct H as [H1 H2].
    apply N.eqb_eq in H1. apply IH in H2. congruence.
  - intros H. injection H as -> ->. rewrite N.eqb_refl. simpl. now apply IH.
Qed.

Lemma startsWith_nil (s : jsstring) : startsWith s [] = true.
Proof. now destruct s. Qed.

Lemma startsWith_app (p s : jsstring) : startsWith (p ++ s) p = true.
Proof.
  induction p as [|x p IH]; simpl; [apply startsWith_nil|].
  now rewrite N.eqb_refl.
Qed.

Lemma startsWith_inv (s p : jsstring) :
  startsWith s p = true -> exists rest, s = p ++ rest.
Proof.
  revert s. induction p as [|x p IH]; intros s H; simpl in *.
  - now exists s.
  - destruct s as [|y s]; [discriminate|].
    apply andb_true_iff in H. destruct H as [H1 H2].
    apply N.eqb_eq in H1. subst y. destruct (IH _ H2) as [rest ->].
    now exists rest.
Qed.

Lemma includes_here (s p : jsstring) : startsWith s p = true -> includes s p = true.
Proof. intros H. destruct s; simpl in *; rewrite H; reflexivity. Qed.

Lemma includes_cons (c : jschar) (s p : jsstring) :
  includes s p = true -> includes (c :: s) p = true.
Proof. intros H. simpl. rewrite H. apply orb_true_r. Qed.

Lemma includes_app (a s p : jsstring) :
  includes s p = true -> includes (a ++ s) p = true.
Proof. induction a; simpl app; auto using includes_cons. Qed.

Lemma includes_unfold (c : jschar) (s p : jsstring) :
  includes (c :: s) p = startsWith (c :: s) p || includes s p.
Proof. reflexivity. Qed.

Lemma includes_inv (s p : jsstring) :
  includes s p = true -> exists a b, s = a ++ p ++ b.
Proof.
  induction s as [|c s IH]; intros H.
  - simpl in H. rewrite orb_false_r in H. destruct p; [|discriminate].
    now exists [], [].
  - rewrite includes_unfold in H. apply orb_true_iff in H. destruct H as [H|H].
    + destruct (startsWith_inv H) as [b ->]. now exists [], b.
    + destruct (IH H) as (a & b & ->). now exists (c :: a), b.
Qed.

(** The first piece of a split is a prefix of the text, and when it is not
    the last piece the separator follows it. *)
Lemma split1_head (sep : jschar) (s : jsstring) :
  exists piece pieces,
    split1 sep s = piece :: pieces
    /\ startsWith s piece = true
    /\ (pieces <> [] -> startsWith s (piece ++ [sep]) = true).
Proof.
  induction s as [|c s (piece & pieces & E & Hp & Hs)]; simpl.
  - exists [], []. repeat split; congruence.
  - destruct (N.eqb_spec c sep) as [->|Hc].
    + exists [], (split1 sep s). repeat split. intros _. simpl.
      rewrite N.eqb_refl. apply startsWith_nil.
    + rewrite E. exists (c :: piece), pieces. repeat split; simpl;
        rewrite N.eqb_refl; simpl; auto.
Qed.

Lemma split1_includes (sep : jschar) (s seg : jsstring) :
  In seg (split1 sep s) -> includes s seg = true.
Proof.
  induction s as [|c s IH]; simpl split1; intros H.
  - destruct H as [<-|[]]. reflexivity.
  - destruct (N.eqb_spec c sep) as [->|Hc].
    + destruct H as [<-|H]; [reflexivity|]. auto using includes_cons.
    + destruct (split1_head sep s) as (piece & pieces & E & Hp & _).
      rewrite E in H, IH. destruct H as [<-|H].
      * apply includes_here. simpl. now rewrite N.eqb_refl.
      * apply includes_cons, IH. now right.
Qed.

Lemma split1_directory_includes (sep : jschar) (s seg : jsstring) :
  In seg (removelast (split1 sep s)) -> includes s (seg ++ [sep]) = true.
Proof.
  induction s as [|c s IH]; cbn [split1]; intros H.
  - destruct H.
  - destruct (split1_head sep s) as (piece & pieces & E & Hp & Hs).
    rewrite E in *.
    destruct (N.eqb_spec c sep) as [->|Hc].
    + change (removelast ([] :: piece :: pieces))
        with ([] :: removelast (piece :: pieces)) in H.
      destruct H as [<-|H].
      * apply includes_here. simpl. rewrite N.eqb_refl. apply startsWith_nil.
      * auto using includes_cons.
    + destruct pieces as [|q pieces]; [destruct H|].
      change (removelast ((c :: piece) :: q :: pieces))
        with ((c :: piece) :: removelast (q :: pieces)) in H.
      destruct H as [<-|H].
      * apply includes_here. simpl. rewrite N.eqb_refl. simpl.
        apply Hs. discriminate.
      * apply includes_cons, IH.
        change (removelast (piece :: q :: pieces))
          with (piece :: removelast (q :: pieces)). now right.
Qed.

(** ** FileClassifier *)

Lemma isRelevant_inv (f : GitHubFile.t) :
  isRelevant f = true ->
  GitHubFile.type f = str "blob"
  /\ includes (GitHubFile.path f) (str "node_modules") = false
  /\ includes (GitHubFile.path f) (str ".git") = false
  /\ includes (GitHubFile.path f) (str "dist/") = false
  /\ includes (GitHubFile.path f) (str "build/") = false
  /\ (GitHubFile.size f <= sizeCeiling)%Z
  /\ (someEndsWith (codeExtensions ++ configExtensions ++ docExtensions)
        (GitHubFile.path f)
      || someEndsWith relevantNames (GitHubFile.path f)) = true.
Proof.
  unfold isRelevant. intros H.
  destruct (jsstring_eqb (GitHubFile.type f) (str "blob")) eqn:Et;
    [|discriminate]. cbn [negb] in H. apply jsstring_eqb_eq in Et.
  destruct (includes (GitHubFile.path f) (str "node_modules")); [discriminate|].
  destruct (includes (GitHubFile.path f) (str ".git")); [discriminate|].
  destruct (includes (GitHubFile.path f) (str "dist/")); [discriminate|].
  destruct (includes (GitHubFile.path f) (str "build/")); [discriminate|].
  cbn [orb] in H.
  destruct (Z.gtb_spec (GitHubFile.size f) sizeCeiling); [discriminate|].
  repeat split; auto.
Qed.

Lemma excluded_not_relevant (f : GitHubFile.t) : excluded f -> isRelevant f = false.
Proof.
  intros H. destruct (isRelevant f) eqn:E; [exfalso|reflexivity].
  apply isRelevant_inv in E.
  destruct E as (Ht & Hn & Hg & Hd & Hb & Hs & _).
  destruct H as [H|[H|[H|[H|[H|H]]]]].
  - contradiction.
  - apply split1_includes in H. congruence.
  - apply split1_includes in H. congruence.
  - apply split1_directory_includes in H.
    change (str "dist" ++ [ch "/"]) with (str "dist/") in H. congruence.
  - apply split1_directory_includes in H.
    change (str "build" ++ [ch "/"]) with (str "build/") in H. congruence.
  - lia.
Qed.

(** C5. An entry that is not a blob, or whose path has a [node_modules],
    [.git], [dist] or [build] directory segment, or whose size exceeds
    100000 bytes, is in neither the code list nor the manifest list; and
    the two lists are functions of the input list that classify every
    entry on its own, whatever the entries around it. *)
Theorem classifier_exclusions (tree : list GitHubFile.t) (f : GitHubFile.t) :
  (excluded f ->
   ~ In f (codeFiles (allFiles tree)) /\ ~ In f (configFiles (allFiles tree)))
  /\ (forall tree1 tree2,
        codeFiles (allFiles (tree1 ++ tree2))
        = codeFiles (allFiles tree1) ++ codeFiles (allFiles tree2)
        /\ configFiles (allFiles (tree1 ++ tree2))
           = configFiles (allFiles tree1) ++ configFiles (allFiles tree2))
  /\ (forall tree', tree' = tree ->
        codeFiles (allFiles tree') = codeFiles (allFiles tree)
        /\ configFiles (allFiles tree') = configFiles (allFiles tree)).
Proof.
  split; [|split].
  - intros Hex. apply excluded_not_relevant in Hex.
    unfold codeFiles, configFiles, allFiles.
    split; intros H; apply filter_In in H; destruct H as [H _];
      apply filter_In in H; destruct H as [_ H]; congruence.
  - intros tree1 tree2. unfold codeFiles, configFiles, allFiles.
    now rewrite !filter_app.
  - intros tree' ->. split; reflexivity.
Qed.

Lemma classifier_exclusions_witness :
  ~ In vendored (codeFiles (allFiles [appSource; vendored]))
  /\ ~ In vendored (configFiles (allFiles [appSource; vendored])).
Proof.
  apply (classifier_exclusions [appSource; vendored] vendored).
  right. left. vm_compute. auto.
Defined.

(** ** Manifests *)

Lemma someEndsWith_incl (l1 l2 : list jsstring) (p : jsstring) :
  incl l1 l2 -> someEndsWith l1 p = true -> someEndsWith l2 p = true.
Proof.
  unfold someEndsWith. intros Hi H. apply existsb_exists in H.
  destruct H as (x & Hx & E). apply existsb_exists. exists x. auto.
Qed.

Lemma manifestNames_relevant : incl manifestNames relevantNames.
Proof.
  intros x H. unfold manifestNames, relevantNames in *. simpl in *.
  intuition.
Qed.

Lemma isConfig_relevant_extension (f : GitHubFile.t) :
  isConfig f = true ->
  (someEndsWith (codeExtensions ++ configExtensions ++ docExtensions)
     (GitHubFile.path f)
   || someEndsWith relevantNames (GitHubFile.path f)) = true.
Proof.
  unfold isConfig. intros H. apply orb_true_iff in H. apply orb_true_iff.
  destruct H as [H|H].
  - left. revert H. apply someEndsWith_incl. intros x Hx.
    apply in_or_app. right. apply in_or_app. now left.
  - right. revert H. apply someEndsWith_incl, manifestNames_relevant.
Qed.

(** C8 (as amended). An entry of the tree is in the manifest list exactly
    when it passes the exclusion rules (blob, no excluded substring in the
    path, size at most 100000) and its path ends with one of the config
    extensions or with one of the seven manifest names; the name is
    compared as a suffix of the path, not as the basename. *)
Theorem manifest_by_suffix (tree : list GitHubFile.t) (f : GitHubFile.t) :
  In f (configFiles (allFiles tree))
  <-> In f tree
      /\ GitHubFile.type f = str "blob"
      /\ includes (GitHubFile.path f) (str "node_modules") = false
      /\ includes (GitHubFile.path f) (str ".git") = false
      /\ includes (GitHubFile.path f) (str "dist/") = false
      /\ includes (GitHubFile.path f) (str "build/") = false
      /\ (GitHubFile.size f <= sizeCeiling)%Z
      /\ (someEndsWith configExtensions (GitHubFile.path f) = true
          \/ someEndsWith manifestNames (GitHubFile.path f) = true).
Proof.
  unfold configFiles, allFiles. rewrite !filter_In. split.
  - intros [[Hin Hrel] Hc]. apply isRelevant_inv in Hrel.
    destruct Hrel as (Ht & Hn & Hg & Hd & Hb & Hs & _).
    unfold isConfig in Hc. apply orb_true_iff in Hc. tauto.
  - intros (Hin & Ht & Hn & Hg & Hd & Hb & Hs & Hc).
    assert (Hcfg : isConfig f = true).
    { unfold isConfig. apply orb_true_iff. exact Hc. }
    split; [split|]; auto.
    unfold isRelevant. rewrite Ht. change (jsstring_eqb (str "blob") (str "blob")) with true.
    cbn [negb]. rewrite Hn, Hg, Hd, Hb. cbn [orb].
    destruct (Z.gtb_spec (GitHubFile.size f) sizeCeiling); [lia|].
    now apply isConfig_relevant_extension.
Qed.

(** C8 as stated fails: [src/mygo.mod] has the extension [.mod] and the
    basename [mygo.mod], neither of them listed, and is a manifest all the
    same; and [foopackage.json] passes the name test of the source. *)
Lemma manifest_by_basename_counterexample :
  In strayModule (configFiles (allFiles [strayModule]))
  /\ extname (GitHubFile.path strayModule) = str ".mod"
  /\ basename (GitHubFile.path strayModule) = str "mygo.mod"
  /\ spec_isManifest manifestNames strayModule = false
  /\ spec_isManifest relevantNames strayModule = false
  /\ someEndsWith manifestNames (str "foopackage.json") = true
  /\ basename (str "foopackage.json") <> str "package.json".
Proof.
  repeat split; try (vm_compute; auto; fail).
  vm_compute. discriminate.
Qed.

(** ** Batching *)

Lemma batchesFrom_step (l : list GitHubFile.t) (i : nat) :
  batchesFrom l i
  = if i <? length l
    then slice l i (i + batchSize) :: batchesFrom l (i + batchSize)
    else [].
Proof.
  rewrite batchesFrom_equation_1. 
  destruct (lt_dec i (length l)) as [H|H]; simpl.
  - apply Nat.ltb_lt in H. now rewrite H.
  - apply Nat.ltb_nlt in H. now rewrite H.
Qed.

Lemma slice_batch (l : list GitHubFile.t) (i : nat) :
  slice l i (i + batchSize) = firstn batchSize (skipn i l).
Proof. unfold slice. f_equal. lia. Qed.

Lemma batchesFrom_concat (k : nat) :
  forall (l : list GitHubFile.t) (i : nat),
    length l - i <= k -> concat (batchesFrom l i) = skipn i l.
Proof.
  induction k as [|k IH]; intros l i Hk; rewrite batchesFrom_step;
    destruct (Nat.ltb_spec i (length l)) as [Hi|Hi];
    try lia; try (now rewrite skipn_all2).
  cbn [concat]. rewrite IH by (unfold batchSize; lia).
  rewrite slice_batch, Nat.add_comm, <- skipn_skipn.
  apply firstn_skipn.
Qed.

Lemma batchesFrom_length (k : nat) :
  forall (l : list GitHubFile.t) (i : nat),
    length l - i <= k ->
    length (batchesFrom l i) = (length l - i + 9) / 10.
Proof.
  induction k as [|k IH]; intros l i Hk; rewrite batchesFrom_step;
    destruct (Nat.ltb_spec i (length l)) as [Hi|Hi]; try lia.
  - replace (length l - i) with 0 by lia. reflexivity.
  - cbn [length]. rewrite IH by (unfold batchSize; lia). unfold batchSize.
    destruct (Nat.le_gt_cases 10 (length l - i)) as [Hge|Hlt].
    + replace (length l - i + 9) with ((length l - (i + 10) + 9) + 1 * 10) by lia.
      rewrite Nat.div_add by lia. lia.
    + replace (length l - (i + 10)) with 0 by lia.
      change ((0 + 9) / 10) with 0.
      apply Nat.div_unique with (r := length l - i - 1); lia.
  - replace (length l - i) with 0 by lia. reflexivity.
Qed.

Lemma batchesFrom_nth (k : nat) :
  forall (l : list GitHubFile.t) (i : nat) (b : list GitHubFile.t),
    nth_error (batchesFrom l i) k = Some b ->
    b = firstn batchSize (skipn (i + batchSize * k) l)
    /\ i + batchSize * k < length l.
Proof.
  induction k as [|k IH]; intros l i b; rewrite batchesFrom_step;
    destruct (Nat.ltb_spec i (length l)) as [Hi|Hi]; cbn [nth_error];
    try discriminate.
  - intros [= <-]. rewrite slice_batch, Nat.mul_0_r, Nat.add_0_r. auto.
  - intros H. apply IH in H.
    replace (i + batchSize * S k) with (i + batchSize + batchSize * k) by lia.
    exact H.
Qed.

(** A per-file task never throws: its [catch] absorbs every exception. *)
Lemma analyzeFile_returns (env : Env) (file : GitHubFile.t) (s : State) :
  exists r s', analyzeFile env file s = (Returned r, s').
Proof.
  unfold analyzeFile, tryCatch.
  match goal with |- context [match ?m s with _ => _ end] => destruct (m s) as [[r|e] s'] end.
  - now exists r, s'.
  - now exists None, s'.
Qed.

Lemma mapM_analyzeFile_returns (env : Env) (batch : list GitHubFile.t) :
  forall s, exists rs s', mapM (analyzeFile env) batch s = (Returned rs, s').
Proof.
  induction batch as [|f batch IH]; intros s; cbn [mapM].
  - now exists [], s.
  - unfold bind at 1. destruct (analyzeFile_returns env f s) as (r & s1 & ->).
    unfold bind at 1. destruct (IH s1) as (rs & s2 & ->).
    now exists (r :: rs), s2.
Qed.

Lemma processBatch_returns (env : Env) (batch : list GitHubFile.t) (s : State) :
  exists s', processBatch env batch s = (Returned tt, s').
Proof.
  unfold processBatch, bind.
  destruct (mapM_analyzeFile_returns env batch s) as (rs & s1 & ->).
  unfold modify. eauto.
Qed.



(** ** The retry loop *)

Lemma reviewLoop_step (env : Env) (file : GitHubFile.t) (attempts : nat)
    (analysis : jsstring) (validResponse : bool) (s : State) :
  reviewLoop env file attempts analysis validResponse s
  = if (attempts <? 3) && negb validResponse then
      match groq env (GitHubFile.path file) attempts with
      | Returned (Ok content) =>
          reviewLoop env file (attempts + 1) (cleanAiResponse content)
            (validateResponseFormat (cleanAiResponse content))
            (reviewed file attempts s)
      | Returned (NotOk _) => (Returned None, reviewed file attempts s)
      | Thrown e => (Thrown e, reviewed file attempts s)
      end
    else (Returned (Some (attempts, analysis, validResponse)), s).
Proof.
  rewrite reviewLoop_equation_1.
  destruct (lt_dec attempts 3) as [H|H]; simpl.
  - apply Nat.ltb_lt in H. rewrite H. destruct validResponse; reflexivity.
  - apply Nat.ltb_nlt in H. rewrite H. reflexivity.
Qed.

Lemma set_trace_nil (s : State) : set_trace (fun t => t ++ []) s = s.
Proof. destruct s. unfold set_trace. simpl. now rewrite app_nil_r. Qed.

Lemma reviewed_calls (file : GitHubFile.t) (a n : nat) (s : State) :
  set_trace (fun t => t ++ calls file (a + 1) n) (reviewed file a s)
  = set_trace (fun t => t ++ calls file a (S n)) s.
Proof.
  destruct s. unfold reviewed, set_trace, calls. simpl.
  rewrite <- app_assoc, Nat.add_1_r. reflexivity.
Qed.

(** What the loop does from any value of its counter: it makes [n] calls,
    [attempts + n] being at most three, and changes nothing else; and
    when every answer it can get is invalid it does not leave with a valid
    response. *)
Lemma reviewLoop_spec (env : Env) (file : GitHubFile.t) (d : nat) :
  forall attempts analysis validResponse s,
    3 - attempts <= d ->
    exists n out,
      reviewLoop env file attempts analysis validResponse s
      = (out, set_trace (fun t => t ++ calls file attempts n) s)
      /\ attempts + n <= Nat.max attempts 3
      /\ ((forall k text, k < 3 ->
             groq env (GitHubFile.path file) k = Returned (Ok text) ->
             validateResponseFormat (cleanAiResponse text) = false) ->
          validResponse = false ->
          forall a an, out <> Returned (Some (a, an, true)))
      /\ ((forall k, k < 3 -> exists text,
             groq env (GitHubFile.path file) k = Returned (Ok text)
             /\ validateResponseFormat (cleanAiResponse text) = false) ->
          validResponse = false -> attempts <= 3 ->
          attempts + n = 3 /\ exists an, out = Returned (Some (3, an, false))).
Proof.
  induction d as [|d IH]; intros attempts analysis validResponse s Hd;
    rewrite reviewLoop_step.
  - replace (attempts <? 3) with false by (symmetry; apply Nat.ltb_ge; lia).
    cbn [andb]. exists 0, (Returned (Some (attempts, analysis, validResponse))).
    unfold calls. cbn [seq List.map]. rewrite set_trace_nil.
    split; [reflexivity|]. split; [lia|]. split.
    + intros _ -> a an. congruence.
    + intros _ -> Ha. assert (attempts = 3) by lia. subst. split; [lia|]. eauto.
  - destruct (Nat.ltb_spec attempts 3) as [Hlt|Hge]; cbn [andb].
    2:{ exists 0, (Returned (Some (attempts, analysis, validResponse))).
        unfold calls. cbn [seq List.map]. rewrite set_trace_nil.
        split; [reflexivity|]. split; [lia|]. split.
        + intros _ -> a an. congruence.
        + intros _ -> Ha. assert (attempts = 3) by lia. subst. split; [lia|]. eauto. }
    destruct validResponse; cbn [negb].
    { exists 0, (Returned (Some (attempts, analysis, true))).
      unfold calls. cbn [seq List.map]. rewrite set_trace_nil.
      repeat split; try lia; intros; discriminate. }
    destruct (groq env (GitHubFile.path file) attempts) as [[content|status]|e] eqn:G.
    + destruct (IH (attempts + 1) (cleanAiResponse content)
                  (validateResponseFormat (cleanAiResponse content))
                  (reviewed file attempts s)) as (n & out & E & Hn & Hinv & Hall);
        [lia|].
      exists (S n), out. rewrite E, reviewed_calls.
      split; [reflexivity|]. split; [lia|]. split.
      * intros Hbad _. apply Hinv; [exact Hbad|]. eapply Hbad; eauto.
      * intros Hbad _ _. destruct (Hbad attempts Hlt) as (text & Gt & Bt).
        rewrite G in Gt. injection Gt as ->.
        destruct (Hall Hbad Bt) as [H3 Hout]; [lia|]. split; [lia|exact Hout].
    + exists 1, (Returned None). unfold calls. cbn [seq List.map].
      split; [reflexivity|]. split; [lia|]. split.
      * intros; discriminate.
      * intros Hbad _ _. destruct (Hbad attempts Hlt) as (text & Gt & _). congruence.
    + exists 1, (Thrown e). unfold calls. cbn [seq List.map].
      split; [reflexivity|]. split; [lia|]. split.
      * intros; discriminate.
      * intros Hbad _ _. destruct (Hbad attempts Hlt) as (text & Gt & _). congruence.
Qed.

Lemma keeps_ret {A} (a : A) : keeps (ret a).
Proof. intros s. exists a, s. auto. Qed.

Lemma keeps_bind {A B} (m : M A) (k : A -> M B) :
  keeps m -> (forall a, keeps (k a)) -> keeps (bind m k).
Proof.
  intros Hm Hk s. destruct (Hm s) as (a & s1 & E1 & S1 & T1 & F1 & L1).
  destruct (Hk a s1) as (b & s2 & E2 & S2 & T2 & F2 & L2).
  exists b, s2. unfold bind. rewrite E1, E2. repeat split; congruence.
Qed.

Lemma keeps_when (b : bool) (m : M unit) : keeps m -> keeps (when b m).
Proof. destruct b; simpl; auto using keeps_ret. Qed.

Lemma keeps_forEach {A} (l : list A) (body : A -> M unit) :
  (forall x, keeps (body x)) -> keeps (forEach l body).
Proof.
  intros H. induction l; cbn [forEach]; auto using keeps_ret, keeps_bind.
Qed.

Lemma keeps_modify (f : State -> State) :
  (forall s, store (f s) = store s /\ trace (f s) = trace s
             /\ fileInsights (f s) = fileInsights s
             /\ languageStats (f s) = languageStats s) ->
  keeps (modify f).
Proof. intros H s. exists tt, (f s). split; [reflexivity|apply H]. Qed.

Ltac keeps_tac :=
  repeat first
    [ apply keeps_ret
    | apply keeps_bind; [|intros ?]
    | apply keeps_when
    | apply keeps_forEach; intros ?
    | apply keeps_modify; intros []; cbn; auto
    | match goal with |- keeps (match ?x with _ => _ end) => destruct x end ].

Lemma keeps_addFramework (x : string) : keeps (addFramework x).
Proof. unfold addFramework. keeps_tac. Qed.
Lemma keeps_addTool (x : string) : keeps (addTool x).
Proof. unfold addTool. keeps_tac. Qed.
Lemma keeps_addPattern (x : string) : keeps (addPattern x).
Proof. unfold addPattern. keeps_tac. Qed.

Lemma keeps_detectFromCode (content : jsstring) : keeps (detectFromCode content).
Proof.
  unfold detectFromCode.
  repeat first [ apply keeps_bind; [|intros ?] | apply keeps_when
               | apply keeps_addFramework | apply keeps_addPattern ].
Qed.

Lemma keeps_detectFromConfig (env : Env) (file : GitHubFile.t) (content : jsstring) :
  keeps (detectFromConfig env file content).
Proof.
  unfold detectFromConfig.
  repeat first [ apply keeps_bind; [|intros ?] | apply keeps_when
               | apply keeps_addFramework | apply keeps_addTool
               | apply keeps_forEach; intros ? | apply keeps_ret
               | match goal with |- keeps (match ?x with _ => _ end) => destruct x end ].
Qed.

Lemma keeps_recordReview (file : GitHubFile.t) (ext analysis : jsstring) :
  exists r, forall s, exists s',
    recordReview file ext analysis s = (Returned (Some r), s')
    /\ store s' = store s /\ trace s' = trace s /\ fileInsights s' = fileInsights s
    /\ languageStats s' = languageStats s
    /\ (1 <= FileInsight.score r <= 10)%Z.
Proof.
  eexists. intros s. unfold recordReview.
  set (m1 := match sectionText re_quality analysis with
             | Some t => _ | None => _ end).
  set (m2 := match sectionText re_security analysis with
             | Some t => _ | None => _ end).
  set (m3 := match sectionText re_recommendations analysis with
             | Some t => _ | None => _ end).
  assert (K1 : keeps m1) by (subst m1; keeps_tac).
  assert (K2 : keeps m2) by (subst m2; keeps_tac).
  assert (K3 : keeps m3) by (subst m3; keeps_tac).
  destruct (K1 s) as ([] & s1 & E1 & S1 & T1 & F1 & L1).
  destruct (K2 s1) as ([] & s2 & E2 & S2 & T2 & F2 & L2).
  destruct (K3 s2) as ([] & s3 & E3 & S3 & T3 & F3 & L3).
  exists s3. unfold bind. rewrite E1, E2, E3. unfold ret.
  split; [reflexivity|]. repeat split; try congruence; cbn [FileInsight.score].
  - unfold fileScore. destruct (match1 flags_i re_score analysis); lia.
  - unfold fileScore. destruct (match1 flags_i re_score analysis); lia.
Qed.

Lemma analyzeFile_spec (env : Env) (file : GitHubFile.t) (s : State) :
  exists r s' n,
    analyzeFile env file s = (Returned r, s')
    /\ store s' = store s
    /\ fileInsights s' = fileInsights s
    /\ n <= 3
    /\ trace s' = trace s ++ FetchContent (GitHubFile.path file) :: calls file 0 n
    /\ (allInvalid env file -> r = None)
    /\ (forall fi, r = Some fi -> (1 <= FileInsight.score fi <= 10)%Z).
Proof.
  unfold analyzeFile, tryCatch. unfold bind at 1. unfold await.
  set (s0 := set_trace (fun t => t ++ [FetchContent (GitHubFile.path file)]) s).
  assert (S0 : store s0 = store s) by (destruct s; reflexivity).
  assert (F0 : fileInsights s0 = fileInsights s) by (destruct s; reflexivity).
  assert (T0 : trace s0 = trace s ++ FetchContent (GitHubFile.path file) :: calls file 0 0)
    by (destruct s; reflexivity).
  assert (Quit : forall e : Exn, exists r s' n,
            (Returned (@None FileInsight.t), s0) = (Returned r, s')
            /\ store s' = store s /\ fileInsights s' = fileInsights s /\ n <= 3
            /\ trace s' = trace s ++ FetchContent (GitHubFile.path file) :: calls file 0 n
            /\ (allInvalid env file -> r = None)
            /\ (forall fi, r = Some fi -> (1 <= FileInsight.score fi <= 10)%Z)).
  { intros _. exists None, s0, 0. repeat split; auto; try lia; discriminate. }
  destruct (fetchContent env (GitHubFile.path file)) as [[[[|c content]|]|status]|e];
    try (apply Quit; exact NonError).
  unfold bind at 1. unfold modify.
  set (s1 := set_languageStats _ s0).
  assert (S1 : store s1 = store s) by (destruct s; reflexivity).
  assert (F1 : fileInsights s1 = fileInsights s) by (destruct s; reflexivity).
  assert (T1 : trace s1 = trace s0) by (destruct s; reflexivity).
  unfold bind at 1.
  destruct (keeps_detectFromCode (decodeBase64 env (c :: content)) s1)
    as ([] & s2 & E2 & S2 & T2 & F2 & L2).
  rewrite E2.
  destruct (GROQ_API_KEY env) as [[|k key]|].
  1,3: exists None, s2, 0; repeat split; try congruence; try lia; discriminate.
  unfold bind at 1.
  destruct (@reviewLoop_spec env file 3 0 [] false s2) as (n & out & E & Hn & Hinv & _);
    [lia|].
  rewrite E. set (s3 := set_trace _ s2).
  assert (S3 : store s3 = store s) by (subst s3; cbn; congruence).
  assert (F3 : fileInsights s3 = fileInsights s) by (subst s3; cbn; congruence).
  assert (T3 : trace s3 = trace s ++ FetchContent (GitHubFile.path file) :: calls file 0 n).
  { subst s3. unfold set_trace. cbn [trace]. rewrite T2, T1, T0.
    unfold calls at 1. cbn [seq List.map].
    rewrite <- app_assoc. reflexivity. }
  destruct out as [[[[a an] [|]]|]|e]; cbn [negb].
  - destruct (keeps_recordReview file
                match pop (split1 (ch ".") (GitHubFile.path file)) with
                | [] => str "unknown"
                | e :: l => e :: l
                end an) as (fi & Hfi).
    destruct (Hfi s3) as (s4 & E4 & S4 & T4 & F4 & L4 & Hscore).
    rewrite E4. exists (Some fi), s4, n.
    split; [reflexivity|]. split; [congruence|]. split; [congruence|].
    split; [lia|]. split; [congruence|]. split.
    + intros Hbad. exfalso. exact (Hinv Hbad eq_refl a an eq_refl).
    + intros fi' [= <-]. lia.
  - exists None, s3, n. repeat split; try congruence; try lia; discriminate.
  - exists None, s3, n. repeat split; try congruence; try lia; discriminate.
  - exists None, s3, n. repeat split; try congruence; try lia; discriminate.
Qed.

Lemma threeInvalid_allInvalid (env : Env) (file : GitHubFile.t) :
  threeInvalid env file -> allInvalid env file.
Proof.
  intros H k text Hk G. destruct (H k Hk) as (text' & G' & B). congruence.
Qed.

Lemma processBatch_single (env : Env) (file : GitHubFile.t) (s : State) :
  allInvalid env file ->
  fileInsights (snd (processBatch env [file] s)) = fileInsights s.
Proof.
  intros Hbad. unfold processBatch. cbn [mapM]. unfold bind.
  destruct (analyzeFile_spec env file s) as (r & s' & n & E & _ & F & _ & _ & Hr & _).
  rewrite E. rewrite (Hr Hbad). unfold ret, modify. cbn. rewrite F.
  apply app_nil_r.
Qed.

(** C3. The retry loop of a code file makes at most three reviewer calls
    and then ends, whatever the answers; after three invalid answers the
    task returns null and the file adds nothing to the file insights. *)
Theorem retry_loop_bounded (env : Env) (file : GitHubFile.t) (s : State) :
  (forall attempts analysis validResponse,
     exists n out,
       reviewLoop env file attempts analysis validResponse s
       = (out, set_trace (fun t => t ++ calls file attempts n) s)
       /\ attempts + n <= Nat.max attempts 3)
  /\ (exists r s' n,
        analyzeFile env file s = (Returned r, s')
        /\ n <= 3
        /\ trace s' = trace s ++ FetchContent (GitHubFile.path file) :: calls file 0 n
        /\ (allInvalid env file -> r = None))
  /\ (threeInvalid env file ->
      (exists analysis,
         reviewLoop env file 0 [] false s
         = (Returned (Some (3, analysis, false)),
            set_trace (fun t => t ++ calls file 0 3) s))
      /\ fst (analyzeFile env file s) = Returned None
      /\ fileInsights (snd (processBatch env [file] s)) = fileInsights s).
Proof.
  split; [|split].
  - intros attempts analysis validResponse.
    destruct (@reviewLoop_spec env file 3 attempts analysis validResponse s)
      as (n & out & E & Hn & _); [lia|].
    exists n, out. auto.
  - destruct (analyzeFile_spec env file s) as (r & s' & n & E & _ & _ & Hn & T & Hr & _).
    exists r, s', n. auto.
  - intros H3. split; [|split].
    + destruct (@reviewLoop_spec env file 3 0 [] false s)
        as (n & out & E & _ & _ & Hall); [lia|].
      destruct (Hall H3 eq_refl) as (Hn & an & ->); [lia|].
      cbn [Nat.add] in Hn. subst n. exists an. exact E.
    + destruct (analyzeFile_spec env file s) as (r & s' & n & E & _ & _ & _ & _ & Hr & _).
      rewrite E. cbn [fst]. f_equal. apply Hr. now apply threeInvalid_allInvalid.
    + apply processBatch_single. now apply threeInvalid_allInvalid.
Qed.

(** ** Invariants of the run *)

Section Preserves.

Variable I : State -> Prop.

Lemma preserves_ret {A} (a : A) : preserves I (ret a).
Proof. intros s H. exact H. Qed.

Lemma preserves_bind {A B} (m : M A) (k : A -> M B) :
  preserves I m -> (forall a, preserves I (k a)) -> preserves I (bind m k).
Proof.
  intros Hm Hk s H. unfold bind. specialize (Hm s H).
  destruct (m s) as [[a|e] s1]; cbn [snd] in *; [now apply Hk|exact Hm].
Qed.

Lemma preserves_tryCatch {A} (m : M A) (h : Exn -> M A) :
  preserves I m -> (forall e, preserves I (h e)) -> preserves I (tryCatch m h).
Proof.
  intros Hm Hh s H. unfold tryCatch. specialize (Hm s H).
  destruct (m s) as [[a|e] s1]; cbn [snd] in *; [exact Hm|now apply Hh].
Qed.

Lemma preserves_when (b : bool) (m : M unit) : preserves I m -> preserves I (when b m).
Proof. destruct b; cbn [when]; auto using preserves_ret. Qed.

Lemma preserves_forEach {A} (l : list A) (body : A -> M unit) :
  (forall x, preserves I (body x)) -> preserves I (forEach l body).
Proof.
  intros H. induction l; cbn [forEach]; auto using preserves_ret, preserves_bind.
Qed.

Lemma preserves_mapM {A B} (f : A -> M B) (l : list A) :
  (forall x, preserves I (f x)) -> preserves I (mapM f l).
Proof.
  intros H. induction l; cbn [mapM]; [apply preserves_ret|].
  apply preserves_bind; [apply H|]. intros y.
  apply preserves_bind; [exact IHl|]. intros ys. apply preserves_ret.
Qed.

Lemma preserves_modify (f : State -> State) :
  (forall s, I s -> I (f s)) -> preserves I (modify f).
Proof. intros H s. apply H. Qed.

Lemma preserves_await {A} (ev : Event) (answer : Outcome A) :
  (forall s, I s -> I (set_trace (fun t => t ++ [ev]) s)) ->
  preserves I (await ev answer).
Proof. intros H s. apply H. Qed.

End Preserves.

(** Properties of the state that the detector, the trace and the lists of
    findings do not disturb. *)
Section Frame.

Variable env : Env.
Variable I : State -> Prop.
Hypothesis Htrace : forall f s, I s -> I (set_trace f s).
Hypothesis Hlanguages : forall f s, I s -> I (set_languageStats f s).
Hypothesis Hframeworks : forall x s, I s -> I (set_frameworks (set_add x) s).
Hypothesis Htools : forall x s, I s -> I (set_tools (set_add x) s).
Hypothesis Hpatterns : forall x s, I s -> I (set_architecturePatterns (set_add x) s).

Lemma preserves_addFramework (x : string) : preserves I (addFramework x).
Proof. apply preserves_modify. intros s. apply Hframeworks. Qed.

Lemma preserves_addTool (x : string) : preserves I (addTool x).
Proof. apply preserves_modify. intros s. apply Htools. Qed.

Lemma preserves_addPattern (x : string) : preserves I (addPattern x).
Proof. apply preserves_modify. intros s. apply Hpatterns. Qed.

Ltac frame :=
  repeat first
    [ apply preserves_ret
    | apply preserves_addFramework
    | apply preserves_addTool
    | apply preserves_addPattern
    | apply preserves_bind; [|intros ?]
    | apply preserves_when
    | apply preserves_forEach; intros ?
    | apply preserves_await; intros ?; apply Htrace
    | match goal with |- preserves _ (match ?x with _ => _ end) => destruct x end ].

Lemma preserves_detectFromCode (content : jsstring) :
  preserves I (detectFromCode content).
Proof. unfold detectFromCode. frame. Qed.

Lemma preserves_detectFromConfig (file : GitHubFile.t) (content : jsstring) :
  preserves I (detectFromConfig env file content).
Proof. unfold detectFromConfig. cbv zeta. frame. Qed.

Lemma preserves_analyzeConfig (file : GitHubFile.t) : preserves I (analyzeConfig env file).
Proof.
  unfold analyzeConfig. apply preserves_tryCatch; [|intros e; apply preserves_ret].
  apply preserves_bind; [apply preserves_await; intros ?; apply Htrace|].
  intros [[[|c content]|]|status]; try apply preserves_ret.
  apply preserves_detectFromConfig.
Qed.

Lemma preserves_reviewLoop (file : GitHubFile.t) (attempts : nat) (analysis : jsstring)
    (validResponse : bool) :
  preserves I (reviewLoop env file attempts analysis validResponse).
Proof.
  intros s H.
  destruct (@reviewLoop_spec env file (3 - attempts) attempts analysis validResponse s
              (le_n _)) as (n & out & -> & _).
  apply Htrace, H.
Qed.

(** The task of a file, given what the recording of its review does. *)
Lemma preserves_analyzeFile (file : GitHubFile.t) :
  (forall ext analysis, preserves I (recordReview file ext analysis)) ->
  preserves I (analyzeFile env file).
Proof.
  intros Hrecord. unfold analyzeFile.
  apply preserves_tryCatch; [|intros e; apply preserves_ret].
  apply preserves_bind; [apply preserves_await; intros ?; apply Htrace|].
  intros [[[|c content]|]|status]; try apply preserves_ret.
  cbv zeta. apply preserves_bind; [apply preserves_modify; intros ?; apply Hlanguages|].
  intros _. apply preserves_bind; [apply preserves_detectFromCode|]. intros _.
  destruct (GROQ_API_KEY env) as [[|k key]|]; try apply preserves_ret.
  apply preserves_bind; [apply preserves_reviewLoop|].
  intros [[[a analysis] [|]]|]; cbn [negb]; try apply preserves_ret.
  apply Hrecord.
Qed.

End Frame.

(** *** The sets of patterns and frameworks hold distinct members *)

Lemma set_add_NoDup (x : jsstring) (l : list jsstring) : NoDup l -> NoDup (set_add x l).
Proof.
  intros H. unfold set_add. destruct (existsb (jsstring_eqb x) l) eqn:E; [exact H|].
  apply NoDup_app; [exact H|repeat constructor; intros []|].
  intros y Hy [<-|[]].
  assert (Ex : existsb (jsstring_eqb x) l = true).
  { apply existsb_exists. exists x. split; [exact Hy|now apply jsstring_eqb_eq]. }
  congruence.
Qed.

Lemma distinct_recordReview (file : GitHubFile.t) (ext analysis : jsstring) :
  preserves distinct (recordReview file ext analysis).
Proof.
  unfold recordReview. cbv zeta.
  repeat first
    [ apply preserves_ret
    | apply preserves_bind; [|intros ?]
    | apply preserves_modify; intros s H; exact H
    | match goal with |- preserves _ (match ?x with _ => _ end) => destruct x end ].
Qed.

Lemma distinct_analyzeFile (env : Env) (file : GitHubFile.t) :
  preserves distinct (analyzeFile env file).
Proof.
  apply preserves_analyzeFile; try (intros f s H; exact H).
  - intros x s [Hp Hf]. split; [exact Hp|]. now apply set_add_NoDup.
  - intros x s [Hp Hf]. split; [|exact Hf]. now apply set_add_NoDup.
  - apply distinct_recordReview.
Qed.

Lemma distinct_analyzeConfig (env : Env) (file : GitHubFile.t) :
  preserves distinct (analyzeConfig env file).
Proof.
  apply preserves_analyzeConfig; try (intros f s H; exact H).
  - intros x s [Hp Hf]. split; [exact Hp|]. now apply set_add_NoDup.
Qed.

Lemma distinct_processBatch (env : Env) (batch : list GitHubFile.t) :
  preserves distinct (processBatch env batch).
Proof.
  unfold processBatch. apply preserves_bind.
  - apply preserves_mapM. intros file. apply distinct_analyzeFile.
  - intros rs. apply preserves_modify. intros s H. exact H.
Qed.

(** *** One entry of [securityIssues] for each insight with a security review *)

Lemma tallies_none : tallies (ret None).
Proof. intros s. cbn. split; [reflexivity|lia]. Qed.

Lemma tallies_bind {A} (m : M A) (k : A -> M (option FileInsight.t)) :
  quiet m -> (forall a, tallies (k a)) -> tallies (bind m k).
Proof.
  intros Hm Hk s. unfold bind.
  destruct (Hm _ _ s (conj eq_refl eq_refl)) as [Hs Hf].
  destruct (m s) as [[a|e] s1]; cbn [fst snd] in *.
  - destruct (Hk a s1) as [Kf Ks]. rewrite Kf, Ks, Hs, Hf. auto.
  - rewrite Hs, Hf. split; [reflexivity|lia].
Qed.

Lemma tallies_tryCatch (m : M (option FileInsight.t)) :
  tallies m -> tallies (tryCatch m (fun _ => ret None)).
Proof.
  intros Hm s. unfold tryCatch. destruct (Hm s) as [Hf Hs].
  destruct (m s) as [[a|e] s1]; cbn [fst snd] in *; auto.
Qed.

Lemma tallies_recordReview (file : GitHubFile.t) (ext analysis : jsstring) :
  tallies (recordReview file ext analysis).
Proof.
  intros s. unfold recordReview, securityCount, hasSecurityReview. cbv zeta.
  unfold bind, modify, ret.
  destruct (sectionText re_quality analysis), (sectionText re_security analysis) eqn:E,
    (sectionText re_recommendations analysis);
    cbn [fst snd filter FileInsight.analysis]; rewrite E;
    cbn [fileInsights securityIssues set_codeQualityIssues set_securityIssues
         set_suggestions length];
    rewrite ?length_app; cbn [length]; split; (reflexivity || lia).
Qed.

Lemma tallies_analyzeFile (env : Env) (file : GitHubFile.t) :
  tallies (analyzeFile env file).
Proof.
  assert (Hawait : forall A ev (answer : Outcome A), quiet (await ev answer)).
  { intros A ev answer sec ins. apply preserves_await. intros s H. exact H. }
  unfold analyzeFile. apply tallies_tryCatch.
  apply tallies_bind; [apply Hawait|].
  intros [[[|c content]|]|status]; try apply tallies_none.
  cbv zeta. apply tallies_bind.
  { intros sec ins. apply preserves_modify. intros s H. exact H. }
  intros _. apply tallies_bind.
  { intros sec ins. apply preserves_detectFromCode; intros x s H; exact H. }
  intros _. destruct (GROQ_API_KEY env) as [[|k key]|]; try apply tallies_none.
  apply tallies_bind.
  { intros sec ins. apply preserves_reviewLoop. intros f s H. exact H. }
  intros [[[a analysis] [|]]|]; cbn [negb]; try apply tallies_none.
  apply tallies_recordReview.
Qed.

Lemma securityCount_app (l1 l2 : list FileInsight.t) :
  securityCount (l1 ++ l2) = securityCount l1 + securityCount l2.
Proof. unfold securityCount. now rewrite filter_app, length_app. Qed.

Lemma mapM_analyzeFile_tallies (env : Env) (batch : list GitHubFile.t) :
  forall s, exists rs s',
    mapM (analyzeFile env) batch s = (Returned rs, s')
    /\ fileInsights s' = fileInsights s
    /\ length (securityIssues s')
       = length (securityIssues s) + securityCount (validResults rs).
Proof.
  induction batch as [|file batch IH]; intros s; cbn [mapM].
  - exists [], s. cbn. split; [reflexivity|]. split; [reflexivity|]. apply plus_n_O.
  - unfold bind at 1. destruct (tallies_analyzeFile env file s) as [Hf Hs].
    destruct (analyzeFile_returns env file s) as (r & s1 & E).
    rewrite E in *. cbn [fst snd] in *. unfold bind at 1.
    destruct (IH s1) as (rs & s2 & E2 & Hf2 & Hs2). rewrite E2. unfold ret.
    exists (r :: rs), s2. split; [reflexivity|]. split; [congruence|].
    rewrite Hs2, Hs. destruct r as [r|]; cbn [validResults].
    + change (r :: validResults rs) with ([r] ++ validResults rs).
      rewrite securityCount_app. lia.
    + lia.
Qed.

Lemma tallied_processBatch (env : Env) (batch : list GitHubFile.t) :
  preserves tallied (processBatch env batch).
Proof.
  intros s H. unfold processBatch, bind.
  destruct (mapM_analyzeFile_tallies env batch s) as (rs & s1 & -> & Hf & Hs).
  unfold modify, tallied in *. cbn [snd set_fileInsights securityIssues fileInsights].
  rewrite securityCount_app, Hf, Hs, H. reflexivity.
Qed.

Lemma tallied_analyzeConfig (env : Env) (file : GitHubFile.t) :
  preserves tallied (analyzeConfig env file).
Proof. apply preserves_analyzeConfig; intros x s H; exact H. Qed.

(** The two loops of the run keep both invariants. *)
Lemma loops_invariant (env : Env) (configFiles : list GitHubFile.t)
    (batches : list (list GitHubFile.t)) (s : State) :
  let sm := snd (forEach batches (processBatch env)
                   (snd (forEach configFiles (analyzeConfig env) s))) in
  (tallied s -> tallied sm) /\ (distinct s -> distinct sm).
Proof.
  cbv zeta. split; intros H.
  - apply preserves_forEach; [intros b; apply tallied_processBatch|].
    apply preserves_forEach; [intros f; apply tallied_analyzeConfig|exact H].
  - apply preserves_forEach; [intros b; apply distinct_processBatch|].
    apply preserves_forEach; [intros f; apply distinct_analyzeConfig|exact H].
Qed.

(** ** The matcher *)

Lemma advances_refl (P : jschar -> bool) (st : mstate) : advances P 0 st st.
Proof. exists []. repeat split; auto. Qed.

Lemma advances_weaken (P Q : jschar -> bool) (n m : nat) (st st' : mstate) :
  (forall c, P c = true -> Q c = true) -> m <= n ->
  advances P n st st' -> advances Q m st st'.
Proof.
  intros HPQ Hmn (seg & Ha & Hb & Hf & Hl & Hc).
  exists seg. repeat split; auto; try lia.
  eapply Forall_impl; [|exact Hf]. auto.
Qed.

Lemma advances_trans (P : jschar -> bool) (n1 n2 : nat) (st st1 st2 : mstate) :
  advances P n1 st st1 -> advances P n2 st1 st2 -> advances P (n1 + n2) st st2.
Proof.
  intros (seg1 & Ha1 & Hb1 & Hf1 & Hl1 & Hc1) (seg2 & Ha2 & Hb2 & Hf2 & Hl2 & Hc2).
  exists (seg1 ++ seg2). rewrite Ha1, Ha2, Hb2, Hb1, rev_app_distr, length_app, !app_assoc.
  repeat split; auto using Forall_app; try lia.
  - apply Forall_app. auto.
  - destruct Hc2 as [Hc2|(s1 & g & s2 & -> & Hc2)].
    + rewrite Hc2. destruct Hc1 as [Hc1|(s1 & g & s2 & -> & Hc1)]; auto.
      right. exists s1, g, (s2 ++ seg2). now rewrite <- !app_assoc.
    + right. exists (seg1 ++ s1), g, s2. now rewrite <- !app_assoc.
Qed.

Lemma advances_one (P : jschar -> bool) (st : mstate) (c : jschar) (rest : jsstring) :
  after st = c :: rest -> P c = true ->
  advances P 1 st (MState (c :: before st) rest (cap st)).
Proof.
  intros Ha Hp. exists [c]. repeat split; auto.
Qed.

Lemma consumed_advances (P : jschar -> bool) (n : nat) (st st' : mstate) :
  advances P n st st' -> after st = consumed st st' ++ after st'.
Proof.
  intros (seg & Ha & _). unfold consumed. rewrite Ha at 2 3.
  rewrite length_app, Nat.add_sub, firstn_app, firstn_all, Nat.sub_diag. cbn [firstn].
  now rewrite app_nil_r.
Qed.

Lemma advances_capture (P : jschar -> bool) (n : nat) (st st' : mstate) :
  advances P n st st' ->
  advances P n st (MState (before st') (after st') (Some (consumed st st'))).
Proof.
  intros H. pose proof (consumed_advances H) as Hc.
  destruct H as (seg & Ha & Hb & Hf & Hl & _).
  assert (Hseg : consumed st st' = seg).
  { rewrite Ha in Hc. now apply app_inv_tail in Hc. }
  exists seg. cbn [after before cap]. repeat split; auto.
  right. exists [], seg, []. rewrite app_nil_r, Hseg. split; reflexivity.
Qed.

(** Whatever the matcher returns went through the continuation at a
    position that the pattern reaches from the start over characters of
    its alphabet. *)
Lemma matcher_sound (fl : flags) (r : regex) :
  noAhead r = true ->
  forall st k x,
    matcher fl r st k = Some x ->
    exists st', advances (alphabet fl r) (minLen r) st st' /\ k st' = Some x.
Proof.
  induction r as [| c | p | r1 IH1 r2 IH2 | r1 IH1 r2 IH2 | r IH | r IH | | | r IH | r IH];
    intros Hs st k x H; cbn [matcher noAhead] in *.
  - exists st. split; [apply advances_refl|exact H].
  - destruct (after st) as [|ch rest] eqn:Ea; [discriminate|].
    destruct (N.eqb_spec (canonicalize fl ch) (canonicalize fl c)) as [E|E];
      [|discriminate].
    eexists. split; [|exact H]. apply advances_one; auto.
    cbn. apply N.eqb_eq. exact E.
  - destruct (after st) as [|ch rest] eqn:Ea; [discriminate|].
    destruct (p ch) eqn:Ep; [|discriminate].
    eexists. split; [|exact H]. apply advances_one; auto.
  - apply andb_true_iff in Hs. destruct Hs as [Hs1 Hs2].
    apply (IH1 Hs1) in H. destruct H as (st1 & A1 & H).
    apply (IH2 Hs2) in H. destruct H as (st2 & A2 & H).
    exists st2. split; [|exact H]. cbn [alphabet minLen].
    apply advances_trans with (st1 := st1).
    + eapply advances_weaken; [| |exact A1]; auto. intros c ->. reflexivity.
    + eapply advances_weaken; [| |exact A2]; auto. intros c ->. apply orb_true_r.
  - apply andb_true_iff in Hs. destruct Hs as [Hs1 Hs2].
    destruct (matcher fl r1 st k) eqn:E1.
    + injection H as ->. apply (IH1 Hs1) in E1. destruct E1 as (st1 & A1 & H).
      exists st1. split; [|exact H]. cbn [alphabet minLen].
      eapply advances_weaken; [| |exact A1]; [|lia]. intros c ->. reflexivity.
    + apply (IH2 Hs2) in H. destruct H as (st2 & A2 & H).
      exists st2. split; [|exact H]. cbn [alphabet minLen].
      eapply advances_weaken; [| |exact A2]; [|lia]. intros c ->. apply orb_true_r.
  - cbn [alphabet minLen]. revert H. generalize (length (after st)). intros n.
    revert st. induction n as [|n IHn]; intros st H; cbn [repeatMatcher] in H.
    + exists st. split; [apply advances_refl|exact H].
    + match type of H with
      | match ?m with _ => _ end = _ => destruct m eqn:E
      end.
      * injection H as ->. apply (IH Hs) in E. destruct E as (st1 & A1 & H).
        destruct (length (after st1) <? length (after st)); [|discriminate].
        apply IHn in H. destruct H as (st2 & A2 & H).
        exists st2. split; [|exact H].
        apply (advances_weaken (P := alphabet fl r) (n := minLen r + 0)); auto; [lia|].
        eapply advances_trans; eauto.
      * exists st. split; [apply advances_refl|exact H].
  - cbn [alphabet minLen]. revert H. generalize (length (after st)). intros n.
    revert st. induction n as [|n IHn]; intros st H; cbn [repeatMatcher] in H.
    + exists st. split; [apply advances_refl|exact H].
    + destruct (k st) eqn:Ek.
      * injection H as ->. exists st. split; [apply advances_refl|exact Ek].
      * apply (IH Hs) in H. destruct H as (st1 & A1 & H).
        destruct (length (after st1) <? length (after st)); [|discriminate].
        apply IHn in H. destruct H as (st2 & A2 & H).
        exists st2. split; [|exact H].
        apply (advances_weaken (P := alphabet fl r) (n := minLen r + 0)); auto; [lia|].
        eapply advances_trans; eauto.
  - destruct (atBol fl st); [|discriminate].
    exists st. split; [apply advances_refl|exact H].
  - destruct (atEol fl st); [|discriminate].
    exists st. split; [apply advances_refl|exact H].
  - apply (IH Hs) in H. destruct H as (st1 & A1 & H).
    eexists. split; [|exact H]. cbn [alphabet minLen].
    now apply advances_capture.
  - discriminate.
Qed.

Lemma matchAt_sound (fl : flags) (r : regex) (b a : jsstring) (st' : mstate) :
  noAhead r = true ->
  matchAt fl r b a = Some st' ->
  exists seg,
    a = seg ++ after st'
    /\ before st' = rev seg ++ b
    /\ Forall (fun c => alphabet fl r c = true) seg
    /\ minLen r <= length seg
    /\ (cap st' = None \/ exists s1 g s2, seg = s1 ++ g ++ s2 /\ cap st' = Some g).
Proof.
  intros Hs H. unfold matchAt in H. apply (matcher_sound Hs) in H.
  destruct H as (st1 & A & [= ->]). exact A.
Qed.

(** ** Global replacement *)

Lemma replaceFrom_skip (fl : flags) (r : regex) (repl : list rpiece) (seg : jsstring) :
  forall b a,
    replaceFrom fl r repl (length seg) b (seg ++ a)
    = replaceFrom fl r repl 0 (rev seg ++ b) a.
Proof.
  induction seg as [|c seg IH]; intros b a.
  - reflexivity.
  - cbn [length app replaceFrom rev]. rewrite IH, <- app_assoc. reflexivity.
Qed.

Lemma replaceFrom_rewrites (fl : flags) (r : regex) (repl : list rpiece) :
  noAhead r = true ->
  forall n b a, length a <= n ->
    rewrites fl r repl b a (replaceFrom fl r repl 0 b a).
Proof.
  intros Hs. induction n as [|n IH]; intros b a Hn.
  - destruct a; [|cbn in Hn; lia]. cbn [replaceFrom].
    destruct (matchAt fl r b []) eqn:E.
    + rewrite app_nil_r. now apply rw_end_some.
    + now apply rw_end_none.
  - destruct a as [|c a]; cbn [replaceFrom].
    + destruct (matchAt fl r b []) eqn:E.
      * rewrite app_nil_r. now apply rw_end_some.
      * now apply rw_end_none.
    + cbn [length] in Hn. destruct (matchAt fl r b (c :: a)) as [st'|] eqn:E.
      * destruct (matchAt_sound Hs E) as (seg & Ha & _).
        destruct seg as [|c' seg].
        -- cbn [app] in Ha. rewrite <- Ha, Nat.sub_diag.
           apply rw_empty; auto. apply IH. lia.
        -- cbn [app] in Ha. injection Ha as <- Ha. subst a.
           replace (length (c :: seg ++ after st') - length (after st'))
             with (S (length seg)) by (cbn [length]; rewrite length_app; lia).
           assert (Hrw : rewrites fl r repl b ((c :: seg) ++ after st')
                           (expand repl (cap st') ++
                            replaceFrom fl r repl 0 (rev (c :: seg) ++ b) (after st'))).
           { apply rw_match; auto; [discriminate|].
             apply IH. rewrite length_app in Hn. lia. }
           cbn [app rev] in Hrw. rewrite <- app_assoc in Hrw. cbn [app] in Hrw.
           rewrite replaceFrom_skip. exact Hrw.
      * apply rw_copy; auto. apply IH. lia.
Qed.

Lemma replace_rewrites (fl : flags) (r : regex) (repl : list rpiece) (s : jsstring) :
  noAhead r = true -> rewrites fl r repl [] s (replace fl r repl s).
Proof. intros Hs. now apply (@replaceFrom_rewrites fl r repl Hs (length s)). Qed.

(** ** What a global replacement keeps *)

Lemma expand_chars (P : jschar -> Prop) (repl : list rpiece) (c : option jsstring) :
  Forall P (textOf repl) ->
  (forall g, c = Some g -> Forall P g) ->
  Forall P (expand repl c).
Proof.
  intros Ht Hc. unfold expand, textOf in *.
  induction repl as [|[s|] repl IH]; cbn [flat_map] in *.
  - constructor.
  - apply Forall_app in Ht. destruct Ht as [Hs Ht]. apply Forall_app. auto.
  - apply Forall_app. split; [|auto]. destruct c; [auto|constructor].
Qed.

Lemma Forall_part {A} (P : A -> Prop) (s1 g s2 : list A) :
  Forall P (s1 ++ g ++ s2) -> Forall P g.
Proof.
  intros H. apply Forall_app in H. destruct H as [_ H].
  apply Forall_app in H. tauto.
Qed.

Lemma match_expand (fl : flags) (r : regex) (repl : list rpiece)
    (P : jschar -> Prop) (b a : jsstring) (st' : mstate) :
  noAhead r = true ->
  matchAt fl r b a = Some st' ->
  Forall P (textOf repl) ->
  (forall seg, a = seg ++ after st' ->
     Forall (fun c => alphabet fl r c = true) seg -> Forall P seg) ->
  Forall P (expand repl (cap st')).
Proof.
  intros Hs E Ht Hseg. destruct (matchAt_sound Hs E) as (seg & Ha & _ & Hf & _ & Hc).
  apply expand_chars; [exact Ht|]. intros g Hg.
  destruct Hc as [Hc|(s1 & g' & s2 & Eseg & Hc)]; [congruence|].
  assert (g' = g) by congruence. subst g'.
  apply Forall_part with (s1 := s1) (s2 := s2). rewrite <- Eseg. auto.
Qed.

Lemma filter_nil {A} (K : A -> bool) (l : list A) :
  Forall (fun c => K c = false) l -> filter K l = [].
Proof.
  induction 1 as [|c l Hc _ IH]; cbn; [reflexivity|]. now rewrite Hc.
Qed.

Lemma app_self_nil {A} (seg l : list A) : l = seg ++ l -> seg = [].
Proof.
  intros H. apply (f_equal (@length _)) in H. rewrite length_app in H.
  destruct seg; [reflexivity|]. cbn [length] in H. lia.
Qed.

(** A replacement whose pattern and replacement text avoid the class [K]
    keeps the characters of [K], in their order. *)
Lemma rewrites_filter (fl : flags) (r : regex) (repl : list rpiece)
    (K : jschar -> bool) :
  noAhead r = true ->
  (forall c, alphabet fl r c = true -> K c = false) ->
  Forall (fun c => K c = false) (textOf repl) ->
  forall b a out, rewrites fl r repl b a out -> filter K out = filter K a.
Proof.
  intros Hs Halph Ht b a out H.
  assert (Hex : forall b a st', matchAt fl r b a = Some st' ->
                  filter K (expand repl (cap st')) = []).
  { intros b0 a0 st' E. apply filter_nil. eapply match_expand; eauto.
    intros seg _ Hf. eapply Forall_impl; [|exact Hf]. auto. }
  induction H as [b E|b st' E|b c a out E H IH|b c a st' out E Ea H IH
                 |b seg a st' out E Ea Hne H IH].
  - reflexivity.
  - now apply Hex in E.
  - cbn [filter]. now rewrite IH.
  - rewrite filter_app, (Hex _ _ _ E). cbn [app filter]. now rewrite IH.
  - rewrite !filter_app, (Hex _ _ _ E), IH. cbn [app].
    destruct (matchAt_sound Hs E) as (seg' & Ha & _ & Hf & _).
    rewrite Ea in Ha. apply app_inv_tail in Ha. subst seg'.
    rewrite (@filter_nil _ K seg); [reflexivity|].
    eapply Forall_impl; [|exact Hf]. auto.
Qed.

(** A replacement adds no character but those of its replacement text. *)
Lemma rewrites_Forall (fl : flags) (r : regex) (repl : list rpiece)
    (P : jschar -> Prop) :
  noAhead r = true ->
  Forall P (textOf repl) ->
  forall b a out, rewrites fl r repl b a out -> Forall P a -> Forall P out.
Proof.
  intros Hs Ht b a out H.
  induction H as [b E|b st' E|b c a out E H IH|b c a st' out E Ea H IH
                 |b seg a st' out E Ea Hne H IH]; intros Ha.
  - constructor.
  - eapply match_expand; eauto. intros [|x seg]; [constructor|discriminate].
  - inversion Ha; subst. constructor; auto.
  - apply Forall_app. split.
    + eapply match_expand; eauto. intros seg Hseg _.
      rewrite Ea in Hseg. apply app_self_nil in Hseg. subst seg. constructor.
    + inversion Ha; subst. constructor; auto.
  - apply Forall_app in Ha. destruct Ha as [Hseg Ha]. apply Forall_app. split; [|auto].
    eapply match_expand; eauto. intros seg' Hseg' _.
    rewrite Ea in Hseg'. apply app_inv_tail in Hseg'. now subst seg'.
Qed.

(** A replacement by nothing whose pattern matches at every character of
    the class [X] leaves no such character. *)
Lemma rewrites_removes (fl : flags) (r : regex) (X : jschar -> bool) :
  (forall b c a, X c = true ->
     exists st', matchAt fl r b (c :: a) = Some st' /\ after st' <> c :: a) ->
  forall b a out, rewrites fl r [] b a out -> Forall (fun c => X c = false) out.
Proof.
  intros HX b a out H.
  induction H as [b E|b st' E|b c a out E H IH|b c a st' out E Ea H IH
                 |b seg a st' out E Ea Hne H IH]; cbn [expand flat_map app].
  - constructor.
  - constructor.
  - constructor; [|exact IH]. destruct (X c) eqn:Ex; [|reflexivity].
    destruct (HX b c a Ex) as (st' & E' & _). congruence.
  - constructor; [|exact IH]. destruct (X c) eqn:Ex; [|reflexivity].
    destruct (HX b c a Ex) as (st1 & E' & Hne). congruence.
  - exact IH.
Qed.

(** ** Inline hyphens *)

Section Hyphen.

Variables (fl : flags) (r : regex) (repl : list rpiece).
Hypothesis Hsimple : noAhead r = true.
Hypothesis Halph : forall c, alphabet fl r c = true -> solid c = false.
Hypothesis Hhead : forall b c a st',
  solid c = true -> matchAt fl r (c :: b) (hyphen :: a) = Some st' ->
  after st' = hyphen :: a /\ expand repl (cap st') = [].

Lemma rewrites_hyphen_head (b : jsstring) (c : jschar) (a out : jsstring) :
  solid c = true ->
  rewrites fl r repl (c :: b) (hyphen :: a) out ->
  exists o, out = hyphen :: o.
Proof.
  intros Hc H. inversion H as [| |b0 c0 a0 out0 E H0|b0 c0 a0 st' out0 E Ea H0
                              |b0 seg a0 st' out0 E Ea Hne H0]; subst.
  - eauto.
  - destruct (Hhead Hc E) as [_ ->]. cbn [app]. eauto.
  - exfalso. match goal with Hx : seg ++ _ = hyphen :: a |- _ => rewrite Hx in E end.
    destruct (Hhead Hc E) as [Ha _].
    match goal with Hx : seg ++ _ = hyphen :: a |- _ => rewrite <- Hx in Ha end.
    apply Hne. now apply app_self_nil in Ha.
Qed.

Lemma rewrites_hyphen (b a out : jsstring) :
  rewrites fl r repl b a out ->
  forall a1 c a2, a = a1 ++ c :: hyphen :: a2 -> solid c = true ->
    exists o1 o2, out = o1 ++ c :: hyphen :: o2.
Proof.
  intros H.
  induction H as [b E|b st' E|b c0 a out E H IH|b c0 a st' out E Ea H IH
                 |b seg a st' out E Ea Hne H IH]; intros a1 c a2 Ha Hc.
  - destruct a1; discriminate.
  - destruct a1; discriminate.
  - destruct a1 as [|x a1]; cbn [app] in Ha; injection Ha as -> ->.
    + destruct (rewrites_hyphen_head Hc H) as (o & ->). now exists [], o.
    + destruct (IH _ _ _ eq_refl Hc) as (o1 & o2 & ->). now exists (x :: o1), o2.
  - destruct a1 as [|x a1]; cbn [app] in Ha; injection Ha as -> ->.
    + destruct (rewrites_hyphen_head Hc H) as (o & ->).
      now exists (expand repl (cap st')), o.
    + destruct (IH _ _ _ eq_refl Hc) as (o1 & o2 & ->).
      exists (expand repl (cap st') ++ x :: o1), o2. now rewrite <- app_assoc.
  - destruct (matchAt_sound Hsimple E) as (seg' & Hs' & _ & Hf & _).
    rewrite Ea in Hs'. apply app_inv_tail in Hs'. subst seg'.
    apply app_eq_app in Ha. destruct Ha as (l & [[-> Hl]|[-> ->]]).
    + destruct l as [|x l].
      * cbn [app] in Hl. rewrite app_nil_r in *.
        destruct (IH [] c a2 (eq_sym Hl) Hc) as (o1 & o2 & ->).
        exists (expand repl (cap st') ++ o1), o2. now rewrite <- app_assoc.
      * exfalso. cbn [app] in Hl. injection Hl as <- _.
        apply Forall_app in Hf. destruct Hf as [_ Hf]. inversion Hf; subst.
        rewrite Halph in Hc by assumption. discriminate.
    + destruct (IH l c a2 eq_refl Hc) as (o1 & o2 & ->).
      exists (expand repl (cap st') ++ o1), o2. now rewrite <- app_assoc.
Qed.

Lemma replace_inlineHyphen (s : jsstring) :
  inlineHyphen s -> inlineHyphen (replace fl r repl s).
Proof.
  intros (a1 & c & a2 & -> & Hc).
  pose proof (replace_rewrites fl repl (a1 ++ c :: hyphen :: a2) Hsimple) as Hrw.
  destruct (rewrites_hyphen Hrw (a1 := a1) (a2 := a2) eq_refl Hc) as (o1 & o2 & E).
  exists o1, c, o2. auto.
Qed.

End Hyphen.

(** ** The five passes of [cleanAiResponse] *)

Lemma solid_inv (c : jschar) :
  solid c = true ->
  isWhiteSpace c = false /\ isDigit c = false /\ isLineTerminator c = false
  /\ c <> 42%N /\ c <> 35%N /\ c <> 45%N /\ c <> 46%N.
Proof.
  unfold solid, isWhiteSpace. intros H. apply negb_true_iff in H.
  repeat (apply orb_false_iff in H; destruct H as [H ?]).
  repeat match goal with
         | Hx : N.eqb _ _ = false |- _ => apply N.eqb_neq in Hx
         end.
  assert (HL : isLineTerminator c = false).
  { unfold isLineTerminator.
    repeat (apply orb_false_iff; split); now apply N.eqb_neq. }
  repeat split; auto.
  unfold isWhiteSpace.
  repeat (apply orb_false_iff; split); auto; now apply N.eqb_neq.
Qed.

Lemma solid_asterisk : solid (ch "*") = false. Proof. reflexivity. Qed.
Lemma solid_hash : solid (ch "#") = false. Proof. reflexivity. Qed.
Lemma solid_underscore : solid (ch "_") = true. Proof. reflexivity. Qed.

Ltac alphabet_solid :=
  let c := fresh "c" in
  let H := fresh "H" in
  intros c H; destruct (solid c) eqn:Hsolid; [exfalso|reflexivity];
  apply solid_inv in Hsolid;
  destruct Hsolid as (Hw & Hd & Hl & Ha & Hh & Hm & Hp);
  cbn in H; unfold isDashOrStar in H;
  repeat match goal with
         | Hx : (_ || _) = true |- _ => apply orb_true_iff in Hx; destruct Hx as [Hx|Hx]
         | Hx : N.eqb _ _ = true |- _ => apply N.eqb_eq in Hx
         end;
  repeat match goal with
         | Hx : context [ch ?a] |- _ =>
             let v := eval vm_compute in (ch a) in change (ch a) with v in Hx
         end;
  try congruence.

Lemma alphabet_asterisk :
  forall c, alphabet flags_g re_asterisk c = true -> solid c = false.
Proof. alphabet_solid. Qed.

Lemma alphabet_header :
  forall c, alphabet flags_g re_header c = true -> solid c = false.
Proof. alphabet_solid. Qed.

Lemma alphabet_bullet :
  forall c, alphabet flags_gm re_bullet c = true -> solid c = false.
Proof. alphabet_solid. Qed.

Lemma alphabet_margin :
  forall c, alphabet flags_gm re_margin c = true -> solid c = false.
Proof. alphabet_solid. Qed.

Lemma alphabet_numbered :
  forall c, alphabet flags_gm re_numbered c = true -> solid c = false.
Proof. alphabet_solid. Qed.

Lemma matcher_eps fl st k : matcher fl Eps st k = k st.
Proof. reflexivity. Qed.

Lemma matcher_seq fl r1 r2 st k :
  matcher fl (Seq r1 r2) st k = matcher fl r1 st (fun st' => matcher fl r2 st' k).
Proof. reflexivity. Qed.

Lemma matcher_chr fl c st k :
  matcher fl (Chr c) st k
  = match after st with
    | x :: rest =>
        if N.eqb (canonicalize fl x) (canonicalize fl c)
        then k (MState (x :: before st) rest (cap st)) else None
    | [] => None
    end.
Proof. reflexivity. Qed.

Lemma matcher_cls fl p st k :
  matcher fl (Cls p) st k
  = match after st with
    | x :: rest => if p x then k (MState (x :: before st) rest (cap st)) else None
    | [] => None
    end.
Proof. reflexivity. Qed.

Lemma matcher_bol fl st k :
  matcher fl Bol st k = if atBol fl st then k st else None.
Proof. reflexivity. Qed.

Lemma matcher_group fl r st k :
  matcher fl (Group r) st k
  = matcher fl r st
      (fun st' => k (MState (before st') (after st') (Some (consumed st st')))).
Proof. reflexivity. Qed.

Lemma canonicalize_exact (fl : flags) (c : jschar) :
  ignoreCase fl = false -> canonicalize fl c = c.
Proof. unfold canonicalize. now intros ->. Qed.

Lemma match_nonempty (fl : flags) (r : regex) (b a : jsstring) (st' : mstate) :
  noAhead r = true -> 1 <= minLen r ->
  matchAt fl r b a = Some st' -> after st' <> a.
Proof.
  intros Hs Hm E Ha. destruct (matchAt_sound Hs E) as (seg & Hseg & _ & _ & Hl & _).
  rewrite Ha in Hseg. apply app_self_nil in Hseg. subst seg. cbn in Hl. lia.
Qed.

Lemma head_by_alphabet (fl : flags) (r : regex) (repl : list rpiece) :
  noAhead r = true ->
  alphabet fl r hyphen = false ->
  repl = [] \/ 1 <= minLen r ->
  forall b c a st',
    solid c = true -> matchAt fl r (c :: b) (hyphen :: a) = Some st' ->
    after st' = hyphen :: a /\ expand repl (cap st') = [].
Proof.
  intros Hs Hh Hr b c a st' _ E.
  destruct (matchAt_sound Hs E) as (seg & Hseg & _ & Hf & Hl & _).
  destruct seg as [|x seg].
  - split; [now rewrite Hseg|]. destruct Hr as [->|Hr]; [reflexivity|].
    cbn in Hl. lia.
  - exfalso. injection Hseg as <- _. inversion Hf; subst. congruence.
Qed.

Lemma head_bullet :
  forall b c a st',
    solid c = true -> matchAt flags_gm re_bullet (c :: b) (hyphen :: a) = Some st' ->
    after st' = hyphen :: a /\ expand [] (cap st') = [].
Proof.
  intros b c a st' Hc E. exfalso. apply solid_inv in Hc.
  destruct Hc as (_ & _ & Hl & _).
  unfold matchAt, re_bullet in E. rewrite matcher_seq, matcher_bol in E.
  unfold atBol in E. cbn [before multiline flags_gm andb] in E.
  rewrite Hl in E. discriminate.
Qed.

Lemma matcher_star_total (fl : flags) (r : regex) (st : mstate)
    (k : mstate -> option mstate) :
  (forall st', k st' <> None) -> matcher fl (Star r) st k <> None.
Proof.
  intros Hk. cbn [matcher]. destruct (length (after st)) as [|n];
    cbn [repeatMatcher]; [apply Hk|].
  match goal with |- match ?m with _ => _ end <> _ => destruct m end;
    [discriminate|apply Hk].
Qed.

Lemma asterisk_matches (b : jsstring) (c : jschar) (a : jsstring) :
  N.eqb c (ch "*") = true ->
  exists st', matchAt flags_g re_asterisk b (c :: a) = Some st' /\ after st' <> c :: a.
Proof.
  intros Hc. unfold matchAt, re_asterisk.
  rewrite matcher_chr. cbn [after]. rewrite !canonicalize_exact by reflexivity.
  rewrite Hc. eexists. split; [reflexivity|]. cbn [after]. intros H.
  apply (app_self_nil (seg := [c])) in H. discriminate.
Qed.

Lemma header_matches (b : jsstring) (c : jschar) (a : jsstring) :
  N.eqb c (ch "#") = true ->
  exists st', matchAt flags_g re_header b (c :: a) = Some st' /\ after st' <> c :: a.
Proof.
  intros Hc.
  destruct (matchAt flags_g re_header b (c :: a)) as [st'|] eqn:E.
  - exists st'. split; [reflexivity|].
    eapply match_nonempty; [| |exact E]; [reflexivity|cbn; lia].
  - exfalso. revert E. unfold matchAt, re_header, Plus.
    rewrite !matcher_seq, matcher_chr. cbn [after].
    rewrite !canonicalize_exact by reflexivity. rewrite Hc.
    apply matcher_star_total. intros st'. apply matcher_star_total. discriminate.
Qed.

Lemma pass_keeps_absent (fl : flags) (r : regex) (repl : list rpiece)
    (x : jschar) (s : jsstring) :
  noAhead r = true -> Forall (isNot x) (textOf repl) ->
  Forall (isNot x) s -> Forall (isNot x) (replace fl r repl s).
Proof.
  intros Hs Ht. eapply rewrites_Forall; eauto. now apply replace_rewrites.
Qed.

Lemma pass_removes (fl : flags) (r : regex) (x : jschar) (s : jsstring) :
  noAhead r = true ->
  (forall b c a, N.eqb c x = true ->
     exists st', matchAt fl r b (c :: a) = Some st' /\ after st' <> c :: a) ->
  Forall (isNot x) (replace fl r [] s).
Proof.
  intros Hs Hm.
  pose proof (rewrites_removes (X := fun c => N.eqb c x) Hm
                (replace_rewrites fl [] s Hs)) as H.
  eapply Forall_impl; [|exact H]. intros c Hc. now apply N.eqb_neq.
Qed.

Lemma numbered_text : textOf [RGroup1; RText (str ". ")] = str ". ".
Proof. reflexivity. Qed.

(** No asterisk and no hash sign is left by the cleaning. *)
Lemma clean_no_markup (text : jsstring) :
  Forall (isNot (ch "*")) (cleanAiResponse text)
  /\ Forall (isNot (ch "#")) (cleanAiResponse text).
Proof.
  unfold cleanAiResponse. split.
  - apply pass_keeps_absent; [reflexivity|repeat constructor; discriminate|].
    do 3 (apply pass_keeps_absent; [reflexivity|constructor|]).
    apply pass_removes; [reflexivity|]. apply asterisk_matches.
  - apply pass_keeps_absent; [reflexivity|repeat constructor; discriminate|].
    do 2 (apply pass_keeps_absent; [reflexivity|constructor|]).
    apply pass_removes; [reflexivity|]. apply header_matches.
Qed.

Lemma pass_keeps_solid (fl : flags) (r : regex) (repl : list rpiece) (s : jsstring) :
  noAhead r = true ->
  (forall c, alphabet fl r c = true -> solid c = false) ->
  Forall (fun c => solid c = false) (textOf repl) ->
  filter solid (replace fl r repl s) = filter solid s.
Proof.
  intros Hs Ha Ht. eapply rewrites_filter; eauto. now apply replace_rewrites.
Qed.

(** The solid characters of a response, underscores among them, come out
    of the cleaning unchanged and in their order. *)
Lemma clean_keeps_solid (text : jsstring) :
  filter solid (cleanAiResponse text) = filter solid text.
Proof.
  unfold cleanAiResponse.
  rewrite pass_keeps_solid;
    [|reflexivity|exact alphabet_numbered|repeat constructor].
  rewrite pass_keeps_solid; [|reflexivity|exact alphabet_margin|constructor].
  rewrite pass_keeps_solid; [|reflexivity|exact alphabet_bullet|constructor].
  rewrite pass_keeps_solid; [|reflexivity|exact alphabet_header|constructor].
  rewrite pass_keeps_solid; [|reflexivity|exact alphabet_asterisk|constructor].
  reflexivity.
Qed.

(** A hyphen right after a solid character survives the cleaning. *)
Lemma clean_keeps_inlineHyphen (text : jsstring) :
  inlineHyphen text -> inlineHyphen (cleanAiResponse text).
Proof.
  intros H. unfold cleanAiResponse.
  apply replace_inlineHyphen;
    [reflexivity|exact alphabet_numbered
    |apply head_by_alphabet; [reflexivity|reflexivity|right; cbn; lia]|].
  apply replace_inlineHyphen;
    [reflexivity|exact alphabet_margin
    |apply head_by_alphabet; [reflexivity|reflexivity|now left]|].
  apply replace_inlineHyphen;
    [reflexivity|exact alphabet_bullet|exact head_bullet|].
  apply replace_inlineHyphen;
    [reflexivity|exact alphabet_header
    |apply head_by_alphabet; [reflexivity|reflexivity|now left]|].
  apply replace_inlineHyphen;
    [reflexivity|exact alphabet_asterisk
    |apply head_by_alphabet; [reflexivity|reflexivity|now left]|].
  exact H.
Qed.

(** ** Greedy stars over a class, literals *)

Lemma takeWhile_dropWhile (p : jschar -> bool) (s : jsstring) :
  takeWhile p s ++ dropWhile p s = s.
Proof.
  induction s as [|c s IH]; cbn; [reflexivity|].
  destruct (p c); cbn; [now rewrite IH|reflexivity].
Qed.

Lemma takeWhile_Forall (p : jschar -> bool) (s : jsstring) :
  Forall (fun c => p c = true) (takeWhile p s).
Proof.
  induction s as [|c s IH]; cbn; [constructor|].
  destruct (p c) eqn:E; constructor; auto.
Qed.

Lemma matcher_star_cls (fl : flags) (p : jschar -> bool) (st : mstate)
    (k : mstate -> option mstate) :
  matcher fl (Star (Cls p)) st k = greedy p k (before st) (after st) (cap st).
Proof.
  cbn [matcher].
  assert (H : forall n b a c, length a <= n ->
            repeatMatcher false (matcher fl (Cls p)) k n (MState b a c)
            = greedy p k b a c).
  { induction n as [|n IH]; intros b a c Hn.
    - destruct a; [reflexivity|cbn in Hn; lia].
    - cbn [repeatMatcher]. rewrite matcher_cls. cbn [after before cap].
      destruct a as [|x rest]; [reflexivity|]. cbn [greedy].
      destruct (p x); [|reflexivity].
      cbn [length] in *. 
      replace (length rest <? S (length rest)) with true
        by (symmetry; apply Nat.ltb_lt; lia).
      rewrite IH by lia. reflexivity. }
  destruct st as [b a c]. cbn [after before cap]. now apply H.
Qed.

Lemma greedy_skip (p : jschar -> bool) (k : mstate -> option mstate) :
  (forall b x rest c, p x = true -> k (MState b (x :: rest) c) = None) ->
  forall a b c,
    greedy p k b a c = k (MState (rev (takeWhile p a) ++ b) (dropWhile p a) c).
Proof.
  intros Hk. induction a as [|x rest IH]; intros b c; cbn; [reflexivity|].
  destruct (p x) eqn:E; [|reflexivity].
  rewrite IH, (Hk b x rest c E). cbn [rev]. rewrite <- app_assoc. cbn [app].
  now destruct (k _).
Qed.

Lemma greedy_total (p : jschar -> bool) (k : mstate -> option mstate) :
  (forall st, k st <> None) ->
  forall a b c,
    greedy p k b a c = k (MState (rev (takeWhile p a) ++ b) (dropWhile p a) c).
Proof.
  intros Hk. induction a as [|x rest IH]; intros b c; cbn; [reflexivity|].
  destruct (p x) eqn:E; [|reflexivity].
  rewrite IH. cbn [rev]. rewrite <- app_assoc. cbn [app].
  destruct (k _) eqn:Ek; [reflexivity|]. now apply Hk in Ek.
Qed.

Lemma matcher_lit (fl : flags) (p : jsstring) :
  forall st k,
    matcher fl (lit p) st k
    = if prefixOf fl (after st) p
      then k (MState (rev (firstn (length p) (after st)) ++ before st)
                     (skipn (length p) (after st)) (cap st))
      else None.
Proof.
  induction p as [|x p IH]; intros [b a c] k; cbn [lit fold_right].
  - now destruct a.
  - fold (lit p). rewrite matcher_seq, matcher_chr. cbn [after before cap].
    destruct a as [|y a]; [reflexivity|]. cbn [prefixOf].
    destruct (N.eqb (canonicalize fl y) (canonicalize fl x)); [|reflexivity].
    rewrite IH. cbn [after before cap andb length firstn skipn rev].
    now rewrite <- app_assoc.
Qed.

(** ** Score extraction *)

Lemma digit_not_space (c : jschar) : isDigit c = true -> isWhiteSpace c = false.
Proof.
  unfold isDigit, isWhiteSpace, isLineTerminator. intros H.
  apply andb_true_iff in H. destruct H as [H1 H2].
  apply N.leb_le in H1, H2.
  repeat (apply orb_false_iff; split);
    try (apply N.eqb_neq; lia).
  apply andb_false_iff. left. apply N.leb_gt. lia.
Qed.

Lemma space_not_digit (c : jschar) : isWhiteSpace c = true -> isDigit c = false.
Proof.
  intros H. destruct (isDigit c) eqn:E; [|reflexivity].
  apply digit_not_space in E. congruence.
Qed.

Lemma consumed_takeWhile (p : jschar -> bool) (b b' : jsstring) (a : jsstring)
    (c c' : option jsstring) :
  consumed (MState b a c) (MState b' (dropWhile p a) c') = takeWhile p a.
Proof.
  unfold consumed. cbn [after].
  rewrite <- (takeWhile_dropWhile p a) at 1 3.
  rewrite length_app, Nat.add_sub, firstn_app, firstn_all, Nat.sub_diag.
  cbn [firstn]. apply app_nil_r.
Qed.

Lemma digits_group (fl : flags) (b a : jsstring) (c : option jsstring) :
  matcher fl (Group (Plus digit)) (MState b a c) Some
  = match a with
    | x :: rest =>
        if isDigit x
        then Some (MState (rev (takeWhile isDigit rest) ++ x :: b)
                          (dropWhile isDigit rest) (Some (takeWhile isDigit a)))
        else None
    | [] => None
    end.
Proof.
  unfold Plus, digit. rewrite matcher_group, matcher_seq, matcher_cls.
  cbn [after before cap]. destruct a as [|x rest]; [reflexivity|].
  destruct (isDigit x) eqn:E; [|reflexivity].
  rewrite matcher_star_cls. cbn [after before cap].
  rewrite greedy_total by discriminate. cbn [after before].
  f_equal. f_equal. f_equal.
  pose proof (@consumed_takeWhile isDigit b (rev (takeWhile isDigit rest) ++ x :: b)
                (x :: rest) c c) as H.
  cbn [dropWhile takeWhile] in H. rewrite E in H.
  cbn [takeWhile]. rewrite E. exact H.
Qed.

Lemma matchAt_score (b a : jsstring) :
  captured (matchAt flags_i re_score b a) = scoreHere a.
Proof.
  unfold matchAt, re_score, scoreHere.
  rewrite matcher_seq, matcher_lit. cbn [after before cap].
  destruct (prefixOf flags_i a (str "SCORE:")); [|reflexivity].
  rewrite matcher_seq. unfold ws at 1. rewrite matcher_star_cls.
  cbn [after before cap].
  rewrite greedy_skip.
  2:{ intros b0 x rest c Hx. rewrite digits_group.
      now rewrite (space_not_digit Hx). }
  rewrite digits_group. change (length (str "SCORE:")) with 6.
  destruct (dropWhile isWhiteSpace (skipn 6 a)) as [|x rest]; [reflexivity|].
  cbn [takeWhile]. destruct (isDigit x); reflexivity.
Qed.

Lemma search_score (s : jsstring) :
  forall b, captured (search flags_i re_score b s) = firstScore s.
Proof.
  induction s as [|c s IH]; intros b; cbn [search firstScore];
    rewrite <- (matchAt_score b);
    destruct (matchAt flags_i re_score b _) eqn:E; cbn [captured]; auto.
Qed.

Lemma match1_score (s : jsstring) : match1 flags_i re_score s = firstScore s.
Proof. unfold match1. rewrite <- (search_score s []). reflexivity. Qed.

Lemma scoreHere_digits (a digits : jsstring) :
  scoreHere a = Some digits ->
  digits <> [] /\ Forall (fun c => isDigit c = true) digits.
Proof.
  unfold scoreHere. destruct (prefixOf flags_i a (str "SCORE:")); [|discriminate].
  pose proof (takeWhile_Forall isDigit (dropWhile isWhiteSpace (skipn 6 a))) as H.
  destruct (takeWhile isDigit _); [discriminate|].
  intros [= <-]. split; [discriminate|exact H].
Qed.

Lemma firstScore_digits (s digits : jsstring) :
  firstScore s = Some digits ->
  digits <> [] /\ Forall (fun c => isDigit c = true) digits.
Proof.
  induction s as [|c s IH]; cbn [firstScore];
    destruct (scoreHere _) eqn:E; intros H; try discriminate; auto;
    injection H as <-; eapply scoreHere_digits; eauto.
Qed.

Lemma includesCI_firstScore (s : jsstring) :
  includesCI s (str "SCORE:") = false -> firstScore s = None.
Proof.
  induction s as [|c s IH]; cbn [includesCI firstScore]; intros H;
    apply orb_false_iff in H; destruct H as [H1 H2];
    unfold scoreHere; rewrite H1; auto.
Qed.

(** C4 (as amended). The score of a review is the integer written by the
    digits that follow, after optional whitespace, the first [SCORE:] (in
    any letter case) that has digits behind it, clamped to 1..10; it is 7
    when the text has no such place, in particular when it has no
    [SCORE:] in any letter case. *)
Theorem score_extraction (analysis : jsstring) :
  fileScore analysis
  = match firstScore analysis with
    | Some digits => clamp 1 10 (parseInt digits)
    | None => 7%Z
    end
  /\ (1 <= fileScore analysis <= 10)%Z
  /\ (forall digits, firstScore analysis = Some digits ->
        digits <> [] /\ Forall (fun c => isDigit c = true) digits)
  /\ (includesCI analysis (str "SCORE:") = false -> fileScore analysis = 7%Z).
Proof.
  assert (E : fileScore analysis
              = match firstScore analysis with
                | Some digits => clamp 1 10 (parseInt digits)
                | None => 7%Z
                end).
  { unfold fileScore, clamp. rewrite match1_score.
    destruct (firstScore analysis); lia. }
  split; [exact E|]. split; [|split].
  - rewrite E. unfold clamp. destruct (firstScore analysis); lia.
  - apply firstScore_digits.
  - intros H. rewrite E, (includesCI_firstScore H). reflexivity.
Qed.

Lemma score_extraction_witness : fileScore (str "Looks fine overall") = 7%Z.
Proof.
  apply (score_extraction (str "Looks fine overall")). reflexivity.
Defined.

(** C4 as stated fails: no integer follows the marker [SCORE:] of this
    validated review, and its score is 3, not the default 7. *)
Lemma score_default_counterexample :
  cleanAiResponse wordyReview = wordyReview
  /\ validateResponseFormat wordyReview = true
  /\ afterMarker (str "SCORE:") wordyReview <> None
  /\ spec_fileScore wordyReview = 7%Z
  /\ fileScore wordyReview = 3%Z
  /\ fileScore wordyReview <> spec_fileScore wordyReview.
Proof.
  repeat split; try (vm_compute; reflexivity); vm_compute; discriminate.
Qed.

(** ** Validation *)

Lemma search_cls (fl : flags) (p : jschar -> bool) (a : jsstring) :
  forall b,
    match search fl (Cls p) b a with Some _ => true | None => false end
    = existsb p a.
Proof.
  induction a as [|c a IH]; intros b; cbn [search existsb];
    unfold matchAt; rewrite matcher_cls; cbn [after]; [reflexivity|].
  destruct (p c); [reflexivity|]. cbn [orb]. apply IH.
Qed.

Lemma test_forbidden (text : jsstring) :
  test flags_g re_forbidden text = existsb isForbidden text.
Proof. unfold test, re_forbidden. apply search_cls. Qed.

Lemma validate_spec (text : jsstring) :
  validateResponseFormat text
  = negb (existsb isForbidden text)
    && includes text (str "SCORE:")
    && includes text (str "TOP 5 ACTIONABLE RECOMMENDATIONS:").
Proof.
  unfold validateResponseFormat. rewrite test_forbidden.
  destruct (existsb isForbidden text); [reflexivity|].
  destruct (includes text (str "SCORE:")); [|reflexivity].
  destruct (includes text (str "TOP 5 ACTIONABLE RECOMMENDATIONS:")); reflexivity.
Qed.

Lemma forbidden_invalid (text : jsstring) (c : jschar) :
  In c text -> isForbidden c = true -> validateResponseFormat text = false.
Proof.
  intros Hin Hc. rewrite validate_spec.
  replace (existsb isForbidden text) with true; [reflexivity|].
  symmetry. apply existsb_exists. eauto.
Qed.

Lemma inlineHyphen_In (s : jsstring) : inlineHyphen s -> In hyphen s.
Proof.
  intros (a1 & c & a2 & -> & _). apply in_or_app. right. right. now left.
Qed.

Lemma underscore_kept (text : jsstring) :
  In (ch "_") text <-> In (ch "_") (cleanAiResponse text).
Proof.
  pose proof (clean_keeps_solid text) as E.
  split; intros H.
  - assert (H' : In (ch "_") (filter solid text))
      by (apply filter_In; split; [exact H|reflexivity]).
    rewrite <- E in H'. apply filter_In in H'. tauto.
  - assert (H' : In (ch "_") (filter solid (cleanAiResponse text)))
      by (apply filter_In; split; [exact H|reflexivity]).
    rewrite E in H'. apply filter_In in H'. tauto.
Qed.

(** ** List markers *)

Lemma takeWhile_app (p : jschar -> bool) (w rest : jsstring) :
  Forall (fun c => p c = true) w ->
  match rest with [] => True | c :: _ => p c = false end ->
  takeWhile p (w ++ rest) = w /\ dropWhile p (w ++ rest) = rest.
Proof.
  intros Hw Hr. induction Hw as [|c w Hc _ IH]; cbn [app].
  - destruct rest as [|c rest]; cbn; [auto|]. now rewrite Hr.
  - cbn. rewrite Hc. destruct IH as [-> ->]. auto.
Qed.

Lemma replaceFrom_match (fl : flags) (r : regex) (repl : list rpiece)
    (b seg a : jsstring) (st' : mstate) :
  matchAt fl r b (seg ++ a) = Some st' -> after st' = a -> seg <> [] ->
  replaceFrom fl r repl 0 b (seg ++ a)
  = expand repl (cap st') ++ replaceFrom fl r repl 0 (rev seg ++ b) a.
Proof.
  intros E Ea Hne. destruct seg as [|c seg]; [congruence|].
  cbn [app replaceFrom] in *. rewrite E, Ea.
  replace (length (c :: seg ++ a) - length a) with (S (length seg))
    by (cbn [length]; rewrite length_app; lia).
  rewrite replaceFrom_skip. cbn [rev]. now rewrite <- app_assoc.
Qed.

Lemma space_not_marker (c : jschar) : isWhiteSpace c = true -> isDashOrStar c = false.
Proof.
  intros H. destruct (isDashOrStar c) eqn:E; [|reflexivity].
  unfold isDashOrStar in E. apply orb_true_iff in E.
  destruct E as [E|E]; apply N.eqb_eq in E; subst c; discriminate.
Qed.

(** At a line start, optional whitespace, a dash or asterisk and the
    whitespace behind it are one match of the list-item pattern. *)
Lemma bullet_matches (b w1 : jsstring) (x : jschar) (w2 rest : jsstring) :
  lineStart b ->
  Forall (fun c => isWhiteSpace c = true) w1 ->
  isDashOrStar x = true ->
  w2 <> [] -> Forall (fun c => isWhiteSpace c = true) w2 ->
  noLeadingSpace rest ->
  matchAt flags_gm re_bullet b (w1 ++ x :: w2 ++ rest)
  = Some (MState (rev (w1 ++ x :: w2) ++ b) rest None).
Proof.
  intros Hb Hw1 Hx Hne Hw2 Hrest.
  unfold matchAt, re_bullet. rewrite matcher_seq, matcher_bol.
  replace (atBol flags_gm _) with true
    by (unfold atBol; cbn [before]; destruct b; [reflexivity|cbn; now rewrite Hb]).
  rewrite matcher_seq. unfold ws at 1. rewrite matcher_star_cls.
  cbn [after before cap]. rewrite greedy_skip.
  2:{ intros b0 c rest0 c0 Hc. rewrite matcher_seq, matcher_cls. cbn [after].
      now rewrite (space_not_marker Hc). }
  assert (Hxs : isWhiteSpace x = false).
  { destruct (isWhiteSpace x) eqn:E; [|reflexivity].
    apply space_not_marker in E. congruence. }
  destruct (@takeWhile_app isWhiteSpace w1 (x :: w2 ++ rest) Hw1 Hxs) as [-> ->].
  rewrite matcher_seq, matcher_cls. cbn [after before cap]. rewrite Hx.
  destruct w2 as [|y w2]; [congruence|]. inversion Hw2 as [|? ? Hy Hw2']; subst.
  unfold Plus, ws. rewrite matcher_seq, matcher_cls. cbn [app after before cap].
  rewrite Hy, matcher_star_cls. cbn [after before cap].
  rewrite greedy_total by discriminate.
  destruct (@takeWhile_app isWhiteSpace w2 rest Hw2') as [-> ->].
  { destruct rest; [exact I|exact Hrest]. }
  f_equal. f_equal.
  rewrite rev_app_distr. cbn [rev]. rewrite <- !app_assoc. reflexivity.
Qed.

(** C10. Validation rejects a text that contains [*], [#], [_] or [-]
    anywhere, or that lacks one of the two markers.  The cleaning leaves
    no asterisk and no hash sign; at a line start it drops a list marker
    (optional whitespace, a dash or asterisk, whitespace); it keeps every
    solid character, so every underscore, and every hyphen that follows
    a solid character.  Hence a file whose every answer still has a
    hyphen after cleaning is rejected at every attempt and contributes no
    file insight. *)
Theorem cleaning_keeps_inline_hyphens :
  (forall text c, In c text -> isForbidden c = true ->
     validateResponseFormat text = false)
  /\ (forall text,
        includes text (str "SCORE:") = false
        \/ includes text (str "TOP 5 ACTIONABLE RECOMMENDATIONS:") = false ->
        validateResponseFormat text = false)
  /\ (forall text,
        Forall (isNot (ch "*")) (cleanAiResponse text)
        /\ Forall (isNot (ch "#")) (cleanAiResponse text))
  /\ (forall b w1 x w2 rest,
        lineStart b -> Forall (fun c => isWhiteSpace c = true) w1 ->
        isDashOrStar x = true ->
        w2 <> [] -> Forall (fun c => isWhiteSpace c = true) w2 ->
        noLeadingSpace rest ->
        replaceFrom flags_gm re_bullet [] 0 b (w1 ++ x :: w2 ++ rest)
        = replaceFrom flags_gm re_bullet [] 0 (rev (w1 ++ x :: w2) ++ b) rest)
  /\ (forall text,
        filter solid (cleanAiResponse text) = filter solid text
        /\ (In (ch "_") text <-> In (ch "_") (cleanAiResponse text))
        /\ (inlineHyphen text -> inlineHyphen (cleanAiResponse text)))
  /\ (forall text,
        inlineHyphen text \/ In (ch "_") text ->
        validateResponseFormat (cleanAiResponse text) = false)
  /\ (forall env file s,
        (forall k text, k < 3 ->
           groq env (GitHubFile.path file) k = Returned (Ok text) ->
           In hyphen (cleanAiResponse text)) ->
        fst (analyzeFile env file s) = Returned None
        /\ fileInsights (snd (processBatch env [file] s)) = fileInsights s).
Proof.
  split; [exact forbidden_invalid|].
  split.
  { intros text H. rewrite validate_spec. destruct H as [-> | ->].
    - now rewrite andb_false_r.
    - now rewrite andb_false_r. }
  split; [exact clean_no_markup|].
  split.
  { intros b w1 x w2 rest Hb Hw1 Hx Hne Hw2 Hrest.
    pose proof (bullet_matches Hb Hw1 Hx Hne Hw2 Hrest) as E.
    replace (w1 ++ x :: w2 ++ rest) with ((w1 ++ x :: w2) ++ rest) in *
      by (rewrite <- app_assoc; reflexivity).
    rewrite (replaceFrom_match [] E); [reflexivity|reflexivity|].
    destruct w1; discriminate. }
  split.
  { intros text. split; [apply clean_keeps_solid|].
    split; [apply underscore_kept|apply clean_keeps_inlineHyphen]. }
  split.
  { intros text [H|H].
    - apply clean_keeps_inlineHyphen, inlineHyphen_In in H.
      eapply forbidden_invalid; [exact H|reflexivity].
    - apply underscore_kept in H.
      eapply forbidden_invalid; [exact H|reflexivity]. }
  intros env file s H.
  assert (Hbad : allInvalid env file).
  { intros k text Hk G. eapply forbidden_invalid; [exact (H k text Hk G)|reflexivity]. }
  split.
  - destruct (analyzeFile_spec env file s) as (r & s' & n & E & _ & _ & _ & _ & Hr & _).
    rewrite E. cbn [fst]. f_equal. now apply Hr.
  - now apply processBatch_single.
Qed.

(** ** The handler *)

Lemma calls_fileEvents (file : GitHubFile.t) (from n : nat) :
  Forall isFileEvent (calls file from n).
Proof.
  unfold calls. apply Forall_forall. intros e H. apply in_map_iff in H.
  destruct H as (k & <- & _). exact I.
Qed.

Lemma mapM_analyzeFile_spec (env : Env) (batch : list GitHubFile.t) :
  forall s, exists rs s' evs,
    mapM (analyzeFile env) batch s = (Returned rs, s')
    /\ store s' = store s
    /\ fileInsights s' = fileInsights s
    /\ trace s' = trace s ++ evs
    /\ Forall isFileEvent evs
    /\ (batch = [] -> rs = [] /\ s' = s).
Proof.
  induction batch as [|f batch IH]; intros s; cbn [mapM].
  - exists [], s, []. rewrite app_nil_r. repeat split; auto.
  - unfold bind at 1.
    destruct (analyzeFile_spec env f s) as (r & s1 & n & E & S1 & F1 & _ & T1 & _).
    rewrite E. unfold bind at 1.
    destruct (IH s1) as (rs & s2 & evs & E2 & S2 & F2 & T2 & Hev & _).
    rewrite E2. unfold ret.
    exists (r :: rs), s2, ((FetchContent (GitHubFile.path f) :: calls f 0 n) ++ evs).
    split; [reflexivity|]. split; [congruence|]. split; [congruence|].
    split; [rewrite T2, T1, <- app_assoc; reflexivity|].
    split; [|discriminate].
    apply Forall_app. split; [|exact Hev].
    constructor; [exact I|apply calls_fileEvents].
Qed.

Lemma processBatch_spec (env : Env) (batch : list GitHubFile.t) (s : State) :
  exists s' evs,
    processBatch env batch s = (Returned tt, s')
    /\ store s' = store s
    /\ trace s' = trace s ++ evs
    /\ Forall isFileEvent evs.
Proof.
  unfold processBatch, bind.
  destruct (mapM_analyzeFile_spec env batch s) as (rs & s1 & evs & E & S1 & F1 & T1 & Hev & _).
  rewrite E. unfold modify. eexists _, evs. split; [reflexivity|].
  cbn. auto.
Qed.

Lemma batches_run (env : Env) (bs : list (list GitHubFile.t)) :
  forall s, exists s' evs,
    forEach bs (processBatch env) s = (Returned tt, s')
    /\ store s' = store s
    /\ trace s' = trace s ++ evs
    /\ Forall isFileEvent evs
    /\ (bs = [] -> s' = s).
Proof.
  induction bs as [|b bs IH]; intros s; cbn [forEach].
  - exists s, []. rewrite app_nil_r. repeat split; auto.
  - unfold bind at 1.
    destruct (processBatch_spec env b s) as (s1 & evs1 & E1 & S1 & T1 & H1).
    rewrite E1. destruct (IH s1) as (s2 & evs2 & E2 & S2 & T2 & H2 & _).
    exists s2, (evs1 ++ evs2). rewrite E2.
    split; [reflexivity|]. split; [congruence|].
    split; [rewrite T2, T1, <- app_assoc; reflexivity|].
    split; [apply Forall_app; auto|discriminate].
Qed.

Lemma analyzeConfig_spec (env : Env) (file : GitHubFile.t) (s : State) :
  exists s',
    analyzeConfig env file s = (Returned tt, s')
    /\ store s' = store s
    /\ fileInsights s' = fileInsights s
    /\ languageStats s' = languageStats s
    /\ trace s' = trace s ++ [FetchContent (GitHubFile.path file)].
Proof.
  unfold analyzeConfig, tryCatch. unfold bind at 1. unfold await.
  set (s0 := set_trace _ s).
  destruct (fetchContent env (GitHubFile.path file)) as [[[[|c content]|]|status]|e];
    try (exists s0; repeat split; reflexivity).
  destruct (keeps_detectFromConfig env file (decodeBase64 env (c :: content)) s0)
    as ([] & s1 & E & S1 & T1 & F1 & L1).
  rewrite E. exists s1. repeat split; auto.
Qed.

Lemma configs_run (env : Env) (files : list GitHubFile.t) :
  forall s, exists s' evs,
    forEach files (analyzeConfig env) s = (Returned tt, s')
    /\ store s' = store s
    /\ fileInsights s' = fileInsights s
    /\ languageStats s' = languageStats s
    /\ trace s' = trace s ++ evs
    /\ Forall isFileEvent evs.
Proof.
  induction files as [|f files IH]; intros s; cbn [forEach].
  - exists s, []. rewrite app_nil_r. repeat split; auto.
  - unfold bind at 1.
    destruct (analyzeConfig_spec env f s) as (s1 & E1 & S1 & F1 & L1 & T1).
    rewrite E1. destruct (IH s1) as (s2 & evs2 & E2 & S2 & F2 & L2 & T2 & H2).
    exists s2, (FetchContent (GitHubFile.path f) :: evs2). rewrite E2.
    split; [reflexivity|]. split; [congruence|]. split; [congruence|].
    split; [congruence|].
    split; [rewrite T2, T1, <- app_assoc; reflexivity|].
    constructor; [exact I|exact H2].
Qed.

Lemma writeCompleted_spec (env : Env) (id : jsstring) (score : Z) (summary : jsstring)
    (suggestions : list jsstring) (tech : TechStack.t) (insights : list FileInsight.t)
    (s : State) :
  writeCompleted env id score summary suggestions tech insights s
  = match updateAnalysis env with
    | Returned None =>
        (Returned tt,
         set_store (updateRow id (completeRow score summary suggestions tech insights))
           (logged (UpdateAnalysis id completed) s))
    | Returned (Some message) =>
        (Thrown (Error (str "Failed to update analysis: " ++ message)),
         logged (UpdateAnalysis id completed) s)
    | Thrown e => (Thrown e, logged (UpdateAnalysis id completed) s)
    end.
Proof.
  unfold writeCompleted, bind, await.
  destruct (updateAnalysis env) as [[message|]|e]; reflexivity.
Qed.

Lemma analyzeTree_spec (env : Env) (id : jsstring) (repoData : GitHubRepoResponse)
    (tree : list GitHubFile.t) (s : State) :
  exists out s' evs,
    analyzeTree env id repoData tree s = (out, s')
    /\ trace s' = trace s ++ evs ++ [UpdateAnalysis id completed]
    /\ Forall isFileEvent evs
    /\ ((exists e, out = Thrown e /\ store s' = store s
                   /\ updateAnalysis env <> Returned None)
        \/ (exists score summary sugg tech ins resp,
              out = Returned resp
              /\ updateAnalysis env = Returned None
              /\ store s' = updateRow id (completeRow score summary sugg tech ins) (store s)
              /\ (1 <= score <= 10)%Z
              /\ statusCode resp = 200
              /\ ((allFiles tree = [] /\ score = 1%Z /\ summary = noFilesSummary
                   /\ ins = [] /\ body resp = zeroFilesBody id)
                  \/ (allFiles tree <> []
                      /\ exists sm,
                           ins = fileInsights sm
                           /\ score = computeFinalScore (double env) (fileInsights sm)
                                     (architecturePatterns sm) (frameworks sm)
                                     (securityIssues sm)
                           /\ summary = makeSummary env repoData sm
                           /\ body resp
                              = fullBody id score (length (fileInsights sm))
                                  (length (languageStats sm)) (length (frameworks sm))
                                  (length (securityIssues sm))
                           /\ (codeFiles (allFiles tree) = [] ->
                               fileInsights sm = fileInsights s
                               /\ languageStats sm = languageStats s)
                           /\ TechStack.frameworks tech = frameworks sm
                           /\ TechStack.architecture_patterns tech
                              = Some (architecturePatterns sm)
                           /\ (tallied s -> tallied sm)
                           /\ (distinct s -> distinct sm))))).
Proof.
  unfold analyzeTree. destruct (allFiles tree) as [|f0 files] eqn:Eall.
  - cbn [length Nat.eqb]. unfold bind. rewrite writeCompleted_spec.
    destruct (updateAnalysis env) as [[message|]|e] eqn:Eu.
    + eexists _, _, []. split; [reflexivity|]. split; [reflexivity|].
      split; [constructor|]. left. eexists. repeat split. discriminate.
    + eexists _, _, []. split; [reflexivity|]. split; [reflexivity|].
      split; [constructor|]. right.
      eexists 1%Z, _, _, _, _, _. split; [reflexivity|]. split; [reflexivity|].
      split; [reflexivity|]. split; [lia|]. split; [reflexivity|].
      left. repeat split.
    + eexists _, _, []. split; [reflexivity|]. split; [reflexivity|].
      split; [constructor|]. left. eexists. repeat split. discriminate.
  - cbn [length Nat.eqb]. unfold bind at 1.
    destruct (configs_run env (configFiles (f0 :: files)) s)
      as (s1 & evs1 & E1 & S1 & F1 & L1 & T1 & H1).
    rewrite E1. unfold bind at 1.
    destruct (batches_run env (batches (codeFiles (f0 :: files))) s1)
      as (s2 & evs2 & E2 & S2 & T2 & H2 & Hnil).
    pose proof (loops_invariant env (configFiles (f0 :: files))
                  (batches (codeFiles (f0 :: files))) s) as Hinv.
    cbv zeta in Hinv. rewrite E1 in Hinv. cbn [snd] in Hinv.
    rewrite E2 in Hinv. cbn [snd] in Hinv.
    rewrite E2. unfold bind at 1. unfold gets. unfold bind.
    rewrite writeCompleted_spec.
    assert (T : forall s3, trace s3 = trace s2 ++ [UpdateAnalysis id completed] ->
                trace s3 = trace s ++ (evs1 ++ evs2) ++ [UpdateAnalysis id completed]).
    { intros s3 ->. rewrite T2, T1, <- !app_assoc. reflexivity. }
    assert (H12 : Forall isFileEvent (evs1 ++ evs2)) by (apply Forall_app; auto).
    destruct (updateAnalysis env) as [[message|]|e] eqn:Eu.
    + eexists _, _, (evs1 ++ evs2). split; [reflexivity|]. split; [now apply T|].
      split; [exact H12|]. left. eexists. split; [reflexivity|].
      split; [cbn; congruence|discriminate].
    + eexists _, _, (evs1 ++ evs2). split; [reflexivity|]. split; [now apply T|].
      split; [exact H12|]. right.
      eexists _, _, _, _, _, _. split; [reflexivity|]. split; [reflexivity|].
      split; [cbn [store set_store logged set_trace]; rewrite S2, S1; reflexivity|].
      split; [apply computeFinalScore_range|]. split; [reflexivity|].
      right. split; [discriminate|]. exists s2.
      split; [reflexivity|].
      split; [reflexivity|]. split; [reflexivity|]. split; [reflexivity|].
      split; [|split; [reflexivity|split; [reflexivity|exact Hinv]]].
      intros Hcode. rewrite Hcode in Hnil.
      rewrite (Hnil eq_refl). auto.
    + eexists _, _, (evs1 ++ evs2). split; [reflexivity|]. split; [now apply T|].
      split; [exact H12|]. left. eexists. split; [reflexivity|].
      split; [cbn; congruence|discriminate].
Qed.

Lemma fileEvents_afterInsert (evs : list Event) :
  Forall isFileEvent evs -> Forall afterInsert evs.
Proof. apply Forall_impl. intros [] H; try exact I; destruct H. Qed.

Lemma failure_spec (e : Exn) (s : State) :
  exists resp, failure e s = (Returned resp, s) /\ errorBody resp.
Proof.
  unfold failure, json, ret. eexists. split; [reflexivity|].
  split; [reflexivity|]. eexists. reflexivity.
Qed.

Lemma run_ended (env : Env) (store0 : list Analysis.t) :
  exists resp s, run env store0 = (Returned resp, s) /\ Ended env store0 resp s.
Proof.
  unfold run, handler, tryCatch, analyzeRepository, throw.
  set (s0 := initialState store0).
  assert (Fail0 : forall e, exists resp s,
            failure e s0 = (Returned resp, s) /\ Ended env store0 resp s).
  { intros e. destruct (failure_spec e s0) as (resp & E & Hb).
    exists resp, s0. split; [exact E|]. apply ended_without_record; auto. }
  destruct (authorization env) as [[|c h]|]; cbv beta iota;
    try (apply Fail0).
  unfold bind at 1. unfold await at 1.
  set (s1 := set_trace _ s0).
  assert (Fail1 : forall e, exists resp s,
            failure e s1 = (Returned resp, s) /\ Ended env store0 resp s).
  { intros e. destruct (failure_spec e s1) as (resp & E & Hb).
    exists resp, s1. split; [exact E|]. apply ended_without_record; auto. }
  destruct (getUser env) as [[user_id|]|e] eqn:Eg; cbv beta iota;
    try (apply Fail1).
  unfold bind at 1. unfold await at 1.
  set (s2 := set_trace _ s1).
  assert (Fail2 : forall e, exists resp s,
            failure e s2 = (Returned resp, s) /\ Ended env store0 resp s).
  { intros e. destruct (failure_spec e s2) as (resp & E & Hb).
    exists resp, s2. split; [exact E|]. apply ended_without_record; auto. }
  destruct (insertAnalysis env) as [[id|message]|e] eqn:Ei; cbv beta iota;
    try (apply Fail2).
  unfold bind at 1. unfold modify at 1.
  set (s3 := set_store _ s2).
  unfold bind at 1. unfold await at 1.
  set (s4 := set_trace _ s3).
  assert (Fail : forall e s evs,
            store s = store0 ++ [pendingRow id user_id (repoUrl env)] ->
            trace s = AuthGetUser :: InsertAnalysis pending :: evs ->
            Forall afterInsert evs ->
            exists resp s', failure e s = (Returned resp, s') /\ Ended env store0 resp s').
  { intros e s evs Hs Ht He. destruct (failure_spec e s) as (resp & E & Hb).
    exists resp, s. split; [exact E|]. eapply ended_failed; eauto. }
  destruct (fetchRepo env) as [[repoData|status]|e] eqn:Er; cbv beta iota;
    try (apply (Fail _ s4 [FetchRepo]); [reflexivity|reflexivity|repeat constructor]).
  unfold bind at 1. unfold await at 1.
  set (s5 := set_trace _ s4).
  destruct (fetchTree env) as [[tree|status]|e] eqn:Et; cbv beta iota;
    try (apply (Fail _ s5 [FetchRepo; FetchTree]);
         [reflexivity|reflexivity|repeat constructor]).
  destruct (analyzeTree_spec env id repoData tree s5)
    as (out & s6 & evs & E & T & Hev & Hout).
  rewrite E.
  assert (Hevs : Forall afterInsert
                   (FetchRepo :: FetchTree :: evs ++ [UpdateAnalysis id completed])).
  { repeat constructor. apply Forall_app. split.
    - now apply fileEvents_afterInsert.
    - repeat constructor. }
  assert (T6 : trace s6 = AuthGetUser :: InsertAnalysis pending
                          :: FetchRepo :: FetchTree
                          :: evs ++ [UpdateAnalysis id completed]).
  { rewrite T. reflexivity. }
  destruct Hout as [(e & -> & S6 & _)|(score & summary & sugg & tech & ins & resp
                                       & -> & Eu & S6 & Hscore & Hcode & Hbody)].
  - apply (Fail e s6 (FetchRepo :: FetchTree :: evs ++ [UpdateAnalysis id completed]));
      auto.
  - exists resp, s6. split; [reflexivity|].
    eapply ended_completed; eauto.
    destruct Hbody as [(Ha & Hs & _ & _ & Hb)|(Ha & sm & _ & _ & _ & Hb & _)].
    + left. auto.
    + right. split; [exact Ha|]. eauto.
Qed.

(** ** The record lifecycle *)

Lemma updateRow_In (id : jsstring) (f : Analysis.t -> Analysis.t)
    (rows : list Analysis.t) (row : Analysis.t) :
  In row (updateRow id f rows) ->
  In row rows \/ exists row0, In row0 rows /\ row = f row0.
Proof.
  unfold updateRow. intros H. apply in_map_iff in H.
  destruct H as (row0 & E & Hin).
  destruct (jsstring_eqb (Analysis.id row0) id); subst; eauto.
Qed.

Lemma fetch_after_insert (evs pre post : list Event) (e : Event) :
  Forall afterInsert evs ->
  AuthGetUser :: InsertAnalysis pending :: evs = pre ++ e :: post ->
  isFetch e -> In (InsertAnalysis pending) pre.
Proof.
  intros Hevs E He.
  destruct pre as [|x [|y pre]]; cbn [app] in E.
  - injection E as <- _. destruct He.
  - injection E as _ <- _. destruct He.
  - injection E as <- <- _. right. now left.
Qed.


(** ** Runs without code files *)

Lemma run_reaches_tree (env : Env) (store0 : list Analysis.t)
    (c : jschar) (h : jsstring) (user_id id : jsstring)
    (repoData : GitHubRepoResponse) (tree : list GitHubFile.t) :
  authorization env = Some (c :: h) ->
  getUser env = Returned (Some user_id) ->
  insertAnalysis env = Returned (inl id) ->
  fetchRepo env = Returned (Ok repoData) ->
  fetchTree env = Returned (Ok tree) ->
  run env store0
  = tryCatch (analyzeTree env id repoData tree) failure
      (stateAtTree env store0 id user_id).
Proof.
  intros Ha Hg Hi Hr Ht.
  unfold run, handler, tryCatch, analyzeRepository. rewrite Ha.
  unfold bind, await, modify. rewrite Hg, Hi, Hr, Ht. reflexivity.
Qed.

(** C6. When no code file is classified as relevant the run is no error:
    provided the mandatory stages (authentication, record creation,
    repository and tree fetch, final write) succeed, the answer is a
    success with score 1 and no file analyzed, and the record is
    completed with score 1, an empty insight list and a summary that
    says that nothing was analyzed. *)
Theorem zero_code_files_complete (env : Env) (store0 : list Analysis.t)
    (c : jschar) (h : jsstring) (user_id id : jsstring)
    (repoData : GitHubRepoResponse) (tree : list GitHubFile.t) :
  authorization env = Some (c :: h) ->
  getUser env = Returned (Some user_id) ->
  insertAnalysis env = Returned (inl id) ->
  fetchRepo env = Returned (Ok repoData) ->
  fetchTree env = Returned (Ok tree) ->
  updateAnalysis env = Returned None ->
  codeFiles (allFiles tree) = [] ->
  exists resp s summary sugg tech row,
    run env store0 = (Returned resp, s)
    /\ statusCode resp = 200
    /\ In ("success"%string, JTrue) (body resp)
    /\ In ("score"%string, JNumber 1) (body resp)
    /\ In ("filesAnalyzed"%string, JNumber 0) (body resp)
    /\ store s = updateRow id (completeRow 1 summary sugg tech [])
                   (store0 ++ [pendingRow id user_id (repoUrl env)])
    /\ In row (store s)
    /\ row = completeRow 1 summary sugg tech [] (pendingRow id user_id (repoUrl env))
    /\ Analysis.status row = completed
    /\ Analysis.stack_score row = Some 1%Z
    /\ (summary = noFilesSummary
        \/ exists rest, summary = zeroFilesPrefix repoData ++ rest).
Proof.
  intros Ha Hg Hi Hr Ht Hu Hcode.
  rewrite (run_reaches_tree store0 Ha Hg Hi Hr Ht). unfold tryCatch.
  destruct (analyzeTree_spec env id repoData tree (stateAtTree env store0 id user_id))
    as (out & s & evs & E & _ & _ & Hout).
  rewrite E.
  destruct Hout as [(e & _ & _ & Hne)|(score & summary & sugg & tech & ins & resp
                                        & -> & _ & Hs & _ & Hc & Hbody)];
    [congruence|].
  assert (Hrow : forall sc sm sg tc i,
            In (completeRow sc sm sg tc i (pendingRow id user_id (repoUrl env)))
               (updateRow id (completeRow sc sm sg tc i)
                  (store0 ++ [pendingRow id user_id (repoUrl env)]))).
  { intros. unfold updateRow. rewrite map_app. apply in_or_app. right.
    cbn [List.map pendingRow Analysis.id].
    replace (jsstring_eqb id id) with true by (symmetry; now apply jsstring_eqb_eq).
    now left. }
  destruct Hbody as [(Hall & -> & -> & -> & Hb)|(Hall & sm & -> & -> & -> & Hb & Hsm & _)].
  - eexists resp, s, _, sugg, tech, _.
    split; [reflexivity|]. split; [exact Hc|]. rewrite Hb.
    split; [cbn; auto|]. split; [cbn; auto|]. split; [cbn; auto 6|].
    split; [exact Hs|]. split; [rewrite Hs; apply Hrow|].
    split; [reflexivity|]. split; [reflexivity|]. split; [reflexivity|].
    now left.
  - destruct (Hsm Hcode) as [Hf Hl]. cbn in Hf, Hl.
    rewrite Hf in *.
    assert (Hscore : computeFinalScore (double env) [] (architecturePatterns sm) (frameworks sm)
                       (securityIssues sm) = 1%Z) by reflexivity.
    rewrite Hscore in *.
    eexists resp, s, _, sugg, tech, _.
    split; [reflexivity|]. split; [exact Hc|]. rewrite Hb.
    split; [cbn; auto|]. split; [cbn; auto|]. split; [cbn; auto 6|].
    split; [exact Hs|]. split; [rewrite Hs; apply Hrow|].
    split; [reflexivity|]. split; [reflexivity|]. split; [reflexivity|].
    right. unfold makeSummary, zeroFilesPrefix. rewrite Hf, Hl. cbn [length].
    eexists. rewrite <- !app_assoc. reflexivity.
Qed.

(** ** Sample environments *)

Lemma retry_loop_bounded_witness :
  fst (analyzeFile codeEnv (blob "src/app.ts" 2048) (initialState [])) = Returned None.
Proof.
  apply (retry_loop_bounded codeEnv (blob "src/app.ts" 2048) (initialState [])).
  intros k _. exists hyphenatedReview. split; reflexivity.
Defined.

Lemma cleaning_keeps_inline_hyphens_witness :
  validateResponseFormat (cleanAiResponse hyphenatedReview) = false.
Proof.
  apply cleaning_keeps_inline_hyphens. left.
  exists (str ("SCORE: 8" ++ lineFeed ++ "FILE PURPOSE: A wel")%string),
         (ch "l"),
         (str ("known helper" ++ lineFeed ++
               "TOP 5 ACTIONABLE RECOMMENDATIONS:" ++ lineFeed ++
               "1. Add tests")%string).
  split; reflexivity.
Defined.


Lemma zero_code_files_complete_witness :
  exists resp s, run docsEnv [] = (Returned resp, s) /\ statusCode resp = 200.
Proof.
  destruct (@zero_code_files_complete docsEnv [] (ch "B") (str "earer token")
              (str "user-1") (str "analysis-1")
              {| name := str "widgets"; default_branch := str "main" |}
              [blob "README.md" 900])
    as (resp & s & _ & _ & _ & _ & E & Hc & _); try reflexivity.
  exists resp, s. auto.
Defined.


(** ** The response bodies *)

(** C7. At a repository without any supported file the handler answers
    success with [analysisId], [score] and [filesAnalyzed] only:
    [languages], [frameworks] and [securityIssues] are missing, although
    the success answer of the main path carries them. *)
Theorem zero_files_response_lacks_fields :
  exists resp s,
    run bareEnv [] = (Returned resp, s)
    /\ statusCode resp = 200
    /\ body resp = zeroFilesBody (str "analysis-1")
    /\ keys resp = ["success"; "analysisId"; "score"; "filesAnalyzed"]%string
    /\ ~ In "languages"%string (keys resp)
    /\ ~ In "frameworks"%string (keys resp)
    /\ ~ In "securityIssues"%string (keys resp)
    /\ (exists resp' s',
          run codeEnv [] = (Returned resp', s')
          /\ keys resp' = ["success"; "analysisId"; "score"; "filesAnalyzed";
                           "languages"; "frameworks"; "securityIssues"]%string).
Proof.
  eexists _, _. split; [vm_compute; reflexivity|].
  split; [reflexivity|]. split; [reflexivity|]. split; [reflexivity|].
  split; [cbn; intuition discriminate|].
  split; [cbn; intuition discriminate|].
  split; [cbn; intuition discriminate|].
  eexists _, _. split; [vm_compute; reflexivity|]. reflexivity.
Qed.

(** X20. Every answer of the handler is a 500 with an error string, or a
    200 with [success: true]; the 200 of a run that found relevant files
    has all seven fields. *)
Lemma response_shapes (env : Env) (store0 : list Analysis.t) :
  exists resp s,
    run env store0 = (Returned resp, s)
    /\ (errorBody resp
        \/ (statusCode resp = 200
            /\ In ("success"%string, JTrue) (body resp)
            /\ (keys resp = ["success"; "analysisId"; "score"; "filesAnalyzed"]%string
                \/ keys resp = ["success"; "analysisId"; "score"; "filesAnalyzed";
                                "languages"; "frameworks"; "securityIssues"]%string))).
Proof.
  destruct (run_ended env store0) as (resp & s & E & H).
  exists resp, s. split; [exact E|].
  destruct H as [Hb _ _|? ? ? _ _ Hb _ _ _|? id ? score ? ? ? ? ? _ _ _ Hc _ _ _ _ Hbody];
    [left; exact Hb|left; exact Hb|right].
  split; [exact Hc|]. unfold keys.
  destruct Hbody as [(_ & _ & ->)|(_ & f & l & w & i & ->)]; cbn; auto.
Qed.

(** ** The score of a completed record *)

Lemma stateAtTree_invariants (env : Env) (store0 : list Analysis.t) (id user_id : jsstring) :
  tallied (stateAtTree env store0 id user_id)
  /\ distinct (stateAtTree env store0 id user_id).
Proof. split; [reflexivity|split; constructor]. Qed.

(** A run that reaches the scoring writes, and answers with, the score
    that the formula gives for the insights and the technology profile
    of the same record; the patterns and frameworks counted are distinct,
    and the issues counted are the insights whose review has text in its
    security section. *)
Lemma completed_score (env : Env) (store0 : list Analysis.t)
    (c : jschar) (h : jsstring) (user_id id : jsstring)
    (repoData : GitHubRepoResponse) (tree : list GitHubFile.t) :
  Rounding (double env) ->
  authorization env = Some (c :: h) ->
  getUser env = Returned (Some user_id) ->
  insertAnalysis env = Returned (inl id) ->
  fetchRepo env = Returned (Ok repoData) ->
  fetchTree env = Returned (Ok tree) ->
  updateAnalysis env = Returned None ->
  allFiles tree <> [] ->
  exists resp s score summary sugg tech patterns ins,
    run env store0 = (Returned resp, s)
    /\ In ("score"%string, JNumber score) (body resp)
    /\ In (completeRow score summary sugg tech ins
             (pendingRow id user_id (repoUrl env))) (store s)
    /\ TechStack.architecture_patterns tech = Some patterns
    /\ NoDup patterns /\ NoDup (TechStack.frameworks tech)
    /\ score = spec_aggregateScore (double env) (List.map FileInsight.score ins)
                 (length patterns) (length (TechStack.frameworks tech))
                 (securityCount ins).
Proof.
  intros R Ha Hg Hi Hr Ht Hu Hfiles.
  rewrite (run_reaches_tree store0 Ha Hg Hi Hr Ht). unfold tryCatch.
  destruct (analyzeTree_spec env id repoData tree (stateAtTree env store0 id user_id))
    as (out & s & evs & E & _ & _ & Hout).
  rewrite E.
  destruct Hout as [(e & _ & _ & Hne)|(score & summary & sugg & tech & ins & resp
                                        & -> & _ & Hs & _ & Hc & Hbody)];
    [congruence|].
  destruct Hbody as [(Hall & _)|(_ & sm & -> & -> & _ & Hb & _ & Hfw & Hpat & Htal & Hdis)];
    [congruence|].
  destruct (stateAtTree_invariants env store0 id user_id) as [T0 D0].
  specialize (Htal T0). destruct (Hdis D0) as [Dp Df].
  exists resp, s, (computeFinalScore (double env) (fileInsights sm)
                     (architecturePatterns sm) (frameworks sm) (securityIssues sm)),
    summary, sugg, tech, (architecturePatterns sm), (fileInsights sm).
  split; [reflexivity|]. split; [rewrite Hb; cbn; auto|]. split.
  { rewrite Hs. unfold updateRow. cbn [stateAtTree store logged set_trace set_store].
    rewrite map_app. apply in_or_app. right.
    cbn [List.map pendingRow Analysis.id].
    replace (jsstring_eqb id id) with true by (symmetry; now apply jsstring_eqb_eq).
    now left. }
  split; [exact Hpat|]. split; [exact Dp|]. split; [rewrite Hfw; exact Df|].
  rewrite (formula_refines R), Hfw, Htal. reflexivity.
Qed.



(** ** The addresses asked of the repository host *)

Lemma replaceString_prefix (p s r : jsstring) :
  replaceString (p ++ s) p r = r ++ s.
Proof.
  destruct (p ++ s) as [|c t] eqn:E; cbn [replaceString]; rewrite <- E;
    rewrite startsWith_app, skipn_app, skipn_all, Nat.sub_diag; reflexivity.
Qed.

Lemma replaceString_absent (s p r : jsstring) :
  includes s p = false -> replaceString s p r = s.
Proof.
  induction s as [|c s IH]; intros H.
  - destruct p; [discriminate|reflexivity].
  - rewrite includes_unfold in H. apply orb_false_iff in H. destruct H as [H1 H2].
    cbn [replaceString]. rewrite H1. now rewrite IH.
Qed.

Lemma split1_whole (sep : jschar) (s : jsstring) :
  ~ In sep s -> split1 sep s = [s].
Proof.
  induction s as [|c s IH]; intros H; cbn [split1]; [reflexivity|].
  destruct (N.eqb_spec c sep) as [->|Hc]; [exfalso; apply H; now left|].
  rewrite IH; [reflexivity|]. intros Hin. apply H. now right.
Qed.

Lemma split1_app (sep : jschar) (a b : jsstring) :
  ~ In sep a -> split1 sep (a ++ sep :: b) = a :: split1 sep b.
Proof.
  induction a as [|c a IH]; intros H; cbn [split1 app].
  - now rewrite N.eqb_refl.
  - destruct (N.eqb_spec c sep) as [->|Hc]; [exfalso; apply H; now left|].
    rewrite IH; [reflexivity|]. intros Hin. apply H. now right.
Qed.

(** X1. The addresses asked of the repository host are built from the
    first two segments of what follows [https://github.com/] in the
    request's URL: further segments and a trailing slash are ignored, a
    missing second segment is asked for as [undefined], the path of a
    file is appended as it is, and a URL without that prefix is split as
    a whole. *)
Theorem request_addresses (o r rest branch path : jsstring) :
  ~ In (ch "/") o -> ~ In (ch "/") r ->
  repoApiUrl (github (o ++ str "/" ++ r)) = apiRepos o r
  /\ repoApiUrl (github (o ++ str "/" ++ r ++ str "/" ++ rest)) = apiRepos o r
  /\ treeUrl (github (o ++ str "/" ++ r ++ str "/" ++ rest)) branch
     = apiRepos o r ++ str "/git/trees/" ++ branch ++ str "?recursive=1"
  /\ fileUrl (github (o ++ str "/" ++ r ++ str "/" ++ rest)) path
     = apiRepos o r ++ str "/contents/" ++ path
  /\ repoApiUrl (github o) = apiRepos o (str "undefined")
  /\ (forall url, includes url (str "https://github.com/") = false ->
        repoPath url = url).
Proof.
  intros Ho Hr.
  assert (E2 : forall rest',
            split1 (ch "/") (repoPath (github (o ++ str "/" ++ r ++ str "/" ++ rest')))
            = o :: r :: split1 (ch "/") rest').
  { intros rest'. unfold repoPath, github. rewrite replaceString_prefix.
    cbn [app]. change (str "/" ++ r ++ str "/" ++ rest')
      with (ch "/" :: r ++ ch "/" :: rest').
    rewrite split1_app by exact Ho. now rewrite split1_app by exact Hr. }
  assert (E1 : split1 (ch "/") (repoPath (github (o ++ str "/" ++ r))) = [o; r]).
  { unfold repoPath, github. rewrite replaceString_prefix. cbn [app].
    change (str "/" ++ r) with (ch "/" :: r).
    rewrite split1_app by exact Ho. now rewrite split1_whole by exact Hr. }
  assert (E0 : split1 (ch "/") (repoPath (github o)) = [o]).
  { unfold repoPath, github. rewrite replaceString_prefix. cbn [app].
    now apply split1_whole. }
  unfold repoApiUrl, treeUrl, fileUrl, owner, repo, apiRepos.
  rewrite E1, E2, E0. cbn [nth_error template].
  repeat split; try (rewrite <- ?app_assoc; reflexivity).
  intros url H. now apply replaceString_absent.
Qed.

Lemma request_addresses_witness :
  repoApiUrl (str "https://github.com/acme/widgets/tree/main")
  = str "https://api.github.com/repos/acme/widgets".
Proof.
  apply (@request_addresses (str "acme") (str "widgets") (str "tree/main") [] []);
    cbn; intuition discriminate.
Defined.

(** ** Extensions of the classified files *)

Lemma endsWith_inv (s p : jsstring) :
  endsWith s p = true -> exists pre, s = pre ++ p.
Proof.
  unfold endsWith. intros H. apply startsWith_inv in H. destruct H as (rest & E).
  exists (rev rest). apply (f_equal (@rev jschar)) in E.
  rewrite rev_involutive, rev_app_distr, rev_involutive in E. exact E.
Qed.

Lemma endsWith_app (pre p : jsstring) : endsWith (pre ++ p) p = true.
Proof. unfold endsWith. rewrite rev_app_distr. apply startsWith_app. Qed.

Lemma split1_nonempty (sep : jschar) (s : jsstring) : split1 sep s <> [].
Proof.
  destruct s as [|c s]; cbn [split1]; [discriminate|].
  destruct (N.eqb c sep); [discriminate|]. destruct (split1 sep s); discriminate.
Qed.

Lemma split1_sep_app (sep : jschar) (a b : jsstring) :
  split1 sep (a ++ sep :: b) = split1 sep a ++ split1 sep b.
Proof.
  induction a as [|c a IH]; cbn [app split1].
  - now rewrite N.eqb_refl.
  - rewrite IH. destruct (N.eqb c sep); [reflexivity|].
    pose proof (@split1_nonempty sep a) as H.
    destruct (split1 sep a); [congruence|reflexivity].
Qed.

Lemma last_app_nonempty {A} (l1 l2 : list A) (d : A) :
  l2 <> [] -> last (l1 ++ l2) d = last l2 d.
Proof.
  intros H. induction l1 as [|x l1 IH]; [reflexivity|].
  cbn [app]. destruct (l1 ++ l2) eqn:E.
  - apply app_eq_nil in E. destruct E. congruence.
  - rewrite <- IH. reflexivity.
Qed.

Lemma split1_last (sep : jschar) (a b : jsstring) :
  last (split1 sep (a ++ sep :: b)) [] = last (split1 sep b) [].
Proof. rewrite split1_sep_app. apply last_app_nonempty, split1_nonempty. Qed.

(** The extension of a path that ends with a dot and a name without dot. *)
Lemma fileExtension_suffix (path e : jsstring) :
  endsWith path (ch "." :: e) = true -> e <> [] -> ~ In (ch ".") e ->
  fileExtension path = e.
Proof.
  intros H Hne Hdot. apply endsWith_inv in H. destruct H as (pre & ->).
  unfold fileExtension, pop. rewrite split1_last, split1_whole by exact Hdot.
  cbn [last]. destruct e; [congruence|reflexivity].
Qed.

Lemma dotted_inv (x : jsstring) :
  dotted x = true -> exists e, x = ch "." :: e /\ e <> [] /\ ~ In (ch ".") e.
Proof.
  destruct x as [|c e]; [discriminate|]. cbn [dotted]. intros H.
  apply andb_true_iff in H. destruct H as [H H3].
  apply andb_true_iff in H. destruct H as [H1 H2].
  apply N.eqb_eq in H1. subst c. exists e. split; [reflexivity|]. split.
  - intros ->. discriminate.
  - intros Hin. apply negb_true_iff in H2.
    assert (Ex : existsb (N.eqb (ch ".")) e = true).
    { apply existsb_exists. exists (ch "."). split; [exact Hin|apply N.eqb_refl]. }
    congruence.
Qed.

(** X2. The extension recorded for a code file is its code extension
    without the dot: one of the twenty-four language names, never the
    fallback [unknown], and the path ends with a dot and that name. *)
Theorem code_file_extension (f : GitHubFile.t) :
  isCode f = true ->
  In (fileExtension (GitHubFile.path f)) languageNames
  /\ fileExtension (GitHubFile.path f) <> str "unknown"
  /\ endsWith (GitHubFile.path f) (ch "." :: fileExtension (GitHubFile.path f)) = true.
Proof.
  unfold isCode, someEndsWith. intros H. apply existsb_exists in H.
  destruct H as (x & Hx & Hend).
  assert (Hd : dotted x = true).
  { assert (Hall : forallb dotted codeExtensions = true) by reflexivity.
    rewrite forallb_forall in Hall. now apply Hall. }
  destruct (dotted_inv Hd) as (e & -> & Hne & Hdot).
  rewrite (fileExtension_suffix Hend Hne Hdot).
  split; [|split; [|exact Hend]].
  - unfold languageNames. apply in_map_iff. exists (ch "." :: e). auto.
  - intros ->. revert Hx. vm_compute. intuition discriminate.
Qed.

Lemma code_file_extension_witness : fileExtension (str "src/app.module.ts") = str "ts".
Proof.
  destruct (@code_file_extension appModule) as (H & _); [reflexivity|].
  reflexivity.
Defined.

(** Two suffixes of one text: one is a suffix of the other. *)
Lemma startsWith_comparable (s a b : jsstring) :
  startsWith s a = true -> startsWith s b = true ->
  startsWith a b = true \/ startsWith b a = true.
Proof.
  revert a b. induction s as [|c s IH]; intros a b Ha Hb.
  - destruct a; [|discriminate]. right. apply startsWith_nil.
  - destruct a as [|x a]; [right; apply startsWith_nil|].
    destruct b as [|y b]; [left; apply startsWith_nil|].
    cbn [startsWith] in *. apply andb_true_iff in Ha, Hb.
    destruct Ha as [Ha1 Ha2], Hb as [Hb1 Hb2].
    apply N.eqb_eq in Ha1, Hb1. subst x y. rewrite N.eqb_refl. cbn [andb].
    now apply IH.
Qed.

Lemma endsWith_comparable (s a b : jsstring) :
  endsWith s a = true -> endsWith s b = true ->
  endsWith a b = true \/ endsWith b a = true.
Proof. unfold endsWith. apply startsWith_comparable. Qed.

Lemma apart_spec (xs ys : list jsstring) (s : jsstring) :
  apart xs ys = true -> someEndsWith xs s = true -> someEndsWith ys s = false.
Proof.
  unfold apart, someEndsWith. intros H Hx.
  apply existsb_exists in Hx. destruct Hx as (x & Hx & Ex).
  destruct (existsb (fun name => endsWith s name) ys) eqn:Hy; [|reflexivity].
  apply existsb_exists in Hy. destruct Hy as (y & Hy & Ey).
  rewrite forallb_forall in H. specialize (H x Hx).
  rewrite forallb_forall in H. specialize (H y Hy).
  apply andb_true_iff in H. destruct H as [H1 H2].
  apply negb_true_iff in H1, H2.
  destruct (endsWith_comparable Ex Ey); congruence.
Qed.

(** X3. No file is both a code file and a config file; a document is
    never a code file; and the files that are relevant by [.md], [.rst]
    or [Dockerfile] belong to neither group, so they are listed as
    relevant and never read. *)
Theorem code_and_config_apart (f : GitHubFile.t) :
  (isCode f = true -> isConfig f = false)
  /\ (someEndsWith docExtensions (GitHubFile.path f) = true -> isCode f = false)
  /\ (someEndsWith unreadNames (GitHubFile.path f) = true ->
      isCode f = false /\ isConfig f = false).
Proof.
  split; [|split].
  - unfold isCode, isConfig. intros H.
    rewrite (apart_spec (xs := codeExtensions) (ys := configExtensions) eq_refl H).
    now rewrite (apart_spec (xs := codeExtensions) (ys := manifestNames) eq_refl H).
  - intros H. exact (apart_spec (xs := docExtensions) (ys := codeExtensions) eq_refl H).
  - unfold isCode, isConfig. intros H. split.
    + exact (apart_spec (xs := unreadNames) (ys := codeExtensions) eq_refl H).
    + rewrite (apart_spec (xs := unreadNames) (ys := configExtensions) eq_refl H).
      exact (apart_spec (xs := unreadNames) (ys := manifestNames) eq_refl H).
Qed.

Lemma code_and_config_apart_witness :
  isConfig appModule = false /\ isCode readme = false /\ isConfig readme = false.
Proof.
  destruct (code_and_config_apart appModule) as (H1 & _ & _).
  destruct (code_and_config_apart readme) as (_ & _ & H3).
  split; [apply H1; reflexivity|apply H3; reflexivity].
Defined.

(** ** What a file task does, as a function of the answers it gets *)

Lemma reviewLoop_run (env : Env) (file : GitHubFile.t) (fuel : nat) :
  forall attempts analysis validResponse s,
    3 - attempts <= fuel ->
    reviewLoop env file attempts analysis validResponse s
    = (fst (loopRun env (GitHubFile.path file) fuel attempts analysis validResponse),
       set_trace
         (fun t => t ++ calls file attempts
                          (snd (loopRun env (GitHubFile.path file) fuel attempts
                                  analysis validResponse))) s).
Proof.
  induction fuel as [|fuel IH]; intros attempts analysis validResponse s Hf;
    rewrite reviewLoop_step; cbn [loopRun].
  - replace (attempts <? 3) with false by (symmetry; apply Nat.ltb_ge; lia).
    cbn [andb fst snd]. unfold calls. cbn [seq List.map]. now rewrite set_trace_nil.
  - destruct ((attempts <? 3) && negb validResponse) eqn:C.
    2:{ cbn [fst snd]. unfold calls. cbn [seq List.map]. now rewrite set_trace_nil. }
    destruct (groq env (GitHubFile.path file) attempts) as [[content|status]|e].
    + rewrite IH.
      2:{ apply andb_true_iff in C. destruct C as [C _]. apply Nat.ltb_lt in C. lia. }
      destruct (loopRun env (GitHubFile.path file) fuel (attempts + 1)
                  (cleanAiResponse content)
                  (validateResponseFormat (cleanAiResponse content))) as [exit n].
      cbn [fst snd]. now rewrite reviewed_calls.
    + reflexivity.
    + reflexivity.
Qed.

Lemma loopRun_bound (env : Env) (path : jsstring) (fuel : nat) :
  forall attempts analysis validResponse,
    snd (loopRun env path fuel attempts analysis validResponse) <= fuel.
Proof.
  induction fuel as [|fuel IH]; intros attempts analysis validResponse; cbn [loopRun];
    [apply le_n|].
  destruct ((attempts <? 3) && negb validResponse); cbn [snd]; [|lia].
  destruct (groq env path attempts) as [[content|status]|e]; cbn [snd]; try lia.
  specialize (IH (attempts + 1) (cleanAiResponse content)
                (validateResponseFormat (cleanAiResponse content))).
  destruct (loopRun env path fuel (attempts + 1) (cleanAiResponse content)
              (validateResponseFormat (cleanAiResponse content))).
  cbn [snd] in *. lia.
Qed.

(** An exit of the loop with a valid response carries a text that passed
    the validation. *)
Lemma loopRun_valid (env : Env) (path : jsstring) (fuel : nat) :
  forall attempts analysis validResponse a text,
    fst (loopRun env path fuel attempts analysis validResponse)
    = Returned (Some (a, text, true)) ->
    (validResponse = true /\ text = analysis)
    \/ validateResponseFormat text = true.
Proof.
  induction fuel as [|fuel IH]; intros attempts analysis validResponse a text;
    cbn [loopRun].
  - cbn [fst]. intros [= _ <- ->]. now left.
  - destruct ((attempts <? 3) && negb validResponse).
    2:{ cbn [fst]. intros [= _ <- ->]. now left. }
    destruct (groq env path attempts) as [[content|status]|e]; try discriminate.
    specialize (IH (attempts + 1) (cleanAiResponse content)
                  (validateResponseFormat (cleanAiResponse content)) a text).
    destruct (loopRun env path fuel (attempts + 1) (cleanAiResponse content)
                (validateResponseFormat (cleanAiResponse content))).
    cbn [fst] in *. intros H. destruct (IH H) as [[Hv ->]|Hv]; right; assumption.
Qed.

(** The state after the task of a file, field by field. *)
Lemma analyzeFile_run (env : Env) (file : GitHubFile.t) (s : State) :
  exists s',
    analyzeFile env file s = (Returned (insightOf env file), s')
    /\ store s' = store s
    /\ fileInsights s' = fileInsights s
    /\ trace s' = trace s ++ FetchContent (GitHubFile.path file)
                          :: calls file 0 (reviewCalls env file)
    /\ languageStats s'
       = match received env file with
         | Some _ => bump (fileExtension (GitHubFile.path file)) (languageStats s)
         | None => languageStats s
         end.
Proof.
  unfold analyzeFile, tryCatch, insightOf, reviewOf, reviewCalls, received, hasKey.
  unfold bind at 1. unfold await.
  set (s0 := set_trace (fun t => t ++ [FetchContent (GitHubFile.path file)]) s).
  assert (Quit : exists s',
            (Returned (@None FileInsight.t), s0) = (Returned None, s')
            /\ store s' = store s /\ fileInsights s' = fileInsights s
            /\ trace s' = trace s ++ FetchContent (GitHubFile.path file) :: calls file 0 0
            /\ languageStats s' = languageStats s).
  { exists s0. repeat split. }
  destruct (fetchContent env (GitHubFile.path file)) as [[[[|c content]|]|status]|e];
    try exact Quit.
  clear Quit. unfold bind at 1. unfold modify.
  fold (fileExtension (GitHubFile.path file)).
  set (s1 := set_languageStats _ s0). unfold bind at 1.
  destruct (keeps_detectFromCode (decodeBase64 env (c :: content)) s1)
    as ([] & s2 & E2 & S2 & T2 & F2 & L2).
  rewrite E2.
  destruct (GROQ_API_KEY env) as [[|k key]|].
  1,3: exists s2; split; [reflexivity|]; split; [rewrite S2; reflexivity|];
       split; [rewrite F2; reflexivity|]; split; [rewrite T2; reflexivity|];
       rewrite L2; reflexivity.
  unfold bind at 1. rewrite (@reviewLoop_run env file 3 0 [] false s2 (le_n _)).
  destruct (loopRun env (GitHubFile.path file) 3 0 [] false) as [exit n].
  cbn [fst snd]. set (s3 := set_trace _ s2).
  assert (S3 : store s3 = store s) by (subst s3; cbn; rewrite S2; reflexivity).
  assert (F3 : fileInsights s3 = fileInsights s) by (subst s3; cbn; rewrite F2; reflexivity).
  assert (L3 : languageStats s3
               = bump (fileExtension (GitHubFile.path file)) (languageStats s))
    by (subst s3; cbn; rewrite L2; reflexivity).
  assert (T3 : trace s3 = trace s ++ FetchContent (GitHubFile.path file) :: calls file 0 n).
  { subst s3. unfold set_trace. cbn [trace]. rewrite T2. subst s1 s0. cbn [trace set_trace set_languageStats].
    rewrite <- app_assoc. reflexivity. }
  destruct exit as [[[[a an] [|]]|]|e]; cbn [negb];
    try (exists s3; repeat split; assumption).
  unfold recordReview. cbv zeta.
  set (m1 := match sectionText re_quality an with
             | Some t => _ | None => _ end).
  set (m2 := match sectionText re_security an with
             | Some t => _ | None => _ end).
  set (m3 := match sectionText re_recommendations an with
             | Some t => _ | None => _ end).
  assert (K1 : keeps m1) by (subst m1; keeps_tac).
  assert (K2 : keeps m2) by (subst m2; keeps_tac).
  assert (K3 : keeps m3) by (subst m3; keeps_tac).
  destruct (K1 s3) as ([] & s4 & E4 & S4 & T4 & F4 & L4).
  destruct (K2 s4) as ([] & s5 & E5 & S5 & T5 & F5 & L5).
  destruct (K3 s5) as ([] & s6 & E6 & S6 & T6 & F6 & L6).
  exists s6. unfold bind. rewrite E4, E5, E6. unfold ret.
  split; [reflexivity|]. repeat split; congruence.
Qed.

(** ** The state in which the score is computed *)

Lemma mapM_analyzeFile_run (env : Env) (batch : list GitHubFile.t) :
  forall s, exists s',
    mapM (analyzeFile env) batch s = (Returned (List.map (insightOf env) batch), s')
    /\ store s' = store s
    /\ fileInsights s' = fileInsights s
    /\ trace s' = trace s ++ flat_map (fileEvents env) batch
    /\ languageStats s' = countLanguages env batch (languageStats s).
Proof.
  induction batch as [|f batch IH]; intros s; cbn [mapM].
  - exists s. cbn. rewrite app_nil_r. auto.
  - unfold bind at 1.
    destruct (analyzeFile_run env f s) as (s1 & E & S1 & F1 & T1 & L1).
    rewrite E. unfold bind at 1.
    destruct (IH s1) as (s2 & E2 & S2 & F2 & T2 & L2).
    rewrite E2. unfold ret. exists s2.
    split; [reflexivity|]. split; [congruence|]. split; [congruence|]. split.
    + rewrite T2, T1. cbn [flat_map]. unfold fileEvents at 2.
      rewrite <- app_assoc. reflexivity.
    + rewrite L2, L1. reflexivity.
Qed.

Lemma batches_states (env : Env) (bs : list (list GitHubFile.t)) :
  forall s, exists s',
    forEach bs (processBatch env) s = (Returned tt, s')
    /\ store s' = store s
    /\ fileInsights s'
       = fileInsights s ++ validResults (List.map (insightOf env) (concat bs))
    /\ trace s' = trace s ++ flat_map (fileEvents env) (concat bs)
    /\ languageStats s' = countLanguages env (concat bs) (languageStats s).
Proof.
  assert (V : forall a b : list (option FileInsight.t),
            validResults (a ++ b) = validResults a ++ validResults b).
  { induction a as [|[r|] a IHa]; intros b; cbn [app validResults];
      [reflexivity| |]; now rewrite IHa. }
  induction bs as [|b bs IH]; intros s; cbn [forEach].
  - exists s. cbn. rewrite !app_nil_r. auto.
  - unfold bind at 1. unfold processBatch at 1. unfold bind at 1.
    destruct (mapM_analyzeFile_run env b s) as (s1 & E1 & S1 & F1 & T1 & L1).
    rewrite E1. unfold modify.
    set (s1' := set_fileInsights _ s1).
    destruct (IH s1') as (s2 & E2 & S2 & F2 & T2 & L2).
    rewrite E2. exists s2. split; [reflexivity|].
    split; [rewrite S2; subst s1'; cbn; exact S1|]. split.
    + rewrite F2. subst s1'. cbn [fileInsights set_fileInsights concat].
      rewrite F1, map_app, V, <- app_assoc. reflexivity.
    + split.
      * rewrite T2. subst s1'. cbn [trace set_fileInsights concat].
        rewrite T1, flat_map_app, <- app_assoc. reflexivity.
      * rewrite L2. subst s1'. cbn [languageStats set_fileInsights concat].
        rewrite L1. unfold countLanguages. now rewrite fold_left_app.
Qed.

Lemma configs_states (env : Env) (files : list GitHubFile.t) :
  forall s, exists s',
    forEach files (analyzeConfig env) s = (Returned tt, s')
    /\ store s' = store s
    /\ fileInsights s' = fileInsights s
    /\ languageStats s' = languageStats s
    /\ trace s' = trace s
                  ++ List.map (fun f => FetchContent (GitHubFile.path f)) files.
Proof.
  induction files as [|f files IH]; intros s; cbn [forEach].
  - exists s. cbn. rewrite app_nil_r. auto.
  - unfold bind at 1.
    destruct (analyzeConfig_spec env f s) as (s1 & E1 & S1 & F1 & L1 & T1).
    rewrite E1. destruct (IH s1) as (s2 & E2 & S2 & F2 & L2 & T2).
    exists s2. rewrite E2.
    split; [reflexivity|]. split; [congruence|]. split; [congruence|].
    split; [congruence|]. rewrite T2, T1, <- app_assoc. reflexivity.
Qed.

Lemma batches_concat (l : list GitHubFile.t) : concat (batches l) = l.
Proof. unfold batches. now rewrite (@batchesFrom_concat (length l) l 0) by lia. Qed.

(** The lists of the state in which the score is computed. *)
Lemma stateAtScore_spec (env : Env) (store0 : list Analysis.t) (id user_id : jsstring)
    (tree : list GitHubFile.t) :
  let sm := stateAtScore env store0 id user_id tree in
  let codeFiles := codeFiles (allFiles tree) in
  let configFiles := configFiles (allFiles tree) in
  forEach (batches codeFiles) (processBatch env)
    (snd (forEach configFiles (analyzeConfig env) (stateAtTree env store0 id user_id)))
  = (Returned tt, sm)
  /\ forEach configFiles (analyzeConfig env) (stateAtTree env store0 id user_id)
     = (Returned tt,
        snd (forEach configFiles (analyzeConfig env) (stateAtTree env store0 id user_id)))
  /\ store sm = store0 ++ [pendingRow id user_id (repoUrl env)]
  /\ fileInsights sm = validResults (List.map (insightOf env) codeFiles)
  /\ trace sm
     = [AuthGetUser; InsertAnalysis pending; FetchRepo; FetchTree]
       ++ List.map (fun f => FetchContent (GitHubFile.path f)) configFiles
       ++ flat_map (fileEvents env) codeFiles
  /\ languageStats sm = countLanguages env codeFiles []
  /\ tallied sm /\ distinct sm.
Proof.
  cbv zeta. unfold stateAtScore.
  destruct (configs_states env (configFiles (allFiles tree))
              (stateAtTree env store0 id user_id)) as (s1 & E1 & S1 & F1 & L1 & T1).
  destruct (batches_states env (batches (codeFiles (allFiles tree))) s1)
    as (s2 & E2 & S2 & F2 & T2 & L2).
  pose proof (loops_invariant env (configFiles (allFiles tree))
                (batches (codeFiles (allFiles tree)))
                (stateAtTree env store0 id user_id)) as Hinv.
  cbv zeta in Hinv. rewrite E1 in *. cbn [snd] in *. rewrite E2 in *. cbn [snd] in *.
  rewrite batches_concat in *.
  destruct (stateAtTree_invariants env store0 id user_id) as [T0 D0].
  split; [reflexivity|]. split; [reflexivity|].
  split; [rewrite S2, S1; reflexivity|]. split; [rewrite F2, F1; reflexivity|].
  split; [rewrite T2, T1, <- app_assoc; reflexivity|].
  split; [rewrite L2, L1; reflexivity|].
  split; [now apply Hinv|now apply Hinv].
Qed.

(** A run whose mandatory stages succeed on a tree with a relevant file:
    its answer and its final state. *)
Lemma run_scored (env : Env) (store0 : list Analysis.t)
    (c : jschar) (h : jsstring) (user_id id : jsstring)
    (repoData : GitHubRepoResponse) (tree : list GitHubFile.t) :
  authorization env = Some (c :: h) ->
  getUser env = Returned (Some user_id) ->
  insertAnalysis env = Returned (inl id) ->
  fetchRepo env = Returned (Ok repoData) ->
  fetchTree env = Returned (Ok tree) ->
  updateAnalysis env = Returned None ->
  allFiles tree <> [] ->
  let sm := stateAtScore env store0 id user_id tree in
  run env store0
  = (Returned
       {| statusCode := 200;
          body := fullBody id
                    (computeFinalScore (double env) (fileInsights sm)
                       (architecturePatterns sm) (frameworks sm) (securityIssues sm))
                    (length (fileInsights sm)) (length (languageStats sm))
                    (length (frameworks sm)) (length (securityIssues sm)) |},
     set_store (updateRow id (scoredRow env repoData sm))
       (logged (UpdateAnalysis id completed) sm)).
Proof.
  intros Ha Hg Hi Hr Ht Hu Hfiles. cbv zeta.
  rewrite (run_reaches_tree store0 Ha Hg Hi Hr Ht). unfold tryCatch, analyzeTree.
  destruct (allFiles tree) as [|f0 files] eqn:Eall; [congruence|].
  cbn [length Nat.eqb]. rewrite <- Eall.
  destruct (stateAtScore_spec env store0 id user_id tree) as (E2 & E1 & _).
  unfold bind at 1. rewrite E1. unfold bind at 1. rewrite E2.
  unfold bind at 1. unfold gets. unfold bind. rewrite writeCompleted_spec, Hu.
  reflexivity.
Qed.

(** ** Failures of the mandatory stages *)

(** X4. A failure of a mandatory stage (header, authentication, insert,
    repository, tree) ends the run at that stage: the answer is 500 with
    the message of that stage or of the exception thrown, no later call is
    made, no content is fetched and no reviewer is asked, and the table
    is unchanged, or holds the pending row when the insert had succeeded. *)
Theorem mandatory_stage_failure (env : Env) (store0 : list Analysis.t)
    (e : Exn) (evs : list Event) (created : bool) :
  StageFails env e evs created ->
  exists s,
    run env store0 = (Returned (failureResponse e), s)
    /\ trace s = evs
    /\ rowsAfterFailure env store0 created (store s)
    /\ fileInsights s = [].
Proof.
  intros H. unfold run, handler, tryCatch, analyzeRepository.
  destruct H as [[Ha|Ha]
                |e [c [h Ha]] Hg|[c [h Ha]] Hg
                |user_id e [c [h Ha]] Hg Hi|user_id message [c [h Ha]] Hg Hi
                |user_id id e [c [h Ha]] Hg Hi Hr|user_id id status [c [h Ha]] Hg Hi Hr
                |user_id id repoData e [c [h Ha]] Hg Hi Hr Ht
                |user_id id repoData status [c [h Ha]] Hg Hi Hr Ht];
    rewrite Ha; unfold bind, await, modify, throw;
    rewrite ?Hg, ?Hi, ?Hr, ?Ht;
    (eexists; split; [reflexivity|]; split; [reflexivity|];
     split; [|reflexivity]; cbn [rowsAfterFailure]; try reflexivity;
     exists user_id, id; auto).
Qed.

Lemma mandatory_stage_failure_witness :
  exists s,
    run missingEnv []
    = (Returned (failureResponse
                   (Error (str "Repository not found or not accessible: 404"))), s)
    /\ trace s = [AuthGetUser; InsertAnalysis pending; FetchRepo].
Proof.
  destruct (@mandatory_stage_failure missingEnv []
              (Error (str "Repository not found or not accessible: " ++ showNat 404))
              [AuthGetUser; InsertAnalysis pending; FetchRepo] true)
    as (s & E & T & _).
  - apply (@fails_repo_status missingEnv (str "user-1") (str "analysis-1") 404);
      try reflexivity. exists (ch "B"), (str "earer token"). reflexivity.
  - exists s. split; [exact E|exact T].
Defined.

(** ** The record of a completed run *)

Lemma updateRow_last (id : jsstring) (f : Analysis.t -> Analysis.t)
    (rows : list Analysis.t) (row : Analysis.t) :
  Analysis.id row = id -> In (f row) (updateRow id f (rows ++ [row])).
Proof.
  intros <-. unfold updateRow. rewrite map_app. apply in_or_app. right.
  cbn [List.map].
  replace (jsstring_eqb (Analysis.id row) (Analysis.id row)) with true
    by (symmetry; now apply jsstring_eqb_eq).
  now left.
Qed.

(** The run of [Scored]: its answer, and the row it completes. *)
Lemma scored_run (env : Env) (store0 : list Analysis.t) (user_id id : jsstring)
    (repoData : GitHubRepoResponse) (tree : list GitHubFile.t) :
  Scored env user_id id repoData tree ->
  let sm := stateAtScore env store0 id user_id tree in
  exists s,
    run env store0
    = (Returned
         {| statusCode := 200;
            body := fullBody id
                      (computeFinalScore (double env) (fileInsights sm)
                         (architecturePatterns sm) (frameworks sm) (securityIssues sm))
                      (length (fileInsights sm)) (length (languageStats sm))
                      (length (frameworks sm)) (length (securityIssues sm)) |}, s)
    /\ store s = updateRow id (scoredRow env repoData sm)
                   (store0 ++ [pendingRow id user_id (repoUrl env)])
    /\ In (scoredRow env repoData sm (pendingRow id user_id (repoUrl env))) (store s)
    /\ trace s = trace sm ++ [UpdateAnalysis id completed].
Proof.
  intros ((c & h & Ha) & Hg & Hi & Hr & Ht & Hu & Hfiles). cbv zeta.
  eexists. split; [apply (run_scored store0 Ha Hg Hi Hr Ht Hu Hfiles)|].
  destruct (stateAtScore_spec env store0 id user_id tree) as (_ & _ & S & _).
  cbn [store set_store logged set_trace trace]. rewrite S.
  split; [reflexivity|]. split; [|reflexivity]. now apply updateRow_last.
Qed.

Lemma validResults_map (env : Env) (files : list GitHubFile.t) :
  List.map FileInsight.file (validResults (List.map (insightOf env) files))
  = List.map GitHubFile.path (filter (isReviewed env) files).
Proof.
  induction files as [|f files IH]; [reflexivity|].
  cbn [List.map filter]. unfold isReviewed at 1, insightOf at 1.
  destruct (reviewOf env f); cbn [validResults List.map]; now rewrite IH.
Qed.

Lemma validResults_In (env : Env) (files : list GitHubFile.t) (r : FileInsight.t) :
  In r (validResults (List.map (insightOf env) files)) ->
  exists f, In f files /\ insightOf env f = Some r.
Proof.
  induction files as [|f files IH]; [intros []|].
  cbn [List.map]. destruct (insightOf env f) as [r'|] eqn:E; cbn [validResults].
  - intros [<-|H]; [exists f; split; [now left|exact E]|].
    destruct (IH H) as (f' & Hf & Ef). exists f'. split; [now right|exact Ef].
  - intros H. destruct (IH H) as (f' & Hf & Ef). exists f'. split; [now right|exact Ef].
Qed.

Lemma fileScore_range (analysis : jsstring) : (1 <= fileScore analysis <= 10)%Z.
Proof. unfold fileScore. destruct (match1 flags_i re_score analysis); lia. Qed.

Lemma reviewOf_valid (env : Env) (file : GitHubFile.t) (analysis : jsstring) :
  reviewOf env file = Some analysis -> validateResponseFormat analysis = true.
Proof.
  unfold reviewOf. destruct (received env file); [|discriminate].
  destruct (hasKey env); [|discriminate].
  destruct (fst (loopRun env (GitHubFile.path file) 3 0 [] false))
    as [[[[a an] [|]]|]|e] eqn:E; try discriminate.
  intros [= <-]. destruct (loopRun_valid E) as [[Hv _]|Hv]; [discriminate|exact Hv].
Qed.

(** X5. The file insights of a completed record are those of the code
    files whose task got a validated review, one for each, in the order
    of the tree; the answer counts them as [filesAnalyzed], and they are
    no more than the code files. *)
Theorem insights_in_tree_order (env : Env) (store0 : list Analysis.t)
    (user_id id : jsstring) (repoData : GitHubRepoResponse) (tree : list GitHubFile.t) :
  Scored env user_id id repoData tree ->
  exists resp s row ins,
    run env store0 = (Returned resp, s)
    /\ In row (store s)
    /\ Analysis.id row = id
    /\ Analysis.status row = completed
    /\ Analysis.file_insights row = Some ins
    /\ List.map FileInsight.file ins
       = List.map GitHubFile.path (filter (isReviewed env) (codeFiles (allFiles tree)))
    /\ In ("filesAnalyzed"%string, JNumber (Z.of_nat (length ins))) (body resp)
    /\ length ins <= length (codeFiles (allFiles tree)).
Proof.
  intros H. destruct (scored_run store0 H) as (s & E & _ & Hrow & _).
  destruct (stateAtScore_spec env store0 id user_id tree) as (_ & _ & _ & F & _).
  cbv zeta in F.
  eexists _, s, _, (fileInsights (stateAtScore env store0 id user_id tree)).
  split; [exact E|]. split; [exact Hrow|]. split; [reflexivity|].
  split; [reflexivity|]. split; [reflexivity|].
  assert (M : List.map FileInsight.file
                (fileInsights (stateAtScore env store0 id user_id tree))
              = List.map GitHubFile.path (filter (isReviewed env) (codeFiles (allFiles tree)))).
  { rewrite F. apply validResults_map. }
  split; [exact M|]. split; [cbn; auto|].
  rewrite <- (length_map FileInsight.file), M, length_map. apply filter_length_le.
Qed.

(** X6. Every file insight of a completed record belongs to a code file
    of the tree, whose path and size it carries, with the language name
    of that file as its extension; its text passed the validation, so it
    has none of the characters [* # _ -]; and its score is the one
    extracted from that text, between 1 and 10. *)
Theorem insights_validated (env : Env) (store0 : list Analysis.t)
    (user_id id : jsstring) (repoData : GitHubRepoResponse) (tree : list GitHubFile.t) :
  Scored env user_id id repoData tree ->
  exists resp s row ins,
    run env store0 = (Returned resp, s)
    /\ In row (store s)
    /\ Analysis.id row = id
    /\ Analysis.file_insights row = Some ins
    /\ forall r, In r ins ->
         (exists f, In f tree /\ isRelevant f = true /\ isCode f = true
                    /\ FileInsight.file r = GitHubFile.path f
                    /\ FileInsight.size r = GitHubFile.size f)
         /\ In (FileInsight.extension r) languageNames
         /\ validateResponseFormat (FileInsight.analysis r) = true
         /\ (forall c, In c (FileInsight.analysis r) -> isForbidden c = false)
         /\ FileInsight.score r = fileScore (FileInsight.analysis r)
         /\ (1 <= FileInsight.score r <= 10)%Z.
Proof.
  intros H. destruct (scored_run store0 H) as (s & E & _ & Hrow & _).
  destruct (stateAtScore_spec env store0 id user_id tree) as (_ & _ & _ & F & _).
  cbv zeta in F.
  eexists _, s, _, (fileInsights (stateAtScore env store0 id user_id tree)).
  split; [exact E|]. split; [exact Hrow|]. split; [reflexivity|].
  split; [reflexivity|].
  intros r Hr. rewrite F in Hr. apply validResults_In in Hr.
  destruct Hr as (f & Hf & Ef). unfold codeFiles, allFiles in Hf.
  apply filter_In in Hf. destruct Hf as [Hf Hcode].
  apply filter_In in Hf. destruct Hf as [Hf Hrel].
  unfold insightOf in Ef. destruct (reviewOf env f) as [analysis|] eqn:Er; [|discriminate].
  injection Ef as <-. cbn [FileInsight.file FileInsight.size FileInsight.extension
                           FileInsight.analysis FileInsight.score].
  pose proof (reviewOf_valid Er) as Hv.
  split; [exists f; auto|]. split; [now apply code_file_extension|].
  split; [exact Hv|]. split.
  - intros c Hc. destruct (isForbidden c) eqn:Hb; [|reflexivity].
    rewrite (forbidden_invalid Hc Hb) in Hv. discriminate.
  - split; [reflexivity|apply fileScore_range].
Qed.

Lemma reviewedEnv_scored :
  Scored reviewedEnv (str "user-1") (str "analysis-1")
    {| name := str "widgets"; default_branch := str "main" |} [blob "src/app.ts" 2048].
Proof.
  split; [exists (ch "B"), (str "earer token"); reflexivity|].
  repeat (split; [reflexivity|]). discriminate.
Qed.

Lemma insights_in_tree_order_witness :
  exists resp s,
    run reviewedEnv [] = (Returned resp, s)
    /\ In ("filesAnalyzed"%string, JNumber 1) (body resp).
Proof.
  destruct (insights_in_tree_order [] reviewedEnv_scored)
    as (resp & s & row & ins & E & _ & _ & _ & _ & M & Hb & _).
  exists resp, s. split; [exact E|].
  apply (f_equal (@length jsstring)) in M. rewrite !length_map in M.
  assert (L : length ins = 1) by (rewrite M; vm_compute; reflexivity).
  rewrite L in Hb. exact Hb.
Defined.

Lemma insights_validated_witness :
  exists resp s row ins,
    run reviewedEnv [] = (Returned resp, s)
    /\ In row (store s)
    /\ Analysis.file_insights row = Some ins
    /\ Forall (fun r => validateResponseFormat (FileInsight.analysis r) = true) ins.
Proof.
  destruct (insights_validated [] reviewedEnv_scored)
    as (resp & s & row & ins & E & Hrow & _ & Hins & Hall).
  exists resp, s, row, ins. split; [exact E|]. split; [exact Hrow|].
  split; [exact Hins|]. apply Forall_forall. intros r Hr. now apply Hall.
Defined.

(** ** The external calls of a run *)

(** The calls of a run that reaches the tree, whatever the final update
    answers. *)
Lemma run_at_tree (env : Env) (store0 : list Analysis.t) (user_id id : jsstring)
    (repoData : GitHubRepoResponse) (tree : list GitHubFile.t) :
  ReachesTree env user_id id repoData tree ->
  exists resp s,
    run env store0 = (Returned resp, s)
    /\ trace s
       = [AuthGetUser; InsertAnalysis pending; FetchRepo; FetchTree]
         ++ List.map (fun f => FetchContent (GitHubFile.path f))
              (configFiles (allFiles tree))
         ++ flat_map (fileEvents env) (codeFiles (allFiles tree))
         ++ [UpdateAnalysis id completed]
    /\ match updateFailure env with
       | Some e =>
           resp = failureResponse e
           /\ store s = store0 ++ [pendingRow id user_id (repoUrl env)]
       | None => statusCode resp = 200
       end.
Proof.
  intros ((c & h & Ha) & Hg & Hi & Hr & Ht).
  rewrite (run_reaches_tree store0 Ha Hg Hi Hr Ht). unfold tryCatch, analyzeTree.
  destruct (allFiles tree) as [|f0 files] eqn:Eall.
  - cbn [length Nat.eqb]. unfold bind. rewrite writeCompleted_spec.
    unfold updateFailure, failure, json, ret, codeFiles, configFiles.
    destruct (updateAnalysis env) as [[message|]|e]; cbn [filter List.map flat_map app];
      eexists _, _; (split; [reflexivity|]); (split; [reflexivity|]);
      try reflexivity; split; reflexivity.
  - cbn [length Nat.eqb]. rewrite <- Eall.
    destruct (stateAtScore_spec env store0 id user_id tree)
      as (E2 & E1 & S & _ & T & _).
    cbv zeta in *.
    unfold bind at 1. rewrite E1. unfold bind at 1. rewrite E2.
    unfold bind at 1. unfold gets. unfold bind. rewrite writeCompleted_spec.
    unfold updateFailure, failure, json, ret.
    destruct (updateAnalysis env) as [[message|]|e];
      eexists _, _; (split; [reflexivity|]);
      cbn [trace store set_store logged set_trace]; rewrite T, ?S, <- ?app_assoc;
      (split; [reflexivity|]); try reflexivity; split; reflexivity.
Qed.

Lemma count_app (p : Event -> bool) (a b : list Event) :
  count p (a ++ b) = count p a + count p b.
Proof. unfold count. now rewrite filter_app, length_app. Qed.

Lemma count_calls (file : GitHubFile.t) (from n : nat) :
  count isReviewCall (calls file from n) = n
  /\ count isContentFetch (calls file from n) = 0.
Proof.
  unfold calls, count. revert from.
  induction n as [|n IH]; intros from; cbn [seq List.map filter isReviewCall
                                             isContentFetch length]; [auto|].
  destruct (IH (S from)) as [H1 H2]. now rewrite H1, H2.
Qed.

Lemma reviewCalls_bound (env : Env) (file : GitHubFile.t) : reviewCalls env file <= 3.
Proof.
  unfold reviewCalls. destruct (received env file); [|lia].
  destruct (hasKey env); [apply loopRun_bound|lia].
Qed.

Lemma count_fileEvents (env : Env) (files : list GitHubFile.t) :
  count isContentFetch (flat_map (fileEvents env) files) = length files
  /\ count isReviewCall (flat_map (fileEvents env) files)
     = list_sum (List.map (reviewCalls env) files)
  /\ list_sum (List.map (reviewCalls env) files) <= 3 * length files.
Proof.
  induction files as [|f files (IH1 & IH2 & IH3)]; [repeat split; auto|].
  cbn [flat_map List.map list_sum length]. rewrite !count_app, IH1, IH2.
  unfold fileEvents.
  change (FetchContent (GitHubFile.path f) :: calls f 0 (reviewCalls env f))
    with ([FetchContent (GitHubFile.path f)] ++ calls f 0 (reviewCalls env f)).
  rewrite !count_app.
  destruct (count_calls f 0 (reviewCalls env f)) as [-> ->].
  pose proof (reviewCalls_bound env f).
  change (count isContentFetch [FetchContent (GitHubFile.path f)]) with 1.
  change (count isReviewCall [FetchContent (GitHubFile.path f)]) with 0.
  unfold list_sum in *. cbn [fold_right]. repeat split; lia.
Qed.

Lemma count_configs (files : list GitHubFile.t) :
  count isContentFetch (List.map (fun f => FetchContent (GitHubFile.path f)) files)
  = length files
  /\ count isReviewCall (List.map (fun f => FetchContent (GitHubFile.path f)) files)
     = 0.
Proof.
  unfold count. induction files as [|f files [IH1 IH2]]; [auto|].
  cbn [List.map filter isContentFetch isReviewCall length]. now rewrite IH1.
Qed.

Lemma count_run (p : Event -> bool) (id : jsstring) (a b : list Event) :
  p AuthGetUser = false -> p (InsertAnalysis pending) = false ->
  p FetchRepo = false -> p FetchTree = false ->
  p (UpdateAnalysis id completed) = false ->
  count p ([AuthGetUser; InsertAnalysis pending; FetchRepo; FetchTree]
           ++ a ++ b ++ [UpdateAnalysis id completed])
  = count p a + count p b.
Proof.
  intros H1 H2 H3 H4 H5. rewrite !count_app. unfold count at 1 4.
  cbn [filter]. rewrite H1, H2, H3, H4, H5. cbn [length]. lia.
Qed.

(** X7. A run that reaches the tree asks for the content of each config
    file and of each code file once, asks the reviewer at most three
    times for each code file, and makes the final update once, whatever
    the host, the reviewer and the update answer. *)
Theorem external_calls_bounded (env : Env) (store0 : list Analysis.t)
    (user_id id : jsstring) (repoData : GitHubRepoResponse) (tree : list GitHubFile.t) :
  ReachesTree env user_id id repoData tree ->
  exists resp s,
    run env store0 = (Returned resp, s)
    /\ count isContentFetch (trace s)
       = length (configFiles (allFiles tree)) + length (codeFiles (allFiles tree))
    /\ count isReviewCall (trace s)
       = list_sum (List.map (reviewCalls env) (codeFiles (allFiles tree)))
    /\ count isReviewCall (trace s) <= 3 * length (codeFiles (allFiles tree))
    /\ length (trace s)
       = 5 + count isContentFetch (trace s) + count isReviewCall (trace s).
Proof.
  intros H. destruct (run_at_tree store0 H) as (resp & s & E & T & _).
  exists resp, s. split; [exact E|]. rewrite T.
  destruct (count_fileEvents env (codeFiles (allFiles tree))) as (F1 & F2 & F3).
  destruct (count_configs (configFiles (allFiles tree))) as (C1 & C2).
  assert (L : length (flat_map (fileEvents env) (codeFiles (allFiles tree)))
              = length (codeFiles (allFiles tree))
                + list_sum (List.map (reviewCalls env) (codeFiles (allFiles tree)))).
  { clear. induction (codeFiles (allFiles tree)) as [|f files IH]; [reflexivity|].
    cbn [flat_map List.map length]. rewrite length_app, IH.
    unfold fileEvents, calls, list_sum. cbn [length fold_right].
    rewrite length_map, length_seq. lia. }
  rewrite !count_app, !length_app, length_map, L, F1, F2, C1, C2.
  change (count isContentFetch [AuthGetUser; InsertAnalysis pending; FetchRepo; FetchTree])
    with 0.
  change (count isReviewCall [AuthGetUser; InsertAnalysis pending; FetchRepo; FetchTree])
    with 0.
  change (count isContentFetch [UpdateAnalysis id completed]) with 0.
  change (count isReviewCall [UpdateAnalysis id completed]) with 0.
  cbn [length]. repeat split; lia.
Qed.

Lemma reviewedEnv_reachesTree :
  ReachesTree reviewedEnv (str "user-1") (str "analysis-1")
    {| name := str "widgets"; default_branch := str "main" |} [blob "src/app.ts" 2048].
Proof.
  split; [exists (ch "B"), (str "earer token"); reflexivity|].
  repeat split; reflexivity.
Qed.

Lemma external_calls_bounded_witness :
  exists resp s,
    run reviewedEnv [] = (Returned resp, s)
    /\ count isContentFetch (trace s) = 1
    /\ count isReviewCall (trace s) = 1.
Proof.
  destruct (external_calls_bounded [] reviewedEnv_reachesTree)
    as (resp & s & E & F & R & _).
  exists resp, s. split; [exact E|]. split; [exact F|]. rewrite R. reflexivity.
Defined.

(** ** The files a run asks about *)

Lemma calls_In (file : GitHubFile.t) (from n : nat) (e : Event) :
  In e (calls file from n) ->
  exists k, e = ReviewCall (GitHubFile.path file) k /\ from <= k < from + n.
Proof.
  unfold calls. intros H. apply in_map_iff in H. destruct H as (k & <- & Hk).
  apply in_seq in Hk. now exists k.
Qed.

(** X8. A run asks for the content only of files of the tree that passed
    the exclusion rules (blobs of at most 100,000 bytes outside
    [node_modules], [.git], [dist/] and [build/]) and are code or config
    files; and it asks the reviewer only about code files whose content
    it received, with the key present, in attempts 0, 1 and 2. *)
Theorem calls_only_for_relevant_files (env : Env) (store0 : list Analysis.t)
    (user_id id : jsstring) (repoData : GitHubRepoResponse) (tree : list GitHubFile.t) :
  ReachesTree env user_id id repoData tree ->
  exists resp s,
    run env store0 = (Returned resp, s)
    /\ (forall path, In (FetchContent path) (trace s) ->
          exists f, In f tree /\ GitHubFile.path f = path
                    /\ GitHubFile.type f = str "blob"
                    /\ (GitHubFile.size f <= 100000)%Z
                    /\ includes path (str "node_modules") = false
                    /\ includes path (str ".git") = false
                    /\ includes path (str "dist/") = false
                    /\ includes path (str "build/") = false
                    /\ (isCode f = true \/ isConfig f = true))
    /\ (forall path attempt, In (ReviewCall path attempt) (trace s) ->
          attempt < 3
          /\ hasKey env = true
          /\ exists f content,
               In f tree /\ GitHubFile.path f = path /\ isCode f = true
               /\ received env f = Some content).
Proof.
  intros H. destruct (run_at_tree store0 H) as (resp & s & E & T & _).
  exists resp, s. split; [exact E|]. rewrite T.
  assert (Rel : forall f, In f (allFiles tree) ->
            In f tree /\ GitHubFile.type f = str "blob"
            /\ (GitHubFile.size f <= 100000)%Z
            /\ includes (GitHubFile.path f) (str "node_modules") = false
            /\ includes (GitHubFile.path f) (str ".git") = false
            /\ includes (GitHubFile.path f) (str "dist/") = false
            /\ includes (GitHubFile.path f) (str "build/") = false).
  { intros f Hf. apply filter_In in Hf. destruct Hf as [Hf Hr].
    destruct (isRelevant_inv Hr) as (H1 & H2 & H3 & H4 & H5 & H6 & _). auto 8. }
  split.
  - intros path Hin. cbn [app] in Hin.
    destruct Hin as [Hin|[Hin|[Hin|[Hin|Hin]]]]; try discriminate.
    apply in_app_or in Hin. destruct Hin as [Hin|Hin].
    + apply in_map_iff in Hin. destruct Hin as (f & [= <-] & Hf).
      apply filter_In in Hf. destruct Hf as [Hf Hc].
      destruct (Rel f Hf) as (R0 & R1 & R2 & R3 & R4 & R5 & R6).
      exists f. auto 12.
    + apply in_app_or in Hin. destruct Hin as [Hin|[Hin|[]]]; [|discriminate].
      apply in_flat_map in Hin. destruct Hin as (f & Hf & [Hin|Hin]).
      * injection Hin as <-. apply filter_In in Hf. destruct Hf as [Hf Hc].
        destruct (Rel f Hf) as (R0 & R1 & R2 & R3 & R4 & R5 & R6).
        exists f. auto 12.
      * apply calls_In in Hin. destruct Hin as (k & [=] & _).
  - intros path attempt Hin. cbn [app] in Hin.
    destruct Hin as [Hin|[Hin|[Hin|[Hin|Hin]]]]; try discriminate.
    apply in_app_or in Hin. destruct Hin as [Hin|Hin].
    + apply in_map_iff in Hin. destruct Hin as (f & [=] & _).
    + apply in_app_or in Hin. destruct Hin as [Hin|[Hin|[]]]; [|discriminate].
      apply in_flat_map in Hin. destruct Hin as (f & Hf & [Hin|Hin]); [discriminate|].
      apply calls_In in Hin. destruct Hin as (k & [= -> ->] & Hk).
      pose proof (reviewCalls_bound env f) as Hb.
      apply filter_In in Hf. destruct Hf as [Hf Hc].
      destruct (Rel f Hf) as (R0 & _).
      unfold reviewCalls in Hk.
      destruct (received env f) as [content|] eqn:Er; [|lia].
      destruct (hasKey env); [|lia].
      pose proof (loopRun_bound env (GitHubFile.path f) 3 0 [] false) as Hl.
      split; [lia|]. split; [reflexivity|]. exists f, content. auto.
Qed.

Lemma calls_only_for_relevant_files_witness :
  exists resp s,
    run reviewedEnv [] = (Returned resp, s)
    /\ forall path attempt, In (ReviewCall path attempt) (trace s) -> attempt < 3.
Proof.
  destruct (calls_only_for_relevant_files [] reviewedEnv_reachesTree)
    as (resp & s & E & _ & R).
  exists resp, s. split; [exact E|]. intros path attempt Hin.
  destruct (R path attempt Hin) as [Hlt _]. exact Hlt.
Defined.

(** ** Where the retry loop stops *)

Lemma loopRun_skip (env : Env) (file : GitHubFile.t) (k : nat) :
  invalidUntil env file k -> k < 3 ->
  forall d a fuel analysis,
    a + d = k -> d <= fuel ->
    exists analysis',
      loopRun env (GitHubFile.path file) fuel a analysis false
      = (fst (loopRun env (GitHubFile.path file) (fuel - d) k analysis' false),
         d + snd (loopRun env (GitHubFile.path file) (fuel - d) k analysis' false)).
Proof.
  intros Hbad Hk. induction d as [|d IH]; intros a fuel analysis Ha Hf.
  - replace a with k by lia. rewrite Nat.sub_0_r. exists analysis.
    now destruct (loopRun env (GitHubFile.path file) fuel k analysis false).
  - destruct fuel as [|fuel]; [lia|]. cbn [loopRun].
    replace (a <? 3) with true by (symmetry; apply Nat.ltb_lt; lia). cbn [andb negb].
    destruct (Hbad a) as (text & -> & ->); [lia|].
    destruct (IH (a + 1) fuel (cleanAiResponse text)) as (analysis' & ->); [lia|lia|].
    exists analysis'. cbn [Nat.sub]. reflexivity.
Qed.

(** The loop at the first attempt that is not an invalid text. *)
Lemma loopRun_decisive (env : Env) (file : GitHubFile.t) (k : nat) :
  invalidUntil env file k -> k < 3 ->
  loopRun env (GitHubFile.path file) 3 0 [] false
  = match groq env (GitHubFile.path file) k with
    | Returned (Ok text) =>
        if validateResponseFormat (cleanAiResponse text)
        then (Returned (Some (k + 1, cleanAiResponse text, true)), k + 1)
        else (fst (loopRun env (GitHubFile.path file) (2 - k) (k + 1)
                     (cleanAiResponse text) false),
              k + 1 + snd (loopRun env (GitHubFile.path file) (2 - k) (k + 1)
                             (cleanAiResponse text) false))
    | Returned (NotOk _) => (Returned None, k + 1)
    | Thrown e => (Thrown e, k + 1)
    end.
Proof.
  intros Hbad Hk.
  destruct (@loopRun_skip env file k Hbad Hk k 0 3 []) as (analysis' & ->); [lia|lia|].
  replace (3 - k) with (S (2 - k)) by lia. cbn [loopRun].
  replace (k <? 3) with true by (symmetry; apply Nat.ltb_lt; lia). cbn [andb negb].
  destruct (groq env (GitHubFile.path file) k) as [[text|status]|e];
    cbn [fst snd]; try (f_equal; lia).
  destruct (validateResponseFormat (cleanAiResponse text)) eqn:V.
  - destruct (2 - k); cbn [loopRun]; rewrite ?andb_false_r; cbn [fst snd];
      f_equal; lia.
  - destruct (loopRun env (GitHubFile.path file) (2 - k) (k + 1)
                (cleanAiResponse text) false).
    cbn [fst snd]. f_equal. lia.
Qed.

(** X9. The retry loop stops at the first answer that is not a text
    failing the validation.  When that answer, in attempt k of 0, 1, 2,
    is a text that passes, the task returns the insight with that cleaned
    text and the score extracted from it; when it is an HTTP error or an
    exception, the task returns null without another attempt.  In both
    cases the reviewer was asked k + 1 times, and the file insights are
    left to the end of the batch. *)
Theorem loop_stops_at_decisive_answer (env : Env) (file : GitHubFile.t)
    (content : jsstring) (k : nat) (s : State) :
  received env file = Some content -> hasKey env = true ->
  k < 3 -> invalidUntil env file k ->
  (forall text,
     groq env (GitHubFile.path file) k = Returned (Ok text) ->
     validateResponseFormat (cleanAiResponse text) = true ->
     exists s',
       analyzeFile env file s
       = (Returned
            (Some (FileInsight.Make (GitHubFile.path file) (cleanAiResponse text)
                     (fileScore (cleanAiResponse text)) (GitHubFile.size file)
                     (fileExtension (GitHubFile.path file)))), s')
       /\ trace s'
          = trace s ++ FetchContent (GitHubFile.path file) :: calls file 0 (k + 1)
       /\ fileInsights s' = fileInsights s)
  /\ ((exists status, groq env (GitHubFile.path file) k = Returned (NotOk status))
      \/ (exists e, groq env (GitHubFile.path file) k = Thrown e) ->
      exists s',
        analyzeFile env file s = (Returned None, s')
        /\ trace s'
           = trace s ++ FetchContent (GitHubFile.path file) :: calls file 0 (k + 1)
        /\ fileInsights s' = fileInsights s).
Proof.
  intros Hrec Hkey Hk Hbad.
  destruct (analyzeFile_run env file s) as (s' & E & _ & F & T & _).
  unfold insightOf, reviewOf, reviewCalls in *.
  rewrite Hrec, Hkey in *. rewrite (loopRun_decisive Hbad Hk) in *.
  split.
  - intros text G V. rewrite G, V in *. cbn [fst snd] in *. exists s'. auto.
  - intros [(status & G)|(e & G)]; rewrite G in *; cbn [fst snd] in *;
      exists s'; auto.
Qed.

Lemma loop_stops_at_decisive_answer_witness :
  exists r s',
    analyzeFile secondTryEnv (blob "src/app.ts" 2048) (initialState [])
    = (Returned (Some r), s')
    /\ FileInsight.score r = 8%Z
    /\ trace s' = [FetchContent (str "src/app.ts");
                   ReviewCall (str "src/app.ts") 0; ReviewCall (str "src/app.ts") 1].
Proof.
  destruct (@loop_stops_at_decisive_answer secondTryEnv (blob "src/app.ts" 2048)
              (str "import x from 'y'") 1 (initialState [])) as (H & _);
    try reflexivity; [lia| |].
  - intros j Hj. assert (j = 0) by lia. subst j.
    exists hyphenatedReview. split; reflexivity.
  - destruct (H plainReview eq_refl eq_refl) as (s' & E & T & _).
    eexists _, s'. split; [exact E|]. split; [reflexivity|]. exact T.
Defined.

(** ** Outcomes of a run that reaches the tree *)

(** X10. Once the tree is fetched only the final update can fail the
    run: the failures of single files are absorbed.  The answer is 200
    exactly when the update is accepted; when the update reports an error
    or throws, the answer is 500 with its message, and the row of the run
    is left pending although every file was processed. *)
Theorem only_final_update_fails (env : Env) (store0 : list Analysis.t)
    (user_id id : jsstring) (repoData : GitHubRepoResponse) (tree : list GitHubFile.t) :
  ReachesTree env user_id id repoData tree ->
  exists resp s,
    run env store0 = (Returned resp, s)
    /\ (statusCode resp = 200 <-> updateAnalysis env = Returned None)
    /\ (forall e, updateFailure env = Some e ->
          resp = failureResponse e
          /\ store s = store0 ++ [pendingRow id user_id (repoUrl env)]
          /\ count isContentFetch (trace s)
             = length (configFiles (allFiles tree)) + length (codeFiles (allFiles tree)))
    /\ last (trace s) AuthGetUser = UpdateAnalysis id completed.
Proof.
  intros H. destruct (run_at_tree store0 H) as (resp & s & E & T & Hout).
  exists resp, s. split; [exact E|]. split; [|split].
  - unfold updateFailure in Hout.
    destruct (updateAnalysis env) as [[message|]|e]; split; intros Hs;
      try discriminate; try reflexivity; try exact Hout;
      destruct Hout as [-> _]; discriminate.
  - intros e He. rewrite He in Hout. destruct Hout as [-> S].
    split; [reflexivity|]. split; [exact S|]. rewrite T.
    destruct (count_fileEvents env (codeFiles (allFiles tree))) as (F1 & _).
    destruct (count_configs (configFiles (allFiles tree))) as (C1 & _).
    rewrite count_run, F1, C1 by reflexivity. reflexivity.
  - rewrite T, !app_assoc. apply last_last.
Qed.

Lemma only_final_update_fails_witness :
  exists s,
    run refusedEnv []
    = (Returned (failureResponse
                   (Error (str "Failed to update analysis: row level security"))), s)
    /\ store s = [pendingRow (str "analysis-1") (str "user-1") (repoUrl refusedEnv)].
Proof.
  destruct (@only_final_update_fails refusedEnv [] (str "user-1") (str "analysis-1")
              {| name := str "widgets"; default_branch := str "main" |}
              [blob "src/app.ts" 2048])
    as (resp & s & E & _ & Hf & _).
  - split; [exists (ch "B"), (str "earer token"); reflexivity|].
    repeat split; reflexivity.
  - destruct (Hf _ eq_refl) as (-> & S & _). exists s. split; [exact E|exact S].
Defined.

(** X11. Without a reviewer key a run still completes: the content of
    every code file is fetched and its language counted, the reviewer is
    never asked, no file insight is produced, and the record is completed
    with score 1. *)
Theorem missing_key_scores_one (env : Env) (store0 : list Analysis.t)
    (user_id id : jsstring) (repoData : GitHubRepoResponse) (tree : list GitHubFile.t) :
  Scored env user_id id repoData tree ->
  hasKey env = false ->
  exists resp s row tech,
    run env store0 = (Returned resp, s)
    /\ statusCode resp = 200
    /\ In ("score"%string, JNumber 1) (body resp)
    /\ In ("filesAnalyzed"%string, JNumber 0) (body resp)
    /\ In row (store s)
    /\ Analysis.id row = id
    /\ Analysis.status row = completed
    /\ Analysis.stack_score row = Some 1%Z
    /\ Analysis.file_insights row = Some []
    /\ Analysis.tech_stack row = Some tech
    /\ TechStack.languages tech = countLanguages env (codeFiles (allFiles tree)) []
    /\ count isReviewCall (trace s) = 0
    /\ count isContentFetch (trace s)
       = length (configFiles (allFiles tree)) + length (codeFiles (allFiles tree)).
Proof.
  intros H Hkey. destruct (scored_run store0 H) as (s & E & _ & Hrow & T).
  destruct (stateAtScore_spec env store0 id user_id tree)
    as (_ & _ & _ & F & Tm & L & _).
  cbv zeta in *.
  assert (N : forall files,
            validResults (List.map (insightOf env) files) = []
            /\ list_sum (List.map (reviewCalls env) files) = 0).
  { induction files as [|f files [IH1 IH2]]; [auto|]. cbn [List.map].
    unfold insightOf at 1, reviewOf, reviewCalls at 1. rewrite Hkey.
    destruct (received env f); cbn [validResults]; auto. }
  destruct (N (codeFiles (allFiles tree))) as [N1 N2]. rewrite N1 in F.
  destruct (count_fileEvents env (codeFiles (allFiles tree))) as (F1 & F2 & _).
  destruct (count_configs (configFiles (allFiles tree))) as (C1 & C2).
  eexists _, s, _, _. split; [exact E|]. unfold scoredRow in *. rewrite F in *.
  split; [reflexivity|]. split; [cbn; auto|]. split; [cbn; auto 6|].
  split; [exact Hrow|]. split; [reflexivity|]. split; [reflexivity|].
  split; [reflexivity|]. split; [reflexivity|]. split; [reflexivity|].
  split; [exact L|].
  rewrite T, Tm, <- !app_assoc, !count_run, F1, F2, C1, C2, N2 by reflexivity.
  split; reflexivity.
Qed.

Lemma missing_key_scores_one_witness :
  exists resp s,
    run keylessEnv [] = (Returned resp, s)
    /\ In ("score"%string, JNumber 1) (body resp)
    /\ count isContentFetch (trace s) = 1.
Proof.
  destruct (@missing_key_scores_one keylessEnv [] (str "user-1") (str "analysis-1")
              {| name := str "widgets"; default_branch := str "main" |}
              [blob "src/app.ts" 2048])
    as (resp & s & row & tech & E & _ & Hs & _ & _ & _ & _ & _ & _ & _ & _ & _ & Hc).
  - split; [exists (ch "B"), (str "earer token"); reflexivity|].
    repeat (split; [reflexivity|]). discriminate.
  - reflexivity.
  - exists resp, s. split; [exact E|]. split; [exact Hs|exact Hc].
Defined.

(** ** The language counts *)

Lemma jsstring_eqb_refl (a : jsstring) : jsstring_eqb a a = true.
Proof. now apply jsstring_eqb_eq. Qed.

Lemma jsstring_eqb_neq (a b : jsstring) : a <> b -> jsstring_eqb a b = false.
Proof.
  intros H. destruct (jsstring_eqb a b) eqn:E; [|reflexivity].
  apply jsstring_eqb_eq in E. congruence.
Qed.

Lemma jsstring_eqb_sym (a b : jsstring) : jsstring_eqb a b = jsstring_eqb b a.
Proof.
  destruct (jsstring_eqb a b) eqn:E.
  - apply jsstring_eqb_eq in E. subst. symmetry. apply jsstring_eqb_refl.
  - symmetry. apply jsstring_eqb_neq. intros ->. rewrite jsstring_eqb_refl in E.
    discriminate.
Qed.

Lemma lookup_bump (k e : jsstring) (stats : list (jsstring * nat)) :
  lookup k (bump e stats)
  = lookup k stats + (if jsstring_eqb e k then 1 else 0).
Proof.
  unfold lookup. induction stats as [|[x n] stats IH]; cbn [bump find fst].
  - destruct (jsstring_eqb e k); reflexivity.
  - destruct (jsstring_eqb x e) eqn:Exe; cbn [find fst].
    + apply jsstring_eqb_eq in Exe. subst x.
      destruct (jsstring_eqb e k); [reflexivity|lia].
    + destruct (jsstring_eqb x k) eqn:Exk; [|exact IH].
      apply jsstring_eqb_eq in Exk. subst x.
      rewrite (jsstring_eqb_sym e k), Exe. lia.
Qed.

Lemma keysOf_bump (e : jsstring) (stats : list (jsstring * nat)) :
  keysOf (bump e stats)
  = if existsb (fun k => jsstring_eqb k e) (keysOf stats) then keysOf stats
    else keysOf stats ++ [e].
Proof.
  unfold keysOf. induction stats as [|[x n] stats IH]; cbn [bump List.map existsb fst];
    [reflexivity|].
  destruct (jsstring_eqb x e); cbn [List.map fst orb]; [reflexivity|].
  rewrite IH. now destruct (existsb (fun k => jsstring_eqb k e) (List.map fst stats)).
Qed.

Lemma bump_NoDup (e : jsstring) (stats : list (jsstring * nat)) :
  NoDup (keysOf stats) -> NoDup (keysOf (bump e stats)).
Proof.
  intros H. rewrite keysOf_bump.
  destruct (existsb (fun k => jsstring_eqb k e) (keysOf stats)) eqn:Ex; [exact H|].
  apply NoDup_app; [exact H|repeat constructor; intros []|].
  intros x Hx [<-|[]].
  assert (existsb (fun k => jsstring_eqb k e) (keysOf stats) = true).
  { apply existsb_exists. exists e. split; [exact Hx|apply jsstring_eqb_refl]. }
  congruence.
Qed.

Lemma bump_keys_In (e k : jsstring) (stats : list (jsstring * nat)) :
  In k (keysOf (bump e stats)) <-> In k (keysOf stats) \/ k = e.
Proof.
  rewrite keysOf_bump.
  destruct (existsb (fun k => jsstring_eqb k e) (keysOf stats)) eqn:Ex.
  - split; [auto|]. intros [H| ->]; [exact H|].
    apply existsb_exists in Ex. destruct Ex as (x & Hx & Exe).
    apply jsstring_eqb_eq in Exe. now subst.
  - rewrite in_app_iff. cbn [In]. intuition.
Qed.

Lemma In_lookup (k : jsstring) (n : nat) (stats : list (jsstring * nat)) :
  NoDup (keysOf stats) -> In (k, n) stats -> lookup k stats = n.
Proof.
  unfold lookup, keysOf. induction stats as [|[x m] stats IH]; [intros _ []|].
  cbn [List.map fst find In]. intros Hnd [ [= -> ->] | Hin].
  - now rewrite jsstring_eqb_refl.
  - inversion Hnd as [|? ? Hx Hnd']; subst.
    destruct (jsstring_eqb x k) eqn:Exk; [|now apply IH].
    apply jsstring_eqb_eq in Exk. subst x. exfalso. apply Hx.
    apply in_map_iff. exists (k, n). auto.
Qed.

(** The counts after the tasks of a list of files. *)
Lemma countLanguages_spec (env : Env) (files : list GitHubFile.t) :
  forall stats,
    NoDup (keysOf stats) ->
    let stats' := countLanguages env files stats in
    NoDup (keysOf stats')
    /\ (forall k, lookup k stats'
                  = lookup k stats + length (receivedWith env k files))
    /\ (forall k, In k (keysOf stats')
                  <-> In k (keysOf stats)
                      \/ exists f, In f files /\ received env f <> None
                                   /\ fileExtension (GitHubFile.path f) = k).
Proof.
  induction files as [|f files IH]; intros stats Hnd; cbv zeta.
  - cbn. split; [exact Hnd|]. split; [intros k; lia|].
    intros k. split; [auto|]. intros [H|(f & [] & _)]. exact H.
  - assert (EC : forall st, countLanguages env (f :: files) st
                      = countLanguages env files
                          match received env f with
                          | Some _ => bump (fileExtension (GitHubFile.path f)) st
                          | None => st
                          end) by reflexivity.
    assert (ER : forall k, receivedWith env k (f :: files)
                     = if match received env f with
                          | Some _ => jsstring_eqb (fileExtension (GitHubFile.path f)) k
                          | None => false
                          end
                       then f :: receivedWith env k files
                       else receivedWith env k files) by reflexivity.
    rewrite EC. setoid_rewrite ER. clear EC ER.
    destruct (received env f) as [content|] eqn:Er.
    + destruct (IH (bump (fileExtension (GitHubFile.path f)) stats) (bump_NoDup _ Hnd))
        as (N & L & K).
      split; [exact N|]. split.
      * intros k. rewrite L, lookup_bump.
        destruct (jsstring_eqb (fileExtension (GitHubFile.path f)) k); cbn [length]; lia.
      * intros k. rewrite K, bump_keys_In. split.
        -- intros [[H| ->]|(g & Hg & Hr & He)]; auto.
           ++ right. exists f. split; [now left|]. split; [congruence|reflexivity].
           ++ right. exists g. split; [now right|]. auto.
        -- intros [H|(g & [<-|Hg] & Hr & He)]; auto.
           right. exists g. auto.
    + destruct (IH stats Hnd) as (N & L & K).
      split; [exact N|]. split; [exact L|].
      intros k. rewrite K. split.
      * intros [H|(g & Hg & Hr & He)]; auto. right. exists g. split; [now right|]. auto.
      * intros [H|(g & [<-|Hg] & Hr & He)]; auto; [congruence|].
        right. exists g. auto.
Qed.

(** X12. The language counts of a completed record have one entry for
    each extension of a code file whose content was received, with the
    number of those files; the keys are distinct language names without
    dot, so there are at most twenty-four; the extension of every file
    insight is one of them; and the answer gives their number as
    [languages]. *)
Theorem languages_counted (env : Env) (store0 : list Analysis.t)
    (user_id id : jsstring) (repoData : GitHubRepoResponse) (tree : list GitHubFile.t) :
  Scored env user_id id repoData tree ->
  exists resp s row tech ins,
    run env store0 = (Returned resp, s)
    /\ In row (store s)
    /\ Analysis.id row = id
    /\ Analysis.tech_stack row = Some tech
    /\ Analysis.file_insights row = Some ins
    /\ NoDup (keysOf (TechStack.languages tech))
    /\ (forall k n, In (k, n) (TechStack.languages tech) ->
          0 < n
          /\ n = length (receivedWith env k (codeFiles (allFiles tree)))
          /\ In k languageNames)
    /\ (forall f, In f (codeFiles (allFiles tree)) -> received env f <> None ->
          In (fileExtension (GitHubFile.path f)) (keysOf (TechStack.languages tech)))
    /\ (forall r, In r ins ->
          In (FileInsight.extension r) (keysOf (TechStack.languages tech)))
    /\ length (TechStack.languages tech) <= 24
    /\ In ("languages"%string,
           JNumber (Z.of_nat (length (TechStack.languages tech)))) (body resp).
Proof.
  intros H. destruct (scored_run store0 H) as (s & E & _ & Hrow & _).
  destruct (stateAtScore_spec env store0 id user_id tree)
    as (_ & _ & _ & F & _ & L & _).
  cbv zeta in F, L.
  destruct (@countLanguages_spec env (codeFiles (allFiles tree)) [] (NoDup_nil _))
    as (N & Hl & Hk).
  rewrite <- L in N, Hl, Hk.
  set (sm := stateAtScore env store0 id user_id tree) in *.
  assert (Names : forall k, In k (keysOf (languageStats sm)) -> In k languageNames).
  { intros k Hin. apply Hk in Hin. destruct Hin as [[]|(f & Hf & _ & <-)].
    apply filter_In in Hf. now apply code_file_extension. }
  eexists _, s, _, _, (fileInsights sm). split; [exact E|]. split; [exact Hrow|].
  split; [reflexivity|]. split; [reflexivity|]. split; [reflexivity|].
  cbn [TechStack.languages].
  split; [exact N|]. split; [|split; [|split; [|split]]].
  - intros k n Hin. pose proof (In_lookup N Hin) as Hn. rewrite Hl in Hn.
    cbn [lookup find] in Hn. cbn in Hn.
    assert (Hkey : In k (keysOf (languageStats sm))).
    { apply in_map_iff. exists (k, n). auto. }
    split; [|split; [now symmetry|now apply Names]].
    apply Hk in Hkey. destruct Hkey as [[]|(f & Hf & Hr & He)].
    rewrite <- Hn. unfold receivedWith.
    assert (Hin' : In f (filter
                     (fun f => match received env f with
                               | Some _ => jsstring_eqb (fileExtension (GitHubFile.path f)) k
                               | None => false
                               end) (codeFiles (allFiles tree)))).
    { apply filter_In. split; [exact Hf|].
      destruct (received env f); [|congruence]. rewrite He. apply jsstring_eqb_refl. }
    destruct (filter _ (codeFiles (allFiles tree))); [destruct Hin'|cbn; lia].
  - intros f Hf Hr. apply Hk. right. exists f. auto.
  - intros r Hr. rewrite F in Hr. apply validResults_In in Hr.
    destruct Hr as (f & Hf & Ef). unfold insightOf, reviewOf in Ef.
    destruct (received env f) as [content|] eqn:Er; [|discriminate].
    destruct (hasKey env); [|discriminate].
    destruct (fst (loopRun env (GitHubFile.path f) 3 0 [] false))
      as [[[[a an] [|]]|]|e]; try discriminate.
    injection Ef as <-. cbn [FileInsight.extension].
    apply Hk. right. exists f. split; [exact Hf|]. split; [congruence|reflexivity].
  - change 24 with (length languageNames).
    rewrite <- (length_map fst). apply NoDup_incl_length; [exact N|].
    intros k. apply Names.
  - cbn. auto 8.
Qed.

Lemma languages_counted_witness :
  exists resp s,
    run reviewedEnv [] = (Returned resp, s)
    /\ In ("languages"%string, JNumber 1) (body resp).
Proof.
  destruct (languages_counted [] reviewedEnv_scored)
    as (resp & s & row & tech & ins & E & _ & _ & _ & _ & _ & _ & _ & _ & _ & Hb).
  exists resp, s. split; [exact E|].
  vm_compute in E. injection E as <- _. cbn. auto 8.
Defined.

(** ** The answer and the record of a completed run agree *)

Lemma slice_length {A} (l : list A) (n : nat) : length (slice l 0 n) <= n.
Proof. unfold slice. rewrite Nat.sub_0_r. cbn [skipn]. apply firstn_le_length. Qed.

(** X13. The answer of a completed run and the row it writes agree: the
    row keeps the user and the URL of the request, its score is the
    [score] of the answer, [filesAnalyzed] is the number of its file
    insights, [languages] and [frameworks] are the sizes of the language
    counts and of the framework list of its technology profile, and
    [securityIssues], like the security count of the profile, is the
    number of insights whose review has security text.  The row holds at
    most twenty suggestions. *)
Theorem answer_agrees_with_record (env : Env) (store0 : list Analysis.t)
    (user_id id : jsstring) (repoData : GitHubRepoResponse) (tree : list GitHubFile.t) :
  Scored env user_id id repoData tree ->
  exists resp s score summary sugg tech ins,
    run env store0 = (Returned resp, s)
    /\ In (Analysis.Make id user_id (repoUrl env) completed (Some score) (Some summary)
             (Some sugg) (Some tech) (Some ins)) (store s)
    /\ statusCode resp = 200
    /\ body resp
       = [("success", JTrue); ("analysisId", JString id); ("score", JNumber score);
          ("filesAnalyzed", JNumber (Z.of_nat (length ins)));
          ("languages", JNumber (Z.of_nat (length (TechStack.languages tech))));
          ("frameworks", JNumber (Z.of_nat (length (TechStack.frameworks tech))));
          ("securityIssues", JNumber (Z.of_nat (securityCount ins)))]%string
    /\ TechStack.security_issues_count tech = Some (securityCount ins)
    /\ (1 <= score <= 10)%Z
    /\ length sugg <= 20.
Proof.
  intros H. destruct (scored_run store0 H) as (s & E & _ & Hrow & _).
  destruct (stateAtScore_spec env store0 id user_id tree)
    as (_ & _ & _ & _ & _ & _ & Htal & _).
  cbv zeta in Htal. unfold tallied in Htal.
  set (sm := stateAtScore env store0 id user_id tree) in *.
  eexists _, s, _, _, _, _, (fileInsights sm). split; [exact E|].
  split; [exact Hrow|]. split; [reflexivity|].
  cbn [body TechStack.languages TechStack.frameworks TechStack.security_issues_count].
  unfold fullBody. rewrite Htal.
  split; [reflexivity|]. split; [reflexivity|].
  split; [apply computeFinalScore_range|].
  rewrite !length_app.
  pose proof (slice_length (suggestions sm) 10).
  pose proof (slice_length (codeQualityIssues sm) 5).
  pose proof (slice_length (securityIssues sm) 5). lia.
Qed.

Lemma answer_agrees_with_record_witness :
  exists resp s,
    run reviewedEnv [] = (Returned resp, s)
    /\ In ("securityIssues"%string, JNumber 1) (body resp).
Proof.
  destruct (answer_agrees_with_record [] reviewedEnv_scored)
    as (resp & s & score & summary & sugg & tech & ins & E & Hrow & _ & Hb & _).
  exists resp, s. split; [exact E|].
  vm_compute in E. injection E as <- _. cbn. auto 8.
Defined.

(** ** The table after a run *)

Lemma updateRow_length (id : jsstring) (f : Analysis.t -> Analysis.t)
    (rows : list Analysis.t) : length (updateRow id f rows) = length rows.
Proof. unfold updateRow. apply length_map. Qed.

Lemma updateRow_other (id : jsstring) (f : Analysis.t -> Analysis.t)
    (rows : list Analysis.t) (row : Analysis.t) :
  In row rows -> Analysis.id row <> id -> In row (updateRow id f rows).
Proof.
  intros Hin Hid. unfold updateRow. apply in_map_iff. exists row. split; [|exact Hin].
  now rewrite jsstring_eqb_neq.
Qed.

(** X14. Whatever the outside world answers, the handler returns a
    response, and the table after the run has at most one row more than
    before: none when the run ends before the insert succeeds, one
    otherwise.  The new row is the last one, carries the identifier
    given by the insert, the authenticated user and the URL of the
    request, and is pending or completed; every older row with another
    identifier is unchanged. *)
Theorem run_adds_one_row (env : Env) (store0 : list Analysis.t) :
  exists resp s,
    run env store0 = (Returned resp, s)
    /\ (store s = store0
        \/ exists user_id id row,
             getUser env = Returned (Some user_id)
             /\ insertAnalysis env = Returned (inl id)
             /\ length (store s) = length store0 + 1
             /\ last (store s) row = row
             /\ In row (store s)
             /\ Analysis.id row = id
             /\ Analysis.user_id row = user_id
             /\ Analysis.repo_url row = repoUrl env
             /\ (Analysis.status row = pending \/ Analysis.status row = completed)
             /\ (forall old, In old store0 -> Analysis.id old <> id ->
                   In old (store s))).
Proof.
  destruct (run_ended env store0) as (resp & s & E & H).
  exists resp, s. split; [exact E|].
  destruct H as [_ Hs _|user_id id evs Hg Hi _ Hs _ _
                |user_id id evs score summary sugg tech ins tree Hg Hi _ _ Hs _ _ _ _].
  - now left.
  - right. exists user_id, id, (pendingRow id user_id (repoUrl env)).
    rewrite Hs. split; [exact Hg|]. split; [exact Hi|].
    split; [rewrite length_app; reflexivity|]. split; [apply last_last|].
    split; [apply in_or_app; right; now left|].
    repeat (split; [reflexivity|]). split; [now left|].
    intros old Hold _. apply in_or_app. now left.
  - right.
    exists user_id, id,
      (completeRow score summary sugg tech ins (pendingRow id user_id (repoUrl env))).
    rewrite Hs. split; [exact Hg|]. split; [exact Hi|].
    split; [rewrite updateRow_length, length_app; reflexivity|].
    split.
    { unfold updateRow. rewrite map_app. cbn [List.map pendingRow Analysis.id].
      rewrite jsstring_eqb_refl. apply last_last. }
    split; [now apply updateRow_last|].
    repeat (split; [reflexivity|]). split; [now right|].
    intros old Hold Hid. apply updateRow_other; [|exact Hid].
    apply in_or_app. now left.
Qed.

(** ** The technology profile *)

Lemma set_add_In (x y : jsstring) (l : list jsstring) :
  In y (set_add x l) <-> In y l \/ y = x.
Proof.
  unfold set_add. destruct (existsb (jsstring_eqb x) l) eqn:E.
  - split; [auto|]. intros [H| ->]; [exact H|].
    apply existsb_exists in E. destruct E as (z & Hz & Ez).
    apply jsstring_eqb_eq in Ez. now subst.
  - rewrite in_app_iff. cbn [In]. intuition.
Qed.

Section Profile.

Variable proj : State -> list jsstring.

(** [proj] is one of the three sets of the profile. *)
Hypothesis proj_empty : proj (initialState []) = [].
Hypothesis proj_store : forall f s, proj (set_store f s) = proj s.
Hypothesis proj_trace : forall f s, proj (set_trace f s) = proj s.
Hypothesis proj_languageStats : forall f s, proj (set_languageStats f s) = proj s.
Hypothesis proj_fileInsights : forall f s, proj (set_fileInsights f s) = proj s.
Hypothesis proj_codeQualityIssues : forall f s, proj (set_codeQualityIssues f s) = proj s.
Hypothesis proj_securityIssues : forall f s, proj (set_securityIssues f s) = proj s.
Hypothesis proj_suggestions : forall f s, proj (set_suggestions f s) = proj s.
Hypothesis proj_frameworks : forall x s y,
  In y (proj (set_frameworks (set_add x) s))
  <-> In y (proj s) \/ In y (proj (set_frameworks (set_add x) (initialState []))).
Hypothesis proj_tools : forall x s y,
  In y (proj (set_tools (set_add x) s))
  <-> In y (proj s) \/ In y (proj (set_tools (set_add x) (initialState []))).
Hypothesis proj_architecturePatterns : forall x s y,
  In y (proj (set_architecturePatterns (set_add x) s))
  <-> In y (proj s)
      \/ In y (proj (set_architecturePatterns (set_add x) (initialState []))).

Lemma detector_ret : detector proj (ret tt).
Proof.
  split; [reflexivity|]. intros s x. cbn. rewrite proj_empty. cbn. tauto.
Qed.

Lemma detector_bind (m1 m2 : M unit) :
  detector proj m1 -> detector proj m2 -> detector proj (bind m1 (fun _ => m2)).
Proof.
  intros [R1 C1] [R2 C2]. split.
  - intros s. unfold bind. specialize (R1 s). destruct (m1 s) as [[[]|e] s1];
      cbn [fst] in R1; [apply R2|discriminate].
  - assert (E : forall s, snd (bind m1 (fun _ => m2) s) = snd (m2 (snd (m1 s)))).
    { intros s. unfold bind. specialize (R1 s).
      destruct (m1 s) as [[[]|e] s1]; cbn [fst] in R1; [reflexivity|discriminate]. }
    intros s x. rewrite !E, (C2 (snd (m1 s))), (C1 s),
                  (C2 (snd (m1 (initialState [])))), (C1 (initialState [])), proj_empty.
    cbn [In]. tauto.
Qed.

Lemma detector_when (b : bool) (m : M unit) : detector proj m -> detector proj (when b m).
Proof. destruct b; cbn [when]; auto using detector_ret. Qed.

Lemma detector_forEach {A} (l : list A) (body : A -> M unit) :
  (forall a, detector proj (body a)) -> detector proj (forEach l body).
Proof.
  intros H. induction l; cbn [forEach]; auto using detector_ret, detector_bind.
Qed.

Lemma detector_addFramework (x : string) : detector proj (addFramework x).
Proof. split; [reflexivity|]. intros s y. apply proj_frameworks. Qed.

Lemma detector_addTool (x : string) : detector proj (addTool x).
Proof. split; [reflexivity|]. intros s y. apply proj_tools. Qed.

Lemma detector_addPattern (x : string) : detector proj (addPattern x).
Proof. split; [reflexivity|]. intros s y. apply proj_architecturePatterns. Qed.

Ltac detect :=
  repeat first
    [ apply detector_ret
    | apply detector_addFramework
    | apply detector_addTool
    | apply detector_addPattern
    | apply detector_bind
    | apply detector_when
    | apply detector_forEach; intros ?
    | match goal with |- detector _ (match ?x with _ => _ end) => destruct x end ].

Lemma detector_detectFromCode (content : jsstring) :
  detector proj (detectFromCode content).
Proof. unfold detectFromCode. detect. Qed.

Lemma detector_detectFromConfig (env : Env) (file : GitHubFile.t) (content : jsstring) :
  detector proj (detectFromConfig env file content).
Proof. unfold detectFromConfig. cbv zeta. detect. Qed.

Lemma contributes_nothing {A} (m : M A) :
  (forall s, proj (snd (m s)) = proj s) -> contributes proj m [].
Proof. intros H s x. rewrite H. cbn [In]. tauto. Qed.

Lemma contributes_analyzeConfig (env : Env) (file : GitHubFile.t) :
  contributes proj (analyzeConfig env file) (configFinds proj env file).
Proof.
  intros s x. unfold analyzeConfig, tryCatch, configFinds, received.
  unfold bind at 1. unfold await.
  destruct (fetchContent env (GitHubFile.path file)) as [[[[|c content]|]|status]|e];
    cbn [snd ret]; rewrite ?proj_trace; cbn [In]; try tauto.
  destruct (detector_detectFromConfig env file (decodeBase64 env (c :: content)))
    as [R C].
  set (s0 := set_trace _ s). specialize (R s0). specialize (C s0 x).
  destruct (detectFromConfig env file (decodeBase64 env (c :: content)) s0)
    as [[[]|e] s1]; cbn [fst snd] in *; [|discriminate].
  subst s0. rewrite proj_trace in C. exact C.
Qed.

Lemma contributes_analyzeFile (env : Env) (file : GitHubFile.t) :
  contributes proj (analyzeFile env file) (codeFinds proj env file).
Proof.
  intros s x.
  unfold analyzeFile, tryCatch, codeFinds, received.
  unfold bind at 1. unfold await.
  destruct (fetchContent env (GitHubFile.path file)) as [[[[|c content]|]|status]|e];
    cbn [snd ret]; rewrite ?proj_trace; cbn [In]; try tauto.
  unfold bind at 1. unfold modify. unfold bind at 1.
  destruct (detector_detectFromCode (decodeBase64 env (c :: content))) as [R C].
  set (s1 := set_languageStats _ _). specialize (R s1). specialize (C s1 x).
  assert (P1 : proj s1 = proj s) by (subst s1; now rewrite proj_languageStats, proj_trace).
  rewrite P1 in C.
  destruct (detectFromCode (decodeBase64 env (c :: content)) s1) as [[[]|e] s2];
    cbn [fst snd] in *; [|discriminate].
  rewrite <- C. clear C.
  match goal with
  | |- In x (proj (snd (let (o, s') := ?m s2 in _))) <-> _ =>
      assert (P : preserves (fun s' => proj s' = proj s2) m)
  end.
  { destruct (GROQ_API_KEY env) as [[|k key]|]; try apply preserves_ret.
    apply preserves_bind.
    - apply preserves_reviewLoop. intros f s' H. now rewrite proj_trace.
    - intros [[[a analysis] [|]]|]; cbn [negb]; try apply preserves_ret.
      unfold recordReview. cbv zeta.
      repeat first
        [ apply preserves_ret
        | apply preserves_bind; [|intros ?]
        | apply preserves_modify; intros s' H;
          rewrite ?proj_codeQualityIssues, ?proj_securityIssues, ?proj_suggestions;
          exact H
        | match goal with
          | |- preserves _ (match ?x with _ => _ end) => destruct x
          end ]. }
  specialize (P s2 eq_refl).
  match goal with
  | |- In x (proj (snd (let (o, s') := ?m s2 in _))) <-> _ =>
      destruct (m s2) as [[r|e] s3]
  end; unfold ret; cbn [snd] in *; rewrite P; tauto.
Qed.

Lemma contributes_forEach {A} (body : A -> M unit) (D : A -> list jsstring)
    (l : list A) :
  (forall a s, exists s', body a s = (Returned tt, s')) ->
  (forall a, contributes proj (body a) (D a)) ->
  contributes proj (forEach l body) (flat_map D l).
Proof.
  intros R C. induction l as [|a l IH]; intros s x; cbn [forEach flat_map].
  - cbn. tauto.
  - unfold bind. destruct (R a s) as (s1 & E). specialize (C a s x).
    rewrite E in *. cbn [snd] in C. rewrite (IH s1 x), C, in_app_iff. tauto.
Qed.

Lemma contributes_processBatch (env : Env) (batch : list GitHubFile.t) :
  contributes proj (processBatch env batch) (flat_map (codeFinds proj env) batch).
Proof.
  intros s x. unfold processBatch. unfold bind at 1.
  assert (H : forall s0, exists rs s1,
            mapM (analyzeFile env) batch s0 = (Returned rs, s1)
            /\ (In x (proj s1)
                <-> In x (proj s0) \/ In x (flat_map (codeFinds proj env) batch))).
  { induction batch as [|f batch IH]; intros s0; cbn [mapM flat_map].
    - exists [], s0. split; [reflexivity|]. cbn. tauto.
    - unfold bind at 1. destruct (analyzeFile_returns env f s0) as (r & s1 & E).
      pose proof (contributes_analyzeFile env f s0 x) as C.
      rewrite E in *. cbn [snd] in C. unfold bind at 1.
      destruct (IH s1) as (rs & s2 & E2 & C2). rewrite E2. unfold ret.
      exists (r :: rs), s2. split; [reflexivity|]. rewrite C2, C, in_app_iff. tauto. }
  destruct (H s) as (rs & s1 & E & C). rewrite E. unfold modify. cbn [snd].
  now rewrite proj_fileInsights.
Qed.

Lemma batches_concat_flat {B} (D : GitHubFile.t -> list B) (l : list GitHubFile.t) :
  flat_map (fun b => flat_map D b) (batches l) = flat_map D l.
Proof.
  rewrite <- (batches_concat l) at 2.
  induction (batches l) as [|b bs IH]; [reflexivity|].
  cbn [flat_map concat]. now rewrite flat_map_app, IH.
Qed.

(** The set at the scoring is the union of what the passes find. *)
Lemma profile_union (env : Env) (store0 : list Analysis.t) (id user_id : jsstring)
    (tree : list GitHubFile.t) (x : jsstring) :
  In x (proj (stateAtScore env store0 id user_id tree))
  <-> (exists f, In f (configFiles (allFiles tree)) /\ In x (configFinds proj env f))
      \/ (exists f, In f (codeFiles (allFiles tree)) /\ In x (codeFinds proj env f)).
Proof.
  unfold stateAtScore.
  assert (Rb : forall b s, exists s', processBatch env b s = (Returned tt, s')).
  { intros b s. destruct (processBatch_spec env b s) as (s' & evs & E & _).
    now exists s'. }
  assert (Ra : forall f s, exists s', analyzeConfig env f s = (Returned tt, s')).
  { intros f s. destruct (analyzeConfig_spec env f s) as (s' & E & _). now exists s'. }
  pose proof (@contributes_forEach _ (processBatch env)
                (fun b => flat_map (codeFinds proj env) b)
                (batches (codeFiles (allFiles tree))) Rb
                (contributes_processBatch env)
                (snd (forEach (configFiles (allFiles tree)) (analyzeConfig env)
                        (stateAtTree env store0 id user_id))) x) as B.
  pose proof (@contributes_forEach _ (analyzeConfig env) (configFinds proj env)
                (configFiles (allFiles tree)) Ra (contributes_analyzeConfig env)
                (stateAtTree env store0 id user_id) x) as A.
  rewrite B, A. clear A B.
  assert (P0 : proj (stateAtTree env store0 id user_id) = []).
  { unfold stateAtTree, logged. rewrite !proj_trace, proj_store, !proj_trace.
    change (initialState store0) with (set_store (fun _ => store0) (initialState [])).
    now rewrite proj_store. }
  rewrite P0. cbn [In]. rewrite batches_concat_flat, !in_flat_map. tauto.
Qed.

End Profile.

Ltac profile_hyps :=
  try reflexivity;
  try (intros; reflexivity);
  try (intros ? ? ?;
       cbn [frameworks tools architecturePatterns set_frameworks set_tools
            set_architecturePatterns initialState];
       rewrite ?set_add_In; cbn [In]; tauto).

Lemma frameworks_union (env : Env) (store0 : list Analysis.t) (id user_id : jsstring)
    (tree : list GitHubFile.t) (x : jsstring) :
  In x (frameworks (stateAtScore env store0 id user_id tree))
  <-> (exists f, In f (configFiles (allFiles tree))
                 /\ In x (configFinds frameworks env f))
      \/ (exists f, In f (codeFiles (allFiles tree))
                    /\ In x (codeFinds frameworks env f)).
Proof. apply profile_union; profile_hyps. Qed.

Lemma tools_union (env : Env) (store0 : list Analysis.t) (id user_id : jsstring)
    (tree : list GitHubFile.t) (x : jsstring) :
  In x (tools (stateAtScore env store0 id user_id tree))
  <-> (exists f, In f (configFiles (allFiles tree)) /\ In x (configFinds tools env f))
      \/ (exists f, In f (codeFiles (allFiles tree)) /\ In x (codeFinds tools env f)).
Proof. apply profile_union; profile_hyps. Qed.

Lemma patterns_union (env : Env) (store0 : list Analysis.t) (id user_id : jsstring)
    (tree : list GitHubFile.t) (x : jsstring) :
  In x (architecturePatterns (stateAtScore env store0 id user_id tree))
  <-> (exists f, In f (configFiles (allFiles tree))
                 /\ In x (configFinds architecturePatterns env f))
      \/ (exists f, In f (codeFiles (allFiles tree))
                    /\ In x (codeFinds architecturePatterns env f)).
Proof. apply profile_union; profile_hyps. Qed.

(** The pass over code adds no tool, and the pass over a config file no
    pattern. *)
Lemma codeFinds_tools (env : Env) (f : GitHubFile.t) : codeFinds tools env f = [].
Proof.
  unfold codeFinds. destruct (received env f) as [content|]; [|reflexivity].
  exact (@preserves_detectFromCode (fun s => tools s = []) (fun x s H => H)
           (fun x s H => H) content (initialState []) eq_refl).
Qed.

Lemma configFinds_patterns (env : Env) (f : GitHubFile.t) :
  configFinds architecturePatterns env f = [].
Proof.
  unfold configFinds. destruct (received env f) as [content|]; [|reflexivity].
  exact (@preserves_detectFromConfig env (fun s => architecturePatterns s = [])
           (fun x s H => H) (fun x s H => H) f content (initialState []) eq_refl).
Qed.

(** X15. The technology profile of a completed record holds what the
    detector passes find, and nothing else: a framework is listed exactly
    when the pass over the received content of some config file or of
    some code file finds it, a tool exactly when the pass over some
    config file finds it, and an architecture pattern exactly when the
    pass over some code file finds it.  What a pass finds does not
    depend on the files processed before. *)
Theorem profile_is_what_passes_find (env : Env) (store0 : list Analysis.t)
    (user_id id : jsstring) (repoData : GitHubRepoResponse) (tree : list GitHubFile.t) :
  Scored env user_id id repoData tree ->
  exists resp s row tech patterns,
    run env store0 = (Returned resp, s)
    /\ In row (store s)
    /\ Analysis.id row = id
    /\ Analysis.tech_stack row = Some tech
    /\ TechStack.architecture_patterns tech = Some patterns
    /\ (forall x, In x (TechStack.frameworks tech)
                  <-> (exists f, In f (configFiles (allFiles tree))
                                 /\ In x (configFinds frameworks env f))
                      \/ (exists f, In f (codeFiles (allFiles tree))
                                    /\ In x (codeFinds frameworks env f)))
    /\ (forall x, In x (TechStack.tools tech)
                  <-> exists f, In f (configFiles (allFiles tree))
                                /\ In x (configFinds tools env f))
    /\ (forall x, In x patterns
                  <-> exists f, In f (codeFiles (allFiles tree))
                                /\ In x (codeFinds architecturePatterns env f))
    /\ NoDup (TechStack.frameworks tech)
    /\ NoDup patterns.
Proof.
  intros H. destruct (scored_run store0 H) as (s & E & _ & Hrow & _).
  destruct (stateAtScore_spec env store0 id user_id tree)
    as (_ & _ & _ & _ & _ & _ & _ & Dp & Df).
  cbv zeta in Dp, Df.
  eexists _, s, _, _, _. split; [exact E|]. split; [exact Hrow|].
  split; [reflexivity|]. split; [reflexivity|]. split; [reflexivity|].
  cbn [TechStack.frameworks TechStack.tools].
  split; [apply frameworks_union|]. split; [|split; [|split; assumption]].
  - intros x. rewrite tools_union. split; [|auto].
    intros [Hc|(f & _ & Hf)]; [exact Hc|]. rewrite codeFinds_tools in Hf. destruct Hf.
  - intros x. rewrite patterns_union. split; [|auto].
    intros [(f & _ & Hf)|Hc]; [|exact Hc].
    rewrite configFinds_patterns in Hf. destruct Hf.
Qed.

Lemma profile_is_what_passes_find_witness :
  exists resp s row tech,
    run reviewedEnv [] = (Returned resp, s)
    /\ In row (store s)
    /\ Analysis.tech_stack row = Some tech
    /\ TechStack.architecture_patterns tech = Some [str "Modular Architecture"].
Proof.
  destruct (profile_is_what_passes_find [] reviewedEnv_scored)
    as (resp & s & row & tech & patterns & E & Hrow & _ & Ht & Hp & _).
  exists resp, s, row, tech. split; [exact E|]. split; [exact Hrow|].
  split; [exact Ht|].
  vm_compute in E. injection E as _ <-. vm_compute in Hrow.
  destruct Hrow as [<-|[]]. vm_compute in Ht. injection Ht as <-. reflexivity.
Defined.

(** ** Config files without a detector *)

(** X16. Only [package.json], [requirements.txt], [Cargo.toml] and
    [go.mod] are read by the config pass: the content of a config file
    whose path ends with none of these names is asked for, and the state
    is left as it is, whatever the host answers. *)
Theorem other_config_files_ignored (env : Env) (file : GitHubFile.t) (s : State) :
  someEndsWith detectorNames (GitHubFile.path file) = false ->
  analyzeConfig env file s
  = (Returned tt, logged (FetchContent (GitHubFile.path file)) s).
Proof.
  unfold someEndsWith, detectorNames. cbn [List.map existsb]. intros H.
  apply orb_false_iff in H. destruct H as [H1 H].
  apply orb_false_iff in H. destruct H as [H2 H].
  apply orb_false_iff in H. destruct H as [H3 H].
  apply orb_false_iff in H. destruct H as [H4 _].
  unfold analyzeConfig, tryCatch. unfold bind at 1. unfold await, logged.
  destruct (fetchContent env (GitHubFile.path file)) as [[[[|c content]|]|status]|e];
    try reflexivity.
  unfold detectFromConfig. cbv zeta. rewrite H1, H2, H3, H4. reflexivity.
Qed.

Lemma other_config_files_ignored_witness :
  isConfig composeFile = true
  /\ analyzeConfig codeEnv composeFile (initialState [])
     = (Returned tt, logged (FetchContent (str "docker-compose.yml")) (initialState [])).
Proof.
  split; [reflexivity|].
  apply (@other_config_files_ignored codeEnv composeFile (initialState [])).
  reflexivity.
Defined.

(** ** The text of a section of a review *)

Lemma headerAhead_nil (others : list jsstring) : headerAhead others [] = true.
Proof. unfold headerAhead. apply orb_true_r. Qed.

Lemma matcher_aheadOf (others : list string) (st : mstate) :
  matcher flags_i (aheadOf others) st Some
  = if headerAhead (List.map str others) (after st)
    then matcher flags_i (aheadOf others) st Some
    else None.
Proof.
  unfold headerAhead. induction others as [|h others IH]; cbn [aheadOf fold_right].
  - cbn [List.map existsb orb matcher]. unfold atEol.
    now destruct (after st).
  - fold (aheadOf others). cbn [matcher List.map existsb].
    rewrite matcher_lit.
    destruct (prefixOf flags_i (after st) (str h)); [reflexivity|].
    cbn [orb]. exact IH.
Qed.

Lemma matcher_aheadOf_some (others : list string) (st : mstate) :
  headerAhead (List.map str others) (after st) = true ->
  exists st', matcher flags_i (aheadOf others) st Some = Some st'
              /\ cap st' = cap st.
Proof.
  unfold headerAhead. induction others as [|h others IH]; cbn [aheadOf fold_right].
  - cbn [List.map existsb orb matcher]. unfold atEol.
    destruct (after st); [|discriminate]. intros _. now exists st.
  - fold (aheadOf others). cbn [matcher List.map existsb].
    rewrite matcher_lit.
    destruct (prefixOf flags_i (after st) (str h)).
    + intros _. eexists. split; [reflexivity|reflexivity].
    + cbn [orb]. intros H. destruct (IH H) as (st' & -> & Hc). now exists st'.
Qed.

Lemma matcher_lazy_any (fl : flags) (st : mstate) (k : mstate -> option mstate) :
  matcher fl (LazyStar anyChar) st k = lazyScan k (before st) (after st) (cap st).
Proof.
  cbn [matcher].
  assert (H : forall n b a c, length a <= n ->
            repeatMatcher true (matcher fl anyChar) k n (MState b a c)
            = lazyScan k b a c).
  { induction n as [|n IH]; intros b a c Hn.
    - destruct a; [|cbn in Hn; lia]. cbn [repeatMatcher lazyScan].
      now destruct (k _).
    - cbn [repeatMatcher]. unfold anyChar at 1. rewrite matcher_cls.
      cbn [after before cap]. destruct a as [|x rest]; cbn [lazyScan].
      + now destruct (k _).
      + destruct (k _); [reflexivity|]. cbn [length] in *.
        replace (length rest <? S (length rest)) with true
          by (symmetry; apply Nat.ltb_lt; lia).
        fold anyChar. rewrite IH by lia. reflexivity. }
  destruct st as [b a c]. cbn [after before cap]. now apply H.
Qed.

Lemma atHeader_spec (others : list string) (st0 st' : mstate) :
  atHeader others st0 st'
  = if headerAhead (List.map str others) (after st')
    then Some (MState (before st') (after st') (Some (consumed st0 st')))
    else None.
Proof.
  unfold atHeader. cbn [matcher]. rewrite matcher_aheadOf. cbn [after].
  destruct (headerAhead (List.map str others) (after st')) eqn:H; [|reflexivity].
  destruct (@matcher_aheadOf_some others
              (MState (before st') (after st') (Some (consumed st0 st'))) H)
    as (r & -> & Hc).
  cbn [before after cap] in *. now rewrite Hc.
Qed.

Lemma lazyScan_until (others : list string) (b0 a0 : jsstring) (c0 c : option jsstring) :
  forall a p,
    p ++ a = a0 ->
    lazyScan (atHeader others (MState b0 a0 c0)) (rev p ++ b0) a c
    = Some (MState (rev (p ++ untilHeader (List.map str others) a) ++ b0)
              (skipn (length (untilHeader (List.map str others) a)) a)
              (Some (p ++ untilHeader (List.map str others) a))).
Proof.
  assert (C : forall a p b c', p ++ a = a0 ->
            consumed (MState b0 a0 c0) (MState b a c') = p).
  { intros a p b c' <-. unfold consumed. cbn [after].
    rewrite length_app, Nat.add_sub, firstn_app, firstn_all, Nat.sub_diag.
    cbn [firstn]. apply app_nil_r. }
  induction a as [|x rest IH]; intros p Hp; cbn [lazyScan untilHeader];
    rewrite atHeader_spec; cbn [before after].
  - rewrite headerAhead_nil. cbn [length skipn].
    rewrite (C [] p _ _ Hp), app_nil_r. reflexivity.
  - destruct (headerAhead (List.map str others) (x :: rest)).
    + cbn [length skipn]. rewrite (C (x :: rest) p _ _ Hp), app_nil_r. reflexivity.
    + specialize (IH (p ++ [x])). rewrite rev_app_distr in IH. cbn [rev app] in IH.
      rewrite IH by (rewrite <- app_assoc; exact Hp).
      cbn [length skipn]. rewrite <- !app_assoc. reflexivity.
Qed.

Lemma matchAt_section (header : string) (others : list string) (b a : jsstring) :
  captured (matchAt flags_i (re_section header others) b a)
  = sectionHere (str header) (List.map str others) a.
Proof.
  unfold matchAt, re_section, sectionHere. fold (aheadOf others).
  rewrite matcher_seq, matcher_lit. cbn [after before cap].
  destruct (prefixOf flags_i a (str header)); [|reflexivity].
  rewrite matcher_seq. unfold ws. rewrite matcher_star_cls. cbn [after before cap].
  assert (K : forall st,
            matcher flags_i
              (Seq (Group (LazyStar anyChar)) (Ahead (aheadOf others))) st Some
            = Some (MState
                      (rev (untilHeader (List.map str others) (after st)) ++ before st)
                      (skipn (length (untilHeader (List.map str others) (after st)))
                         (after st))
                      (Some (untilHeader (List.map str others) (after st))))).
  { intros [b1 a1 c1]. rewrite matcher_seq, matcher_group, matcher_lazy_any.
    cbn [before after cap].
    change (fun st' => matcher flags_i (Ahead (aheadOf others))
                         (MState (before st') (after st')
                            (Some (consumed (MState b1 a1 c1) st'))) Some)
      with (atHeader others (MState b1 a1 c1)).
    exact (@lazyScan_until others b1 a1 c1 c1 a1 [] eq_refl). }
  rewrite greedy_total.
  - rewrite K. reflexivity.
  - intros st. rewrite K. discriminate.
Qed.

Lemma search_section (header : string) (others : list string) (s : jsstring) :
  forall b,
    captured (search flags_i (re_section header others) b s)
    = firstSection (str header) (List.map str others) s.
Proof.
  induction s as [|c s IH]; intros b; cbn [search firstSection];
    rewrite <- (matchAt_section header others b);
    destruct (matchAt flags_i (re_section header others) b _) eqn:E;
    cbn [captured]; auto.
Qed.

Lemma match1_section (header : string) (others : list string) (s : jsstring) :
  match1 flags_i (re_section header others) s
  = firstSection (str header) (List.map str others) s.
Proof. unfold match1. rewrite <- (search_section header others s []). reflexivity. Qed.

Lemma prefixOf_app (fl : flags) (p s x : jsstring) :
  prefixOf fl s p = true -> prefixOf fl (s ++ x) p = true.
Proof.
  revert s. induction p as [|c p IH]; intros s H; [destruct (s ++ x); reflexivity|].
  destruct s as [|y s]; [discriminate|]. cbn [prefixOf app] in *.
  apply andb_true_iff in H. destruct H as [H1 H2]. rewrite H1. now apply IH.
Qed.

Lemma untilHeader_prefix (others : list jsstring) (a : jsstring) :
  exists rest, a = untilHeader others a ++ rest.
Proof.
  induction a as [|c a (rest & IH)]; cbn [untilHeader].
  - destruct (headerAhead others []); now exists [].
  - destruct (headerAhead others (c :: a)); [now exists (c :: a)|].
    exists rest. cbn [app]. now rewrite <- IH.
Qed.

(** No header stands at a place inside the text up to the next header. *)
Lemma untilHeader_clear (others : list jsstring) (o : jsstring) :
  In o others ->
  forall a w1 t2 w,
    untilHeader others a = w1 ++ t2 ++ w -> t2 <> [] ->
    prefixOf flags_i t2 o = false.
Proof.
  intros Ho. induction a as [|c a IH]; intros w1 t2 w E Ht; cbn [untilHeader] in E.
  - destruct (headerAhead others []); destruct w1, t2; try discriminate; congruence.
  - destruct (headerAhead others (c :: a)) eqn:Ha.
    + destruct w1, t2; try discriminate; congruence.
    + destruct w1 as [|x w1]; cbn [app] in E.
      * destruct (prefixOf flags_i t2 o) eqn:P; [|reflexivity].
        destruct (untilHeader_prefix others a) as (rest & Er).
        assert (Ea : c :: a = t2 ++ (w ++ rest)).
        { rewrite Er. rewrite app_assoc, <- E. reflexivity. }
        unfold headerAhead in Ha. apply orb_false_iff in Ha. destruct Ha as [Ha _].
        assert (Hx : existsb (prefixOf flags_i (c :: a)) others = true).
        { apply existsb_exists. exists o. split; [exact Ho|].
          rewrite Ea. now apply prefixOf_app. }
        congruence.
      * injection E as _ E. exact (IH w1 t2 w E Ht).
Qed.

Lemma includesCI_inv (s p : jsstring) :
  includesCI s p = true -> exists s1 s2, s = s1 ++ s2 /\ prefixOf flags_i s2 p = true.
Proof.
  induction s as [|c s IH]; cbn [includesCI]; intros H.
  - rewrite orb_false_r in H. now exists [], [].
  - apply orb_true_iff in H. destruct H as [H|H].
    + now exists [], (c :: s).
    + destruct (IH H) as (s1 & s2 & -> & P). now exists (c :: s1), s2.
Qed.

Lemma trimStart_suffix (s : jsstring) : exists w, s = w ++ trimStart s.
Proof.
  induction s as [|c s (w & IH)]; cbn [trimStart]; [now exists []|].
  destruct (isWhiteSpace c); [|now exists []].
  exists (c :: w). cbn [app]. now rewrite <- IH.
Qed.

Lemma trimStart_head (s : jsstring) (c : jschar) (t : jsstring) :
  trimStart s = c :: t -> isWhiteSpace c = false.
Proof.
  induction s as [|x s IH]; cbn [trimStart]; [discriminate|].
  destruct (isWhiteSpace x) eqn:E; [exact IH|]. now intros [= <- _].
Qed.

Lemma trim_inside (s : jsstring) : exists w1 w2, s = w1 ++ trim s ++ w2.
Proof.
  unfold trim. destruct (trimStart_suffix s) as (w1 & E1).
  destruct (trimStart_suffix (rev (trimStart s))) as (w2 & E2).
  exists w1, (rev w2). rewrite <- rev_app_distr, <- E2, rev_involutive. exact E1.
Qed.

Lemma trim_ends (s t : jsstring) :
  trim s = t -> t <> [] ->
  isWhiteSpace (hd 0%N t) = false /\ isWhiteSpace (last t 0%N) = false.
Proof.
  unfold trim. intros <- Hne. split.
  - destruct (trimStart (rev (trimStart s))) as [|c r] eqn:E; [now cbn in Hne|].
    pose proof (trimStart_head E) as Hc. cbn [rev].
    (* the first character of the result is the first of [trimStart s] *)
    destruct (trimStart_suffix (rev (trimStart s))) as (w & Ew). rewrite E in Ew.
    apply (f_equal (@rev jschar)) in Ew. rewrite rev_involutive, rev_app_distr in Ew.
    cbn [rev] in Ew.
    destruct (trimStart s) as [|x u] eqn:Eu.
    { destruct (rev r); discriminate. }
    pose proof (trimStart_head Eu) as Hx.
    destruct (rev r ++ [c]) as [|y v] eqn:Ey.
    { destruct (rev r); discriminate. }
    cbn [app] in Ew. injection Ew as <- _. exact Hx.
  - destruct (trimStart (rev (trimStart s))) as [|c r] eqn:E; [now cbn in Hne|].
    cbn [rev]. rewrite last_last. exact (trimStart_head E).
Qed.

Lemma firstSection_until (header : jsstring) (others : list jsstring) (s g : jsstring) :
  firstSection header others s = Some g -> exists a, g = untilHeader others a.
Proof.
  induction s as [|c s IH]; cbn [firstSection]; unfold sectionHere;
    destruct (prefixOf flags_i _ header); intros H; try discriminate;
    try (injection H as <-; eexists; reflexivity).
  now apply IH.
Qed.

Lemma firstSection_none (header : jsstring) (others : list jsstring) (s : jsstring) :
  firstSection header others s = None <-> includesCI s header = false.
Proof.
  induction s as [|c s IH]; cbn [firstSection includesCI]; unfold sectionHere;
    destruct (prefixOf flags_i _ header); cbn [orb]; try tauto; split; discriminate.
Qed.

(** X17. The text taken from a review for a section starts behind the
    first occurrence of the header of the section, in any letter case,
    and stops before the next of the other section headers: when a text
    is recorded it is not empty, has no white space at either end, and
    contains none of the other headers in any letter case; and a review
    in which the header does not occur gives no text. *)
Theorem section_text_stops_at_next_header (header : string) (others : list string)
    (analysis : jsstring) :
  (includesCI analysis (str header) = false ->
   sectionText (re_section header others) analysis = None)
  /\ (forall t,
        sectionText (re_section header others) analysis = Some t ->
        t <> []
        /\ isWhiteSpace (hd 0%N t) = false
        /\ isWhiteSpace (last t 0%N) = false
        /\ includesCI analysis (str header) = true
        /\ forall o, In o others -> o <> EmptyString ->
             includesCI t (str o) = false).
Proof.
  unfold sectionText. rewrite match1_section. split.
  - intros H. apply (firstSection_none (str header) (List.map str others)) in H.
    now rewrite H.
  - intros t.
    destruct (firstSection (str header) (List.map str others) analysis) as [g|] eqn:F;
      [|discriminate].
    destruct (trim g) as [|c t'] eqn:T; [discriminate|]. intros [= <-].
    destruct (trim_ends T) as [H1 H2]; [discriminate|].
    split; [discriminate|]. split; [exact H1|]. split; [exact H2|]. split.
    + destruct (includesCI analysis (str header)) eqn:I; [reflexivity|].
      apply (firstSection_none (str header) (List.map str others)) in I. congruence.
    + intros o Ho Hne. destruct (includesCI (c :: t') (str o)) eqn:I; [|reflexivity].
      apply includesCI_inv in I. destruct I as (t1 & t2 & Et & P).
      destruct (firstSection_until F) as (a & Eg).
      destruct (trim_inside g) as (w1 & w2 & Ew). rewrite T, Et in Ew.
      assert (Ht2 : t2 <> []).
      { intros ->. destruct o as [|x o]; [congruence|]. discriminate. }
      assert (Hin : In (str o) (List.map str others)) by now apply in_map.
      rewrite (@untilHeader_clear (List.map str others) (str o) Hin a (w1 ++ t1) t2 w2)
        in P; [discriminate| |exact Ht2].
      rewrite <- Eg, Ew, <- !app_assoc. reflexivity.
Qed.

Lemma section_text_stops_at_next_header_witness :
  sectionText re_security plainReview = Some (str "The input is not checked").
Proof.
  destruct (section_text_stops_at_next_header "SECURITY REVIEW:"
              ["CODE QUALITY REVIEW:"; "ARCHITECTURE ANALYSIS:";
               "TECHNICAL DEBT ASSESSMENT:"; "TOP 5 ACTIONABLE RECOMMENDATIONS:"]%string
              plainReview) as (_ & H).
  destruct (sectionText re_security plainReview) as [t|] eqn:E.
  - destruct (H t E) as (_ & _ & _ & _ & _). vm_compute in E.
    injection E as <-. reflexivity.
  - vm_compute in E. discriminate.
Defined.

(** ** The findings of a completed record *)

(** The three lists of findings after the task of a file. *)
Lemma analyzeFile_findings (env : Env) (file : GitHubFile.t) (s : State) :
  exists s',
    analyzeFile env file s = (Returned (insightOf env file), s')
    /\ codeQualityIssues s'
       = codeQualityIssues s ++ findings re_quality (insightOf env file)
    /\ securityIssues s'
       = securityIssues s ++ findings re_security (insightOf env file)
    /\ suggestions s'
       = suggestions s ++ findings re_recommendations (insightOf env file).
Proof.
  set (I := fun s' : State =>
              codeQualityIssues s' = codeQualityIssues s
              /\ securityIssues s' = securityIssues s
              /\ suggestions s' = suggestions s).
  assert (Done : forall s', I s' ->
            exists s'',
              (Returned (@None FileInsight.t), s') = (Returned None, s'')
              /\ codeQualityIssues s'' = codeQualityIssues s ++ findings re_quality None
              /\ securityIssues s'' = securityIssues s ++ findings re_security None
              /\ suggestions s''
                 = suggestions s ++ findings re_recommendations None).
  { intros s' (H1 & H2 & H3). exists s'. cbn [findings]. now rewrite !app_nil_r. }
  unfold analyzeFile, tryCatch, insightOf, reviewOf, received, hasKey.
  unfold bind at 1. unfold await.
  set (s0 := set_trace (fun t => t ++ [FetchContent (GitHubFile.path file)]) s).
  assert (I0 : I s0) by (subst s0 I; cbn; auto).
  destruct (fetchContent env (GitHubFile.path file)) as [[[[|c content]|]|status]|e];
    try (now apply Done).
  unfold bind at 1. unfold modify.
  fold (fileExtension (GitHubFile.path file)).
  set (s1 := set_languageStats _ s0).
  assert (I1 : I s1) by (subst s1 s0 I; cbn; auto).
  unfold bind at 1.
  pose proof (@preserves_detectFromCode I (fun x s' H => H) (fun x s' H => H)
                (decodeBase64 env (c :: content)) s1 I1) as I2.
  destruct (keeps_detectFromCode (decodeBase64 env (c :: content)) s1)
    as ([] & s2 & E2 & _).
  rewrite E2 in *. cbn [snd] in I2.
  destruct (GROQ_API_KEY env) as [[|k key]|]; try (now apply Done).
  unfold bind at 1. rewrite (@reviewLoop_run env file 3 0 [] false s2 (le_n _)).
  destruct (loopRun env (GitHubFile.path file) 3 0 [] false) as [exit n].
  cbn [fst snd]. set (s3 := set_trace _ s2).
  assert (I3 : I s3) by (subst s3; exact I2).
  destruct exit as [[[[a an] [|]]|]|e]; cbn [negb]; try (now apply Done).
  destruct I3 as (Q3 & S3 & G3).
  unfold recordReview, findings, finding. cbv zeta. unfold bind, modify, ret.
  cbn [FileInsight.analysis FileInsight.file].
  destruct (sectionText re_quality an), (sectionText re_security an),
    (sectionText re_recommendations an);
    eexists; (split; [reflexivity|]);
    cbn [codeQualityIssues securityIssues suggestions set_codeQualityIssues
         set_securityIssues set_suggestions];
    rewrite Q3, S3, G3, ?app_nil_r; auto.
Qed.

Lemma mapM_findings (env : Env) (batch : list GitHubFile.t) :
  forall s, exists rs s',
    mapM (analyzeFile env) batch s = (Returned rs, s')
    /\ codeQualityIssues s'
       = codeQualityIssues s
         ++ flat_map (fun f => findings re_quality (insightOf env f)) batch
    /\ securityIssues s'
       = securityIssues s
         ++ flat_map (fun f => findings re_security (insightOf env f)) batch
    /\ suggestions s'
       = suggestions s
         ++ flat_map (fun f => findings re_recommendations (insightOf env f)) batch.
Proof.
  induction batch as [|f batch IH]; intros s; cbn [mapM flat_map].
  - exists [], s. split; [reflexivity|]. now rewrite !app_nil_r.
  - unfold bind at 1. destruct (analyzeFile_findings env f s) as (s1 & E & Q1 & S1 & G1).
    rewrite E. unfold bind at 1.
    destruct (IH s1) as (rs & s2 & E2 & Q2 & S2 & G2). rewrite E2. unfold ret.
    eexists _, s2. split; [reflexivity|].
    rewrite Q2, S2, G2, Q1, S1, G1, <- !app_assoc. auto.
Qed.

Lemma batches_findings (env : Env) (bs : list (list GitHubFile.t)) :
  forall s, exists s',
    forEach bs (processBatch env) s = (Returned tt, s')
    /\ codeQualityIssues s'
       = codeQualityIssues s
         ++ flat_map (fun f => findings re_quality (insightOf env f)) (concat bs)
    /\ securityIssues s'
       = securityIssues s
         ++ flat_map (fun f => findings re_security (insightOf env f)) (concat bs)
    /\ suggestions s'
       = suggestions s
         ++ flat_map (fun f => findings re_recommendations (insightOf env f))
              (concat bs).
Proof.
  induction bs as [|b bs IH]; intros s; cbn [forEach concat].
  - exists s. split; [reflexivity|]. cbn. now rewrite !app_nil_r.
  - unfold bind at 1. unfold processBatch at 1. unfold bind at 1.
    destruct (mapM_findings env b s) as (rs & s1 & E & Q1 & S1 & G1).
    rewrite E. unfold modify.
    set (s1' := set_fileInsights _ s1).
    destruct (IH s1') as (s2 & E2 & Q2 & S2 & G2). rewrite E2.
    exists s2. split; [reflexivity|].
    rewrite Q2, S2, G2. subst s1'.
    cbn [codeQualityIssues securityIssues suggestions set_fileInsights].
    rewrite Q1, S1, G1, !flat_map_app, <- !app_assoc. auto.
Qed.

Lemma findings_In (env : Env) (section : regex) (files : list GitHubFile.t)
    (x : jsstring) :
  In x (flat_map (fun f => findings section (insightOf env f)) files) ->
  exists r t,
    In r (validResults (List.map (insightOf env) files))
    /\ sectionText section (FileInsight.analysis r) = Some t
    /\ x = FileInsight.file r ++ str ": " ++ t.
Proof.
  induction files as [|f files IH]; cbn [flat_map List.map]; [intros []|].
  intros H. apply in_app_or in H.
  destruct (insightOf env f) as [r|] eqn:E; cbn [findings validResults] in *.
  - destruct H as [H|H].
    + unfold finding in H.
      destruct (sectionText section (FileInsight.analysis r)) as [t|] eqn:T;
        [|destruct H].
      destruct H as [<-|[]]. exists r, t. split; [now left|auto].
    + destruct (IH H) as (r' & t & Hr & T & ->). exists r', t.
      split; [now right|auto].
  - destruct H as [[]|H]. exact (IH H).
Qed.

Lemma findings_length (env : Env) (section : regex) (files : list GitHubFile.t) :
  length (flat_map (fun f => findings section (insightOf env f)) files)
  = length (filter (fun r => match sectionText section (FileInsight.analysis r) with
                             | Some _ => true
                             | None => false
                             end)
              (validResults (List.map (insightOf env) files))).
Proof.
  induction files as [|f files IH]; [reflexivity|].
  cbn [flat_map List.map]. rewrite length_app, IH.
  destruct (insightOf env f) as [r|]; cbn [findings validResults filter]; [|reflexivity].
  unfold finding. now destruct (sectionText section (FileInsight.analysis r)).
Qed.

Lemma slice_In {A} (l : list A) (n : nat) (x : A) : In x (slice l 0 n) -> In x l.
Proof.
  unfold slice. rewrite Nat.sub_0_r. cbn [skipn]. intros H.
  rewrite <- (firstn_skipn n l). apply in_or_app. now left.
Qed.

(** X18. Every suggestion of a completed record comes from a file insight
    of the same record: it is the path of that file, a colon and a space,
    and the text of the recommendations, of the code quality review or of
    the security review of its analysis.  The quality count of the
    technology profile is the number of insights whose review has code
    quality text. *)
Theorem suggestions_come_from_insights (env : Env) (store0 : list Analysis.t)
    (user_id id : jsstring) (repoData : GitHubRepoResponse) (tree : list GitHubFile.t) :
  Scored env user_id id repoData tree ->
  exists resp s row sugg tech ins,
    run env store0 = (Returned resp, s)
    /\ In row (store s)
    /\ Analysis.id row = id
    /\ Analysis.suggestions row = Some sugg
    /\ Analysis.tech_stack row = Some tech
    /\ Analysis.file_insights row = Some ins
    /\ (forall x, In x sugg ->
          exists r t section,
            In r ins
            /\ In section [re_recommendations; re_quality; re_security]
            /\ sectionText section (FileInsight.analysis r) = Some t
            /\ x = FileInsight.file r ++ str ": " ++ t)
    /\ TechStack.quality_issues_count tech
       = Some (length (filter (fun r => match sectionText re_quality
                                                (FileInsight.analysis r) with
                                        | Some _ => true
                                        | None => false
                                        end) ins)).
Proof.
  intros H. destruct (scored_run store0 H) as (s & E & _ & Hrow & _).
  destruct (stateAtScore_spec env store0 id user_id tree)
    as (_ & E1 & _ & F & _).
  cbv zeta in *.
  destruct (batches_findings env (batches (codeFiles (allFiles tree)))
              (snd (forEach (configFiles (allFiles tree)) (analyzeConfig env)
                      (stateAtTree env store0 id user_id)))) as (s2 & E2 & B).
  assert (Es : s2 = stateAtScore env store0 id user_id tree).
  { unfold stateAtScore. now rewrite E2. }
  subst s2. rewrite batches_concat in B.
  assert (Z : let s1 := snd (forEach (configFiles (allFiles tree)) (analyzeConfig env)
                               (stateAtTree env store0 id user_id)) in
              codeQualityIssues s1 = [] /\ securityIssues s1 = []
              /\ suggestions s1 = []).
  { cbv zeta.
    apply (@preserves_forEach
             (fun s' => codeQualityIssues s' = [] /\ securityIssues s' = []
                        /\ suggestions s' = [])).
    - intros f. apply preserves_analyzeConfig; intros ? ? Hs; exact Hs.
    - repeat split. }
  cbv zeta in Z. destruct Z as (Z1 & Z2 & Z3). rewrite Z1, Z2, Z3 in B.
  cbn [app] in B. destruct B as (Q & S & G).
  set (sm := stateAtScore env store0 id user_id tree) in *.
  eexists _, s, _, _, _, (fileInsights sm). split; [exact E|]. split; [exact Hrow|].
  split; [reflexivity|]. split; [reflexivity|]. split; [reflexivity|].
  split; [reflexivity|]. split.
  - intros x Hx. rewrite F.
    apply in_app_or in Hx. destruct Hx as [Hx|Hx].
    + apply slice_In in Hx. rewrite G in Hx. apply findings_In in Hx.
      destruct Hx as (r & t & Hr & T & ->). exists r, t, re_recommendations.
      cbn [In]. auto.
    + apply in_app_or in Hx. destruct Hx as [Hx|Hx]; apply slice_In in Hx.
      * rewrite Q in Hx. apply findings_In in Hx.
        destruct Hx as (r & t & Hr & T & ->). exists r, t, re_quality.
        cbn [In]. auto 6.
      * rewrite S in Hx. apply findings_In in Hx.
        destruct Hx as (r & t & Hr & T & ->). exists r, t, re_security.
        cbn [In]. auto 6.
  - cbn [TechStack.quality_issues_count]. rewrite Q, F. f_equal.
    apply findings_length.
Qed.

Lemma suggestions_come_from_insights_witness :
  exists resp s row,
    run reviewedEnv [] = (Returned resp, s)
    /\ In row (store s)
    /\ Analysis.suggestions row
       = Some [str "src/app.ts: 1. Add tests";
               str "src/app.ts: The input is not checked"].
Proof.
  destruct (suggestions_come_from_insights [] reviewedEnv_scored)
    as (resp & s & row & sugg & tech & ins & E & Hrow & _ & Hs & _).
  exists resp, s, row. split; [exact E|]. split; [exact Hrow|].
  vm_compute in E. injection E as _ <-. vm_compute in Hrow.
  destruct Hrow as [<-|[]]. reflexivity.
Defined.

(** ** The characters of a cleaned response *)

Lemma pass_keeps_chars (fl : flags) (r : regex) (repl : list rpiece)
    (P : jschar -> Prop) (s : jsstring) :
  noAhead r = true -> Forall P (textOf repl) ->
  Forall P s -> Forall P (replace fl r repl s).
Proof.
  intros Hs Ht. eapply rewrites_Forall; eauto. now apply replace_rewrites.
Qed.

(** X19. The cleaning puts no character into a response that the
    response did not have, except the dot and the space with which it
    rewrites the head of a numbered item. *)
Theorem cleaning_adds_only_dot_and_space (text : jsstring) (c : jschar) :
  In c (cleanAiResponse text) ->
  In c text \/ c = ch "." \/ c = ch " ".
Proof.
  assert (H : Forall (fun c => In c text \/ c = ch "." \/ c = ch " ")
                (cleanAiResponse text)).
  { unfold cleanAiResponse.
    apply pass_keeps_chars; [reflexivity| |].
    { rewrite numbered_text. constructor; [right; left; reflexivity|].
      constructor; [right; right; reflexivity|constructor]. }
    do 4 (apply pass_keeps_chars; [reflexivity|constructor|]).
    apply Forall_forall. auto. }
  rewrite Forall_forall in H. apply H.
Qed.

Lemma cleaning_adds_only_dot_and_space_witness :
  In (ch "S") hyphenatedReview \/ ch "S" = ch "." \/ ch "S" = ch " ".
Proof.
  apply (@cleaning_adds_only_dot_and_space hyphenatedReview (ch "S")).
  vm_compute. auto.
Defined.
